(** * PDF Chapter Chunker: a shallow embedding of [pdf_chapter_chunker.py]

    The development follows the Python module top-down:
    - [Str]: the [str] methods the program calls ([strip], [lower], [split],
      [replace], [rsplit], slicing, [int], decimal formatting);
    - [Re]: the fragment of [re] the five TOC patterns and the two [re.sub]
      calls of the sanitizer live in, as a backtracking matcher;
    - [Pathlib]: [Path], [/], [parent], [name], [stem];
    - [PDFChunker]: the class itself together with [main], on a host where
      every directory can be created and the PDF library raises only when a
      document is opened, a page is read or a file is written;
    - [Disk]: the two flows and [main] once more, on a host where [mkdir]
      and the assembling of a document can fail as well.

    Text is a list of code points below 256 (type [ascii]); Python integers
    are [Z]; indices produced by [range] and [enumerate] are [nat]. *)

From Stdlib Require Import ZArith List String Ascii Bool Lia Arith.
From Stdlib Require Import Numbers.DecimalString Numbers.DecimalNat.
From Stdlib Require Import Sorting.Sorted.
From Stdlib Require Import Sorting.Permutation.
Import ListNotations.

Set Implicit Arguments.

Definition str := list ascii.

Definition lit (s : string) : str := list_ascii_of_string s.

(* ------------------------------------------------------------------ *)
(** ** Python [str] *)

Module Str.

Definition code (c : ascii) : nat := nat_of_ascii c.

(** [str.isspace] on one code point: TAB..CR, FS..US, SPACE, NEL, NBSP. *)
Definition isspace (c : ascii) : bool :=
  let n := code c in
  ((9 <=? n) && (n <=? 13)) || ((28 <=? n) && (n <=? 32))
  || (n =? 133) || (n =? 160).

(** Decimal digits among the code points below 256 are [0-9] only. *)
Definition isdigit (c : ascii) : bool :=
  let n := code c in (48 <=? n) && (n <=? 57).

Definition lower_char (c : ascii) : ascii :=
  let n := code c in
  if ((65 <=? n) && (n <=? 90))
     || ((192 <=? n) && (n <=? 222) && negb (n =? 215))
  then ascii_of_nat (n + 32) else c.

Definition lower (s : str) : str := map lower_char s.

Fixpoint lstrip (s : str) : str :=
  match s with
  | c :: r => if isspace c then lstrip r else s
  | [] => []
  end.

Definition rstrip (s : str) : str := rev (lstrip (rev s)).

Definition strip (s : str) : str := rstrip (lstrip s).

(** [s.split(sep)] for a one-character separator: never the empty list. *)
Fixpoint split (sep : ascii) (s : str) : list str :=
  match s with
  | [] => [[]]
  | c :: r =>
      if Ascii.eqb c sep then [] :: split sep r
      else match split sep r with
           | l :: ls => (c :: l) :: ls
           | [] => [[c]]
           end
  end.

Fixpoint startswith (p s : str) : bool :=
  match p, s with
  | [], _ => true
  | a :: p', b :: s' => Ascii.eqb a b && startswith p' s'
  | _ :: _, [] => false
  end.

(** [sub in s] *)
Fixpoint contains (sub s : str) : bool :=
  startswith sub s ||
  match s with
  | [] => false
  | _ :: r => contains sub r
  end.

(** [s.replace(old, new)] for a non-empty [old]: one left-to-right pass
    over non-overlapping occurrences; what the pass has produced is not
    scanned again.  [skip] counts the characters of the current
    occurrence still to drop. *)
Fixpoint replace_from (old new s : str) (skip : nat) : str :=
  match s with
  | [] => []
  | c :: s' =>
      match skip with
      | S j => replace_from old new s' j
      | O =>
          if startswith old s
          then new ++ replace_from old new s' (List.length old - 1)
          else c :: replace_from old new s' 0
      end
  end.

Definition replace (old new s : str) : str := replace_from old new s 0.

(** [s.rsplit(' ', 1)[0]]: what precedes the last space, or all of [s]. *)
Fixpoint before_last_space (s : str) : option str :=
  match s with
  | [] => None
  | c :: r =>
      match before_last_space r with
      | Some p => Some (c :: p)
      | None => if Ascii.eqb c " "%char then Some [] else None
      end
  end.

Definition rsplit1_head (s : str) : str :=
  match before_last_space s with
  | Some p => p
  | None => s
  end.

(** [int(s)] for a capture of [\d+]. Anything that is not a non-empty run
    of digits is a [ValueError] here ([None]).  (An interpreter that caps
    the length of a decimal literal raises [ValueError] on a longer
    capture; the program then moves to the next pattern, as it does for
    the number above 10000 computed here.) *)
Fixpoint int_acc (acc : Z) (s : str) : option Z :=
  match s with
  | [] => Some acc
  | c :: r =>
      if isdigit c
      then int_acc (10 * acc + Z.of_nat (code c - 48)) r
      else None
  end.

Definition int (s : str) : option Z :=
  match s with
  | [] => None
  | _ => int_acc 0%Z s
  end.

Definition digits (n : nat) : str :=
  lit (NilEmpty.string_of_uint (Nat.to_uint n)).

(** [f"{n}"] *)
Definition fmt_d (n : Z) : str :=
  if (n <? 0)%Z then "-"%char :: digits (Z.abs_nat n)
  else digits (Z.abs_nat n).

(** [f"{n:03d}"]: the sign counts in the width, the zeros follow it. *)
Definition fmt_03d (n : Z) : str :=
  let d := digits (Z.abs_nat n) in
  if (n <? 0)%Z then "-"%char :: repeat "0"%char (2 - List.length d) ++ d
  else repeat "0"%char (3 - List.length d) ++ d.

Definition nl : str := ["010"%char].

End Str.

(* ------------------------------------------------------------------ *)
(** ** The fragment of [re] the program uses

    Each pattern of the program is a sequence of quantified one-character
    classes, capture-group brackets and [$]; there is no alternation and no
    quantifier over a group.  The matcher backtracks the way [re] does:
    a greedy quantifier tries one more repetition before it tries the rest
    of the pattern, a lazy one the other way round, and [search] takes the
    leftmost start that matches. *)

Module Re.

Inductive cclass : Type :=
| Any                          (* .   *)
| Space                        (* \s  *)
| Digit                        (* \d  *)
| Chr (c : ascii)
| Union (a b : cclass).        (* [ab] *)

Fixpoint cmatch (k : cclass) (c : ascii) : bool :=
  match k with
  | Any => negb (Ascii.eqb c "010"%char)
  | Space => Str.isspace c
  | Digit => Str.isdigit c
  | Chr d => Ascii.eqb c d
  | Union a b => cmatch a c || cmatch b c
  end.

Inductive node : Type :=
| Rep (k : cclass) (lo : nat) (hi : option nat) (greedy : bool)
| GOpen
| GClose
| Eol.

Definition pattern := list node.

Definition below (hi : option nat) (n : nat) : bool :=
  match hi with
  | Some h => n <? h
  | None => true
  end.

(** A match: the captures in group order and the unread rest. *)
Definition result : Type := list str * str.

Section Repeat.
(** [K] is the rest of the pattern; [cur] the text read since the last
    bracket, newest first; [acc] the closed groups, newest first. *)
Variable K : str -> str -> list str -> option result.
Variables (k : cclass) (lo : nat) (hi : option nat).

Fixpoint rep_greedy (s : str) (n : nat) (cur : str) (acc : list str)
  : option result :=
  match
    match s with
    | c :: s' =>
        if cmatch k c && below hi n
        then rep_greedy s' (S n) (c :: cur) acc
        else None
    | [] => None
    end
  with
  | Some r => Some r
  | None => if lo <=? n then K s cur acc else None
  end.

Fixpoint rep_lazy (s : str) (n : nat) (cur : str) (acc : list str)
  : option result :=
  match (if lo <=? n then K s cur acc else None) with
  | Some r => Some r
  | None =>
      match s with
      | c :: s' =>
          if cmatch k c && below hi n
          then rep_lazy s' (S n) (c :: cur) acc
          else None
      | [] => None
      end
  end.
End Repeat.

(** [$] holds at the end and before a final newline. *)
Definition at_end (s : str) : bool :=
  match s with
  | [] => true
  | [c] => Ascii.eqb c "010"%char
  | _ => false
  end.

Fixpoint run (p : pattern) (s cur : str) (acc : list str) : option result :=
  match p with
  | [] => Some (rev acc, s)
  | GOpen :: p' => run p' s [] acc
  | GClose :: p' => run p' s [] (rev cur :: acc)
  | Eol :: p' => if at_end s then run p' s cur acc else None
  | Rep k lo hi true :: p' => rep_greedy (run p') k lo hi s 0 cur acc
  | Rep k lo hi false :: p' => rep_lazy (run p') k lo hi s 0 cur acc
  end.

(** [re.match(p, s)] *)
Definition match_ (p : pattern) (s : str) : option result := run p s [] [].

(** [re.search(p, s).groups()], or [None] *)
Fixpoint search (p : pattern) (s : str) : option (list str) :=
  match match_ p s with
  | Some (g, _) => Some g
  | None =>
      match s with
      | [] => None
      | _ :: s' => search p s'
      end
  end.

(** [re.sub(p, repl, s)] for a pattern that matches no empty text:
    [skip] counts the characters of the current match still to drop. *)
Fixpoint sub_from (p : pattern) (repl s : str) (skip : nat) : str :=
  match s with
  | [] => []
  | c :: s' =>
      match skip with
      | S j => sub_from p repl s' j
      | O =>
          match match_ p s with
          | Some (_, rest) =>
              match List.length s - List.length rest with
              | O => c :: sub_from p repl s' 0
              | S j => repl ++ sub_from p repl s' j
              end
          | None => c :: sub_from p repl s' 0
          end
      end
  end.

Definition sub (p : pattern) (repl s : str) : str := sub_from p repl s 0.

(** Abbreviations for writing patterns down. *)
Definition plus (k : cclass) : node := Rep k 1 None true.
Definition star (k : cclass) : node := Rep k 0 None true.
Definition opt (k : cclass) : node := Rep k 0 (Some 1) true.
Definition plus_lazy (k : cclass) : node := Rep k 1 None false.
Definition at_least (n : nat) (k : cclass) : node := Rep k n None true.
Definition one (k : cclass) : node := Rep k 1 (Some 1) true.
Definition word (s : string) : pattern := map (fun c => one (Chr c)) (lit s).
Fixpoint any_of (l : list ascii) : cclass :=
  match l with
  | [] => Chr "000"%char
  | [c] => Chr c
  | c :: r => Union (Chr c) (any_of r)
  end.

End Re.

(* ------------------------------------------------------------------ *)
(** ** [pathlib] on a POSIX system *)

Module Pathlib.

(** A pure path: whether it is rooted, and its components.  (The
    two-slash root of POSIX is not told apart from the one-slash root.) *)
Record path : Type := mkpath { absolute : bool; parts : list str }.

Inductive pathlike : Type :=
| S_ (s : str)      (* a [str] *)
| P_ (p : path).    (* already a [Path] *)

Definition dot : str := ["."%char].

Definition str_eqb (a b : str) : bool :=
  if list_eq_dec ascii_dec a b then true else false.

Definition keep (c : str) : bool := negb (str_eqb c [] || str_eqb c dot).

Definition parse (s : str) : path :=
  {| absolute := Str.startswith ["/"%char] s;
     parts := filter keep (Str.split "/"%char s) |}.

(** [Path(x)] *)
Definition Path (x : pathlike) : path :=
  match x with
  | S_ s => parse s
  | P_ p => p
  end.

(** [p / x] *)
Definition joinpath (p : path) (x : pathlike) : path :=
  let q := Path x in
  if absolute q then q
  else {| absolute := absolute p; parts := parts p ++ parts q |}.

Definition parent (p : path) : path :=
  {| absolute := absolute p; parts := removelast (parts p) |}.

Definition name (p : path) : str := last (parts p) [].

(** [s.rfind('.')] *)
Fixpoint rfind_dot (s : str) : option nat :=
  match s with
  | [] => None
  | c :: r =>
      match rfind_dot r with
      | Some i => Some (S i)
      | None => if Ascii.eqb c "."%char then Some 0 else None
      end
  end.

(** [p.stem]: the name without its last suffix; a leading or a final
    dot starts no suffix. *)
Definition stem (p : path) : str :=
  let n := name p in
  match rfind_dot n with
  | Some i => if (0 <? i) && (i <? List.length n - 1) then firstn i n else n
  | None => n
  end.

End Pathlib.

Notation "p // x" := (Pathlib.joinpath p x) (at level 40, left associativity).

(* ------------------------------------------------------------------ *)
(** ** What the program touches outside itself *)

Module Env.
Import Pathlib.

(** A page of the source document; [extract_text] is [None] when the
    library raises on that page. *)
Record Page : Type := mkPage { page_id : nat; extract_text : option str }.

(** What a [PdfWriter] holds when it is written out. *)
Record PdfWriter : Type := mkWriter {
  w_pages : list Page;
  w_outline : list (str * nat);
  w_metadata : list (str * str)
}.

(** The outside world, fixed during a run: which paths exist, what
    [PdfReader] finds there ([None]: it raises), and which output paths
    cannot be written. *)
Record World : Type := mkWorld {
  exists_ : path -> bool;
  PdfReader : path -> option (list Page);
  write_fails : path -> bool
}.

(** What a run leaves behind, oldest first: the [mkdir] calls and the
    files written. *)
Record FS : Type := mkFS {
  dirs : list path;
  files : list (path * PdfWriter)
}.

Definition empty_fs : FS := {| dirs := []; files := [] |}.

Inductive exn : Type :=
| FileNotFoundError
| PdfReadError            (* raised by [PdfReader] itself *)
| Exception_              (* [raise Exception("Error reading PDF: ...")] *)
| ZeroDivisionError
| IndexError
| OSError
| LibraryError.           (* raised by a [PdfWriter] call while assembling *)

Inductive outcome (A : Type) : Type :=
| Ret (a : A)
| Raise (e : exn).
Arguments Ret {A} a.
Arguments Raise {A} e.

(** State (the file system) and exceptions. *)
Definition M (A : Type) : Type := FS -> outcome A * FS.

Definition ret {A} (a : A) : M A := fun fs => (Ret a, fs).
Definition raise {A} (e : exn) : M A := fun fs => (Raise e, fs).
Definition bind {A B} (m : M A) (f : A -> M B) : M B :=
  fun fs =>
    match m fs with
    | (Ret a, fs') => f a fs'
    | (Raise e, fs') => (Raise e, fs')
    end.

(** [try: m  except Exception: h] *)
Definition try_ {A} (m : M A) (h : exn -> M A) : M A :=
  fun fs =>
    match m fs with
    | (Ret a, fs') => (Ret a, fs')
    | (Raise e, fs') => h e fs'
    end.

(** [for x in l: acc = body(x, acc)] *)
Fixpoint for_ {A T} (l : list A) (body : A -> T -> M T) (acc : T) : M T :=
  match l with
  | [] => ret acc
  | x :: r => bind (body x acc) (for_ r body)
  end.

(** [d.mkdir(parents=True, exist_ok=True)] where the directory can be
    created: the call is recorded with its target.  [Disk.mkdir] below is
    the call on a host where it can fail, with the ancestors it creates. *)
Definition mkdir (d : path) : M unit :=
  fun fs => (Ret tt, {| dirs := dirs fs ++ [d]; files := files fs |}).

(** [with open(p, 'wb') as f: writer.write(f)]; nothing is left at [p]
    when it fails. *)
Definition open_write (w : World) (p : path) (doc : PdfWriter) : M unit :=
  fun fs =>
    if write_fails w p then (Raise OSError, fs)
    else (Ret tt, {| dirs := dirs fs; files := files fs ++ [(p, doc)] |}).

Definition lift {A} (o : option A) (e : exn) : M A :=
  match o with
  | Some a => ret a
  | None => raise e
  end.

End Env.

Declare Scope chunker_scope.
Notation "x <- m ;; k" := (Env.bind m (fun x => k))
  (at level 61, m at next level, right associativity) : chunker_scope.
Notation "m ;;; k" := (Env.bind m (fun _ => k))
  (at level 61, right associativity) : chunker_scope.

(* ------------------------------------------------------------------ *)
(** ** [class PDFChunker] and [main] *)

Module PDFChunker.
Import Pathlib Env Re.
Local Open Scope chunker_scope.

Definition TocEntry : Type := (str * Z)%type.

Definition page (e : TocEntry) : Z := snd e.

(** [self.toc_patterns], in the order of the source. *)
Definition title_page_tail : pattern :=
  [plus Space; GOpen; plus_lazy Any; GClose;
   plus Space; GOpen; plus Digit; GClose].

Definition toc_patterns : list pattern :=
  [ (* (.+?)\s+\.{2,}\s*(\d+) *)
    [GOpen; plus_lazy Any; GClose; plus Space; at_least 2 (Chr ".");
     star Space; GOpen; plus Digit; GClose];
    (* (.+?)\s+(\d+)$ *)
    [GOpen; plus_lazy Any; GClose; plus Space;
     GOpen; plus Digit; GClose; Eol];
    (* (\d+\.?\d* )\s+(.+?)\s+(\d+) *)
    [GOpen; plus Digit; opt (Chr "."); star Digit; GClose]
      ++ title_page_tail;
    (* Chapter\s+(\d+)[:\s]+(.+?)\s+(\d+) *)
    word "Chapter"
      ++ [plus Space; GOpen; plus Digit; GClose;
          plus (Union (Chr ":") Space); GOpen; plus_lazy Any; GClose;
          plus Space; GOpen; plus Digit; GClose];
    (* (\d+\.\d+)\s+(.+?)\s+(\d+) *)
    [GOpen; plus Digit; one (Chr "."); plus Digit; GClose]
      ++ title_page_tail ].

Definition toc_indicators : list str :=
  [lit "table of contents"; lit "contents"; lit "index"; lit "chapter"].

(** [1 <= page_num <= 10000] *)
Definition reasonable (n : Z) : bool := ((1 <=? n) && (n <=? 10000))%Z.

(** One turn of [for pattern in self.toc_patterns] (lines 57-78):
    [Some e] is [toc_entries.append(e); break]; [None] is every way of
    reaching the next pattern (no match, the page test failing, or
    [ValueError] and [continue]). *)
Definition try_pattern (p : pattern) (line : str) : option TocEntry :=
  match search p line with
  | Some [title; pg] =>
      match Str.int pg with
      | Some page_num =>
          if reasonable page_num then Some (Str.strip title, page_num)
          else None
      | None => None
      end
  | Some [num; title; pg] =>
      match Str.int pg with
      | Some page_num =>
          if reasonable page_num
          then Some (Str.strip (num ++ lit " " ++ title), page_num)
          else None
      | None => None
      end
  | _ => None
  end.

(** The whole inner loop over the patterns, for one line. *)
Fixpoint try_patterns (ps : list pattern) (line : str) : option TocEntry :=
  match ps with
  | [] => None
  | p :: ps' =>
      match try_pattern p line with
      | Some e => Some e
      | None => try_patterns ps' line
      end
  end.

(** The body of [for line in lines] (lines 52-78). *)
Definition scan_line (raw : str) : option TocEntry :=
  let line := Str.strip raw in
  if (List.length line <? 5)%nat then None
  else try_patterns toc_patterns line.

Definition entry_eqb (a b : TocEntry) : bool :=
  str_eqb (fst a) (fst b) && (snd a =? snd b)%Z.

(** Lines 81-86: keep the first of equal pairs. *)
Fixpoint unique_entries (seen : list TocEntry) (l : list TocEntry)
  : list TocEntry :=
  match l with
  | [] => []
  | e :: r =>
      if existsb (entry_eqb e) seen then unique_entries seen r
      else e :: unique_entries (e :: seen) r
  end.

(** [sorted(l, key=lambda x: x[1])]: the stable sort on the page. *)
Fixpoint insert_entry (e : TocEntry) (l : list TocEntry) : list TocEntry :=
  match l with
  | [] => [e]
  | h :: t =>
      if (page e <=? page h)%Z then e :: l else h :: insert_entry e t
  end.

Definition sorted (l : list TocEntry) : list TocEntry :=
  fold_right insert_entry [] l.

Fixpoint filter_map {A B} (f : A -> option B) (l : list A) : list B :=
  match l with
  | [] => []
  | x :: r =>
      match f x with
      | Some y => y :: filter_map f r
      | None => filter_map f r
      end
  end.

Definition extract_toc_from_text (text : str) : list TocEntry :=
  let toc_entries := filter_map scan_line (Str.split "010"%char text) in
  sorted (unique_entries [] toc_entries).

(** [reader.pages[i]] with Python's indexing. *)
Definition pages_get (pages : list Page) (i : Z) : option Page :=
  let len := Z.of_nat (List.length pages) in
  if (i <? 0)%Z
  then (if (len + i <? 0)%Z then None
        else nth_error pages (Z.to_nat (len + i)))
  else nth_error pages (Z.to_nat i).

(** The body of the loop of lines 107-113. *)
Definition add_page_text (pages : list Page) (toc_text : str)
    (page_num : nat) : str :=
  match pages_get pages (Z.of_nat page_num) with
  | Some pg =>
      match extract_text pg with
      | Some page_text =>
          toc_text ++ Str.nl ++ lit "--- Page "
            ++ Str.fmt_d (Z.of_nat page_num + 1) ++ lit " ---" ++ Str.nl
            ++ page_text ++ Str.nl
      | None => toc_text
      end
  | None => toc_text
  end.

Definition scanned_text (pages : list Page) (max_pages : nat) : str :=
  let search_pages := Nat.min max_pages (List.length pages) in
  fold_left (add_page_text pages) (seq 0 search_pages) [].

Definition toc_found (toc_text : str) : bool :=
  existsb (fun indicator => Str.contains indicator (Str.lower toc_text))
          toc_indicators.

(** The characters of the class in line 136; ["034"] is the double quote. *)
Definition invalid_chars : list ascii :=
  lit "<>:" ++ ["034"%char] ++ lit "/\|?*".

Definition sanitize_filename (title : str) (max_length : nat) : str :=
  let safe_title := sub [one (any_of invalid_chars)] (lit "_") title in
  let safe_title := Str.strip (sub [plus Space] (lit " ") safe_title) in
  let safe_title := Str.replace (lit "..") (lit ".") safe_title in
  if (max_length <? List.length safe_title)%nat
  then Str.rsplit1_head (firstn max_length safe_title)
  else safe_title.

(** [range(a, b)] *)
Definition range (a b : Z) : list Z :=
  map (fun k => (a + Z.of_nat k)%Z) (seq 0 (Z.to_nat (b - a))).

(** [for page_num in range(a, b): writer.add_page(reader.pages[page_num])];
    [None] when an index is out of range. *)
Fixpoint add_pages (pages : list Page) (idx : list Z) : option (list Page) :=
  match idx with
  | [] => Some []
  | i :: r =>
      match pages_get pages i with
      | Some pg => option_map (cons pg) (add_pages pages r)
      | None => None
      end
  end.

Definition creator : str := lit "PDF Chapter Chunker v2.0".
Definition producer : str := lit "PDF Chapter Chunker".

Definition metadata (title subject : str) : list (str * str) :=
  [(lit "/Title", title); (lit "/Subject", subject);
   (lit "/Creator", creator); (lit "/Producer", producer)].

(** The [ChunkRange] of the data model: the 1-based number used in the
    file name and in the metadata, the title, and the 0-based end-exclusive
    page range. *)
Record ChunkRange : Type := mkChunk {
  index : Z;
  title : str;
  startPage : Z;
  endPage : Z
}.

(** Lines 198-202 for the entry at index [i]. *)
Definition end_page (toc_entries : list TocEntry) (total_pages : Z)
    (i : nat) : Z :=
  match nth_error toc_entries (i + 1) with
  | Some next => (page next - 1)%Z
  | None => total_pages
  end.

Fixpoint enumerate_from {A} (i : nat) (l : list A) : list (nat * A) :=
  match l with
  | [] => []
  | x :: r => (i, x) :: enumerate_from (S i) r
  end.

Definition enumerate {A} (l : list A) : list (nat * A) := enumerate_from 0 l.

(** Lines 196-208: the range of one entry, [None] where the loop says
    [continue]. *)
Definition chapter_range (toc_entries : list TocEntry) (total_pages : Z)
    (it : nat * TocEntry) : option ChunkRange :=
  let '(i, (chapter_title, start_page)) := it in
  let end_page := end_page toc_entries total_pages i in
  let start_page_idx := Z.max 0 (start_page - 1) in
  let end_page_idx := Z.min total_pages end_page in
  if (start_page_idx >=? end_page_idx)%Z then None
  else Some {| index := Z.of_nat i + 1; title := chapter_title;
               startPage := start_page_idx; endPage := end_page_idx |}.

(** The ranges the chapter loop goes on with, in its order. *)
Definition chapter_plan (toc_entries : list TocEntry) (total_pages : Z)
  : list ChunkRange :=
  filter_map (chapter_range toc_entries total_pages) (enumerate toc_entries).

(** Line 285 *)
Definition num_chunks (total_pages chunk_size : Z) : Z :=
  ((total_pages + chunk_size - 1) / chunk_size)%Z.

(** Lines 292-293 and 303. *)
Definition page_range (total_pages chunk_size : Z) (chunk_num : Z)
  : ChunkRange :=
  let start_page := (chunk_num * chunk_size)%Z in
  let end_page := Z.min (start_page + chunk_size) total_pages in
  {| index := chunk_num + 1;
     title := lit "Chunk " ++ Str.fmt_03d (chunk_num + 1) ++ lit " (Pages "
                ++ Str.fmt_d (start_page + 1) ++ lit "-"
                ++ Str.fmt_d end_page ++ lit ")";
     startPage := start_page; endPage := end_page |}.

(** The ranges the page loop goes through, for a non-zero [chunk_size]. *)
Definition page_plan (total_pages chunk_size : Z) : list ChunkRange :=
  map (page_range total_pages chunk_size)
      (range 0 (num_chunks total_pages chunk_size)).

(** Lines 211-233: the writer of a chapter and where it goes; [None] when
    a page index is out of range. *)
Definition chapter_file (pages : list Page) (output_dir : path)
    (base_name : str) (c : ChunkRange) : option (path * PdfWriter) :=
  match add_pages pages (range (startPage c) (endPage c)) with
  | None => None
  | Some added =>
      let safe_title := sanitize_filename (title c) 50 in
      let writer :=
        {| w_pages := added;
           w_outline := [(title c, 0%nat)];
           w_metadata :=
             metadata (base_name ++ lit " - " ++ title c)
                      (lit "Chapter " ++ Str.fmt_d (index c) ++ lit ": "
                         ++ title c) |} in
      let output_filename :=
        Str.fmt_03d (index c) ++ lit "_" ++ safe_title ++ lit ".pdf" in
      Some (output_dir // S_ output_filename, writer)
  end.

(** Lines 296-316, the same for a page chunk. *)
Definition page_file (pages : list Page) (output_dir : path)
    (base_name : str) (num_chunks : Z) (c : ChunkRange)
  : option (path * PdfWriter) :=
  match add_pages pages (range (startPage c) (endPage c)) with
  | None => None
  | Some added =>
      let writer :=
        {| w_pages := added;
           w_outline := [(title c, 0%nat)];
           w_metadata :=
             metadata (base_name ++ lit " - " ++ title c)
                      (lit "PDF chunk " ++ Str.fmt_d (index c) ++ lit " of "
                         ++ Str.fmt_d num_chunks) |} in
      let output_filename :=
        base_name ++ lit "_chunk_" ++ Str.fmt_03d (index c) ++ lit ".pdf" in
      Some (output_dir // S_ output_filename, writer)
  end.

Inductive Mode : Type := chapters | pages_.

(** What [argparse] hands to [main]. *)
Record Args : Type := mkArgs {
  input_pdf : str;
  mode : Mode;
  output : option str;
  size : Z;
  quiet : bool
}.

(** The exit status, and the count in the closing message when there is
    one. *)
Record Exit : Type := mkExit { status : Z; reported : option nat }.

Section Run.
Variable w : World.

Definition extract_toc_from_pdf (pdf_path : path) (max_pages : nat)
  : M (list TocEntry) :=
  pages <- lift (PdfReader w pdf_path) PdfReadError ;;
  let toc_text := scanned_text pages max_pages in
  if negb (toc_found toc_text) then ret []
  else ret (extract_toc_from_text toc_text).

(** Assembling is outside the [try], writing inside it (lines 236-246 and
    319-328): a failed write keeps [chunks_created] as it was. *)
Definition write_chunk (file : option (path * PdfWriter))
    (chunks_created : list path) : M (list path) :=
  out <- lift file IndexError ;;
  try_ (open_write w (fst out) (snd out) ;;;
        ret (chunks_created ++ [fst out]))
       (fun _ => ret chunks_created).

(** The body of the loop of lines 291-328. *)
Definition pages_body (pages : list Page) (output_dir : path)
    (base_name : str) (chunk_size : Z) (chunk_num : Z)
    (chunks_created : list path) : M (list path) :=
  let total_pages := Z.of_nat (List.length pages) in
  write_chunk
    (page_file pages output_dir base_name (num_chunks total_pages chunk_size)
               (page_range total_pages chunk_size chunk_num))
    chunks_created.

Definition split_by_pages (input_path : pathlike)
    (output_dir : option pathlike) (chunk_size : Z) : M (list path) :=
  let input_path := Path input_path in
  if negb (exists_ w input_path) then raise FileNotFoundError else
  let output_dir :=
    match output_dir with
    | None => parent input_path // S_ (stem input_path ++ lit "_pages")
    | Some d => Path d
    end in
  mkdir output_dir ;;;
  pages <- lift (PdfReader w input_path) Exception_ ;;
  let total_pages := Z.of_nat (List.length pages) in
  if (chunk_size =? 0)%Z then raise ZeroDivisionError else
  for_ (range 0 (num_chunks total_pages chunk_size))
       (pages_body pages output_dir (stem input_path) chunk_size)
       [].

(** The body of the loop of lines 196-246. *)
Definition chapters_body (pages : list Page) (output_dir : path)
    (base_name : str) (toc_entries : list TocEntry)
    (it : nat * TocEntry) (chunks_created : list path) : M (list path) :=
  let total_pages := Z.of_nat (List.length pages) in
  match chapter_range toc_entries total_pages it with
  | None => ret chunks_created
  | Some c =>
      write_chunk (chapter_file pages output_dir base_name c) chunks_created
  end.

Definition split_by_chapters (input_path : pathlike)
    (output_dir : option pathlike) : M (list path) :=
  let input_path := Path input_path in
  if negb (exists_ w input_path) then raise FileNotFoundError else
  let output_dir :=
    match output_dir with
    | None => parent input_path // S_ (stem input_path ++ lit "_chapters")
    | Some d => Path d // S_ (stem input_path ++ lit "_chapters")
    end in
  mkdir output_dir ;;;
  pages <- lift (PdfReader w input_path) Exception_ ;;
  toc_entries <- extract_toc_from_pdf input_path 25 ;;
  match toc_entries with
  | [] => split_by_pages (P_ input_path) (Some (P_ output_dir)) 99
  | _ =>
      for_ (enumerate toc_entries)
           (chapters_body pages output_dir (stem input_path) toc_entries)
           []
  end.

Definition main (args : Args) : FS -> Exit * FS :=
  fun fs =>
    let out := option_map S_ (output args) in
    let run :=
      match mode args with
      | chapters => split_by_chapters (S_ (input_pdf args)) out
      | pages_ => split_by_pages (S_ (input_pdf args)) out (size args)
      end in
    match run fs with
    | (Ret chunks, fs') =>
        ({| status := 0;
            reported := if quiet args then None
                        else Some (List.length chunks) |}, fs')
    | (Raise _, fs') => ({| status := 1; reported := None |}, fs')
    end.

End Run.

End PDFChunker.

(* ------------------------------------------------------------------ *)
(** ** The two flows and [main] on a host where more can go wrong

    In [PDFChunker] above every [mkdir] succeeds and no [PdfWriter] call
    raises.  Neither call is inside a [try] of the source (lines 167 and
    274; lines 211-229 and 296-312), so on a real host either can end the
    run.  The definitions of this module are the same lines of the source
    with these two failures, and with the ancestors that
    [mkdir(parents=True)] creates on the way to its target. *)

Module Disk.
Import Pathlib Env PDFChunker.
Local Open Scope chunker_scope.

Record Host : Type := mkHost {
  world : World;
  (* [d.mkdir(parents=True, exist_ok=True)] raises for this [d] *)
  mkdir_fails : path -> bool;
  (* a [PdfWriter] call raises while the document that is to go to this
     path is put together *)
  assemble_fails : path -> bool
}.

(** The directories above [d], outermost first; the root and the current
    directory, which are always there, are left out. *)
Definition ancestors (d : path) : list path :=
  map (fun n => {| absolute := absolute d; parts := firstn n (parts d) |})
      (seq 1 (List.length (parts d) - 1)).

(** The directories that are there after [d.mkdir(parents=True,
    exist_ok=True)] has returned. *)
Definition ensured (d : path) : list path := ancestors d ++ [d].

(** [d.mkdir(parents=True, exist_ok=True)] *)
Definition mkdir (h : Host) (d : path) : M unit :=
  fun fs =>
    if mkdir_fails h d then (Raise OSError, fs)
    else (Ret tt, {| dirs := dirs fs ++ ensured d; files := files fs |}).

Section Run.
Variable h : Host.

(** Assembling is outside the [try], writing inside it (lines 211-246 and
    296-328). *)
Definition write_chunk (file : option (path * PdfWriter))
    (chunks_created : list path) : M (list path) :=
  out <- lift file IndexError ;;
  if assemble_fails h (fst out) then raise LibraryError else
  try_ (open_write (world h) (fst out) (snd out) ;;;
        ret (chunks_created ++ [fst out]))
       (fun _ => ret chunks_created).

(** The body of the loop of lines 291-328. *)
Definition pages_body (pages : list Page) (output_dir : path)
    (base_name : str) (chunk_size : Z) (chunk_num : Z)
    (chunks_created : list path) : M (list path) :=
  let total_pages := Z.of_nat (List.length pages) in
  write_chunk
    (page_file pages output_dir base_name (num_chunks total_pages chunk_size)
               (page_range total_pages chunk_size chunk_num))
    chunks_created.

Definition split_by_pages (input_path : pathlike)
    (output_dir : option pathlike) (chunk_size : Z) : M (list path) :=
  let input_path := Path input_path in
  if negb (exists_ (world h) input_path) then raise FileNotFoundError else
  let output_dir :=
    match output_dir with
    | None => parent input_path // S_ (stem input_path ++ lit "_pages")
    | Some d => Path d
    end in
  mkdir h output_dir ;;;
  pages <- lift (PdfReader (world h) input_path) Exception_ ;;
  let total_pages := Z.of_nat (List.length pages) in
  if (chunk_size =? 0)%Z then raise ZeroDivisionError else
  for_ (range 0 (num_chunks total_pages chunk_size))
       (pages_body pages output_dir (stem input_path) chunk_size)
       [].

(** The body of the loop of lines 196-246. *)
Definition chapters_body (pages : list Page) (output_dir : path)
    (base_name : str) (toc_entries : list TocEntry)
    (it : nat * TocEntry) (chunks_created : list path) : M (list path) :=
  let total_pages := Z.of_nat (List.length pages) in
  match chapter_range toc_entries total_pages it with
  | None => ret chunks_created
  | Some c =>
      write_chunk (chapter_file pages output_dir base_name c) chunks_created
  end.

Definition split_by_chapters (input_path : pathlike)
    (output_dir : option pathlike) : M (list path) :=
  let input_path := Path input_path in
  if negb (exists_ (world h) input_path) then raise FileNotFoundError else
  let output_dir :=
    match output_dir with
    | None => parent input_path // S_ (stem input_path ++ lit "_chapters")
    | Some d => Path d // S_ (stem input_path ++ lit "_chapters")
    end in
  mkdir h output_dir ;;;
  pages <- lift (PdfReader (world h) input_path) Exception_ ;;
  toc_entries <- extract_toc_from_pdf (world h) input_path 25 ;;
  match toc_entries with
  | [] => split_by_pages (P_ input_path) (Some (P_ output_dir)) 99
  | _ =>
      for_ (enumerate toc_entries)
           (chapters_body pages output_dir (stem input_path) toc_entries)
           []
  end.

Definition main (args : Args) : FS -> Exit * FS :=
  fun fs =>
    let out := option_map S_ (output args) in
    let run :=
      match mode args with
      | chapters => split_by_chapters (S_ (input_pdf args)) out
      | pages_ => split_by_pages (S_ (input_pdf args)) out (size args)
      end in
    match run fs with
    | (Ret chunks, fs') =>
        ({| status := 0;
            reported := if quiet args then None
                        else Some (List.length chunks) |}, fs')
    | (Raise _, fs') => ({| status := 1; reported := None |}, fs')
    end.

End Run.

(** A host on which neither of the two failures happens: there the flows
    above are those of [PDFChunker]. *)
Definition calm (w : World) : Host :=
  {| world := w;
     mkdir_fails := fun _ => false;
     assemble_fails := fun _ => false |}.

End Disk.

(* ------------------------------------------------------------------ *)
(** ** The planner as the specification words it

    Section 4.3 describes TOC-driven planning entry by entry, each entry
    looking at its successor; these definitions follow that wording and are
    compared with the index-driven loop of the source below. *)

Module Spec.
Import PDFChunker.

Definition endPageRaw (rest : list TocEntry) (totalPages : Z) : Z :=
  match rest with
  | next :: _ => (page next - 1)%Z
  | [] => totalPages
  end.

Fixpoint toc_ranges (entries : list TocEntry) (totalPages : Z)
  : list (Z * Z) :=
  match entries with
  | [] => []
  | entry :: rest =>
      let startIdx := Z.max 0 (page entry - 1) in
      let endIdx := Z.min totalPages (endPageRaw rest totalPages) in
      if (startIdx <? endIdx)%Z
      then (startIdx, endIdx) :: toc_ranges rest totalPages
      else toc_ranges rest totalPages
  end.

(** Chunk [k] of fixed-size planning. *)
Definition fixed_range (totalPages S k : Z) : Z * Z :=
  ((k * S)%Z, Z.min ((k + 1) * S) totalPages).

End Spec.

(** The chapter loop unrolled along the list: the entry at position [i],
    then the rest from position [i + 1]. *)
Fixpoint plan_from (i : nat) (l : list PDFChunker.TocEntry) (total : Z)
  : list PDFChunker.ChunkRange :=
  match l with
  | [] => []
  | e :: rest =>
      let s := Z.max 0 (PDFChunker.page e - 1) in
      let t := Z.min total (Spec.endPageRaw rest total) in
      if (s >=? t)%Z then plan_from (S i) rest total
      else PDFChunker.mkChunk (Z.of_nat i + 1) (fst e) s t
             :: plan_from (S i) rest total
  end.

Definition span (c : PDFChunker.ChunkRange) : Z * Z :=
  (PDFChunker.startPage c, PDFChunker.endPage c).

Definition pages_in (c : PDFChunker.ChunkRange) : Z :=
  (PDFChunker.endPage c - PDFChunker.startPage c)%Z.

(** Each range ends where the next one starts. *)
Fixpoint contiguous (l : list PDFChunker.ChunkRange) : Prop :=
  match l with
  | a :: (b :: _) as r =>
      PDFChunker.endPage a = PDFChunker.startPage b /\ contiguous r
  | _ => True
  end.

(** No range reaches into a later one. *)
Definition non_overlapping (l : list PDFChunker.ChunkRange) : Prop :=
  ForallOrdPairs
    (fun a b => (PDFChunker.endPage a <= PDFChunker.startPage b)%Z) l.

(** The numbers of the chunks are 1, 2, ..., k. *)
Definition numbered_from_one (plan : list PDFChunker.ChunkRange) : Prop :=
  map PDFChunker.index plan
  = map (fun k => (Z.of_nat k + 1)%Z) (seq 0 (List.length plan)).

Definition well_formed (total : Z) (c : PDFChunker.ChunkRange) : Prop :=
  (PDFChunker.startPage c < PDFChunker.endPage c)%Z
  /\ (PDFChunker.endPage c <= total)%Z.

Definition by_page (a b : PDFChunker.TocEntry) : Prop :=
  (PDFChunker.page a <= PDFChunker.page b)%Z.

(** The page a match proposes: its last capture, read as a number. *)
Definition page_of (groups : list str) : option Z :=
  match groups with
  | [_; pg] => Str.int pg
  | [_; _; pg] => Str.int pg
  | _ => None
  end.

(** The files of a list that can be written in world [w]. *)
Definition kept (w : Env.World) (l : list (Pathlib.path * Env.PdfWriter))
  : list (Pathlib.path * Env.PdfWriter) :=
  filter (fun f => negb (Env.write_fails w (fst f))) l.

(** What [extract_toc_from_pdf] returns for a document that opens. *)
Definition detected_toc (pages : list Env.Page) : list PDFChunker.TocEntry :=
  let toc_text := PDFChunker.scanned_text pages 25 in
  if PDFChunker.toc_found toc_text
  then PDFChunker.extract_toc_from_text toc_text
  else [].

Definition total_pages (pages : list Env.Page) : Z :=
  Z.of_nat (List.length pages).

(** The documents the chapter loop assembles, in its order. *)
Definition chapter_files (pages : list Env.Page) (output_dir : Pathlib.path)
    (base_name : str) (toc : list PDFChunker.TocEntry)
  : list (Pathlib.path * Env.PdfWriter) :=
  PDFChunker.filter_map
    (PDFChunker.chapter_file pages output_dir base_name)
    (PDFChunker.chapter_plan toc (total_pages pages)).

(** The documents the page loop assembles, in its order. *)
Definition page_files (pages : list Env.Page) (output_dir : Pathlib.path)
    (base_name : str) (chunk_size : Z)
  : list (Pathlib.path * Env.PdfWriter) :=
  PDFChunker.filter_map
    (PDFChunker.page_file pages output_dir base_name
       (PDFChunker.num_chunks (total_pages pages) chunk_size))
    (PDFChunker.page_plan (total_pages pages) chunk_size).

(** The directory each flow announces for an input and an [--output]. *)
Definition chapters_dir (input : Pathlib.path) (output : option str)
  : Pathlib.path :=
  match output with
  | None => Pathlib.parent input
  | Some d => Pathlib.parse d
  end // Pathlib.S_ (Pathlib.stem input ++ lit "_chapters").

Definition pages_dir (input : Pathlib.path) (output : option str)
  : Pathlib.path :=
  match output with
  | None =>
      Pathlib.parent input // Pathlib.S_ (Pathlib.stem input ++ lit "_pages")
  | Some d => Pathlib.parse d
  end.

(** The documents a run of [main] assembles once the source has opened. *)
Definition planned_files (pages : list Env.Page) (args : PDFChunker.Args)
  : list (Pathlib.path * Env.PdfWriter) :=
  let input := Pathlib.parse (PDFChunker.input_pdf args) in
  let base := Pathlib.stem input in
  match PDFChunker.mode args with
  | PDFChunker.chapters =>
      let dir := chapters_dir input (PDFChunker.output args) in
      match detected_toc pages with
      | [] => page_files pages dir base 99
      | toc => chapter_files pages dir base toc
      end
  | PDFChunker.pages_ =>
      page_files pages (pages_dir input (PDFChunker.output args)) base
                 (PDFChunker.size args)
  end.

(** The [mkdir] calls of such a run: the fallback repeats the one of the
    chapter flow. *)
Definition made_dirs (pages : list Env.Page) (args : PDFChunker.Args)
  : list Pathlib.path :=
  let input := Pathlib.parse (PDFChunker.input_pdf args) in
  match PDFChunker.mode args with
  | PDFChunker.chapters =>
      let dir := chapters_dir input (PDFChunker.output args) in
      match detected_toc pages with
      | [] => [dir; dir]
      | _ => [dir]
      end
  | PDFChunker.pages_ => [pages_dir input (PDFChunker.output args)]
  end.


(** The file system after more [mkdir] calls and more files. *)
Definition after (fs : Env.FS) (new_dirs : list Pathlib.path)
    (new_files : list (Pathlib.path * Env.PdfWriter)) : Env.FS :=
  {| Env.dirs := Env.dirs fs ++ new_dirs;
     Env.files := Env.files fs ++ new_files |}.

(** Text with no slash in it, and text that names one path component. *)
Definition no_slash (s : str) : Prop := Forall (fun c => c <> "/"%char) s.

Definition component (s : str) : Prop :=
  no_slash s /\ s <> [] /\ s <> Pathlib.dot.

(* ------------------------------------------------------------------ *)
(** ** Concrete documents and runs used in the examples below *)

Module Examples.
Import Pathlib Env PDFChunker.

Definition lines (l : list string) : str :=
  List.concat (map (fun s => lit s ++ Str.nl) l).

Definition blank (n : nat) : Page :=
  {| page_id := n; extract_text := Some [] |}.

(** Five pages; the first is a contents page listing two chapters that
    both start on page 1. *)
Definition two_chapters_on_page_1 : list Page :=
  {| page_id := 0;
     extract_text :=
       Some (lines ["Contents"; "A ..... 1"; "B ..... 1"]%string) |}
    :: map blank [1; 2; 3; 4]%nat.

(** Five pages without any text. *)
Definition no_contents : list Page := map blank [0; 1; 2; 3; 4]%nat.

(** Every path exists, every path holds [doc], every write succeeds. *)
Definition holding (doc : list Page) : World :=
  {| exists_ := fun _ => true;
     PdfReader := fun _ => Some doc;
     write_fails := fun _ => false |}.

Definition book_pdf : str := lit "book.pdf".

Definition args_chapters : Args :=
  {| input_pdf := book_pdf; mode := chapters; output := Some (lit "out");
     size := 99; quiet := false |}.

Definition args_pages : Args :=
  {| input_pdf := book_pdf; mode := pages_; output := Some (lit "out");
     size := 99; quiet := false |}.

Definition written (r : Exit * FS) : list path := map fst (files (snd r)).




Definition args_pages_of_minus_3 : Args :=
  {| input_pdf := book_pdf; mode := pages_; output := Some (lit "out");
     size := -3; quiet := false |}.

(** A line whose dot leader is followed by two numbers. *)
Definition sales_line : str := lit "Sales .... 20000 7".

(** The title of the sanitizer example of the specification;
    ["034"] is the double quote. *)
Definition great_chapter : str :=
  lit "A/B: The " ++ ["034"%char] ++ lit "Great" ++ ["034"%char]
    ++ lit " Chapter?? ..........".

End Examples.

(* ------------------------------------------------------------------ *)
(** ** Further notions the properties are stated with *)

(** The entries the scan accepts, line after line, before duplicates are
    removed and the list is sorted (the [toc_entries] of lines 48-78). *)
Definition scanned_entries (text : str) : list PDFChunker.TocEntry :=
  PDFChunker.filter_map PDFChunker.scan_line (Str.split "010"%char text).

Definition on_page (p : Z) (e : PDFChunker.TocEntry) : bool :=
  (PDFChunker.page e =? p)%Z.

(** Text that [strip] leaves alone: no white space at either end. *)
Definition trimmed (s : str) : Prop :=
  Str.lstrip s = s /\ Str.lstrip (rev s) = rev s.

Definition is_space (c : ascii) : Prop := Str.isspace c = true.
Definition is_digit (c : ascii) : Prop := Str.isdigit c = true.

(** A node that cannot match without reading a character of class [k]. *)
Definition demands (k : Re.cclass) (nd : Re.node) : Prop :=
  match nd with
  | Re.Rep k' lo _ _ => k' = k /\ (1 <= lo)%nat
  | _ => False
  end.

(** Text at which a run of class [k] ends. *)
Definition stops (k : Re.cclass) (s : str) : Prop :=
  match s with
  | [] => True
  | c :: _ => Re.cmatch k c = false
  end.

(** Title, white space, a leader of [n] periods, optional white space and
    the page digits. *)
Definition dot_leader_line (title sp : str) (n : nat) (sp2 ds : str) : str :=
  title ++ sp ++ repeat "."%char n ++ sp2 ++ ds.

(** The title after lines 136-139, before its length is looked at. *)
Definition cleaned (title : str) : str :=
  Str.replace (lit "..") (lit ".")
    (Str.strip
       (Re.sub [Re.plus Re.Space] (lit " ")
          (Re.sub [Re.one (Re.any_of PDFChunker.invalid_chars)] (lit "_")
             title))).

(** Every white-space character is a plain space with a character that is
    not white space after it. *)
Fixpoint single_spaced (s : str) : Prop :=
  match s with
  | [] => True
  | c :: r =>
      (Str.isspace c = true ->
       c = " "%char
       /\ match r with
          | [] => False
          | d :: _ => Str.isspace d = false
          end)
      /\ single_spaced r
  end.

(** [s[a:b]] for [0 <= a <= b]. *)
Definition slice {A} (l : list A) (a b : Z) : list A :=
  firstn (Z.to_nat (b - a)) (skipn (Z.to_nat a) l).

(** A range that lies in a document of [total] pages. *)
Definition inside (total : Z) (c : PDFChunker.ChunkRange) : Prop :=
  (0 <= PDFChunker.startPage c < PDFChunker.endPage c)%Z
  /\ (PDFChunker.endPage c <= total)%Z.

Definition no_range : PDFChunker.ChunkRange :=
  PDFChunker.mkChunk 0 [] 0 0.

(** The pages of the documents a run wrote, one after the other. *)
Definition pages_written (files : list (Pathlib.path * Env.PdfWriter))
  : list Env.Page :=
  List.concat (map (fun f => Env.w_pages (snd f)) files).

(** The same letter, the first in either case (the letters A-Z). *)
Definition same_letter (c d : ascii) : Prop :=
  c = d
  \/ ((65 <= Str.code c <= 90)%nat /\ Str.code d = (Str.code c + 32)%nat).

(** [word] stands somewhere in [text], each letter in either case. *)
Definition occurs_in_any_case (word text : str) : Prop :=
  exists a x b, text = a ++ x ++ b /\ Forall2 same_letter x word.

(** A character that [lower] leaves alone and that is not the lower-case
    form of a letter beyond ASCII. *)
Definition plain (d : ascii) : Prop :=
  ((Str.code d < 65)%nat \/ (90 < Str.code d)%nat)
  /\ (Str.code d < 192)%nat.

(** The documents of a list that are put together before a library call
    raises: those in front of the first one for which it does. *)
Fixpoint assembled (h : Disk.Host) (l : list (Pathlib.path * Env.PdfWriter))
  : list (Pathlib.path * Env.PdfWriter) :=
  match l with
  | [] => []
  | f :: r =>
      if Disk.assemble_fails h (fst f) then [] else f :: assembled h r
  end.

Definition assembles_all (h : Disk.Host)
    (l : list (Pathlib.path * Env.PdfWriter)) : bool :=
  forallb (fun f => negb (Disk.assemble_fails h (fst f))) l.

(** How a loop over the documents [l] ends. *)
Definition loop_outcome (h : Disk.Host)
    (l : list (Pathlib.path * Env.PdfWriter))
  : Env.outcome (list Pathlib.path) :=
  if assembles_all h l
  then Env.Ret (map fst (kept (Disk.world h) l))
  else Env.Raise Env.LibraryError.

(** The directory [main] asks [mkdir] for. *)
Definition target_dir (args : PDFChunker.Args) : Pathlib.path :=
  match PDFChunker.mode args with
  | PDFChunker.chapters =>
      chapters_dir (Pathlib.parse (PDFChunker.input_pdf args))
                   (PDFChunker.output args)
  | PDFChunker.pages_ =>
      pages_dir (Pathlib.parse (PDFChunker.input_pdf args))
                (PDFChunker.output args)
  end.


(** The directories a completed run of [Disk.main] leaves after its
    [mkdir] calls: the fallback repeats the one of the chapter flow. *)
Definition ensured_dirs (pages : list Env.Page) (args : PDFChunker.Args)
  : list Pathlib.path :=
  List.concat (map Disk.ensured (made_dirs pages args)).

(* ------------------------------------------------------------------ *)
(** * Properties *)

Import Pathlib Env PDFChunker.
Local Open Scope Z_scope.
Unset Implicit Arguments.

(** ** Lists, ranges and page lookups *)

Lemma length_range a b : List.length (range a b) = Z.to_nat (b - a).
Proof. unfold range. now rewrite length_map, length_seq. Qed.

Lemma nth_error_range a b k :
  (k < Z.to_nat (b - a))%nat -> nth_error (range a b) k = Some (a + Z.of_nat k).
Proof.
  intros Hk. unfold range.
  rewrite nth_error_map, nth_error_seq.
  destruct (Nat.ltb_spec k (Z.to_nat (b - a))); [reflexivity | lia].
Qed.

Lemma In_range a b x : In x (range a b) <-> a <= x < b.
Proof.
  unfold range. rewrite in_map_iff. split.
  - intros (k & <- & Hk). apply in_seq in Hk. lia.
  - intros H. exists (Z.to_nat (x - a)). split; [lia |].
    apply in_seq. lia.
Qed.

Lemma range_empty a b : b <= a -> range a b = [].
Proof.
  intros H. unfold range. replace (Z.to_nat (b - a)) with 0%nat by lia.
  reflexivity.
Qed.

Lemma filter_map_none {A B} (f : A -> option B) (l : list A) :
  Forall (fun x => f x = None) l -> filter_map f l = [].
Proof.
  induction 1 as [| x l Hx _ IH]; [reflexivity |].
  cbn [filter_map]. now rewrite Hx.
Qed.

Lemma In_filter_map {A B} (f : A -> option B) (l : list A) y :
  In y (filter_map f l) -> exists x, In x l /\ f x = Some y.
Proof.
  induction l as [| x l IH]; [intros [] |].
  cbn [filter_map]. destruct (f x) as [y' |] eqn:E.
  - intros [<- | H]; [exists x; split; [now left | exact E] |].
    destruct (IH H) as (x' & Hx & Hy). exists x'. split; [now right | exact Hy].
  - intros H. destruct (IH H) as (x' & Hx & Hy).
    exists x'. split; [now right | exact Hy].
Qed.

Lemma In_filter_map_iff {A B} (f : A -> option B) (l : list A) y :
  In y (filter_map f l) <-> exists x, In x l /\ f x = Some y.
Proof.
  split; [apply In_filter_map |].
  intros (x & Hx & Hf). induction l as [| a l IH]; [destruct Hx |].
  cbn [filter_map]. destruct Hx as [-> | Hx].
  - rewrite Hf. now left.
  - destruct (f a); [right |]; now apply IH.
Qed.

Lemma pages_get_inside (pages : list Page) i :
  0 <= i < Z.of_nat (List.length pages) ->
  exists pg, pages_get pages i = Some pg.
Proof.
  intros H. unfold pages_get.
  destruct (Z.ltb_spec i 0); [lia |].
  destruct (nth_error pages (Z.to_nat i)) eqn:E; [eauto |].
  apply nth_error_None in E. lia.
Qed.

Lemma add_pages_inside (pages : list Page) idx :
  Forall (fun i => 0 <= i < Z.of_nat (List.length pages)) idx ->
  exists added, add_pages pages idx = Some added
                /\ List.length added = List.length idx.
Proof.
  induction 1 as [| i r Hi _ IH]; simpl.
  - now exists [].
  - destruct (pages_get_inside pages i Hi) as [pg ->].
    destruct IH as (added & -> & Hlen).
    exists (pg :: added). simpl. now rewrite Hlen.
Qed.

Lemma add_pages_range (pages : list Page) s e :
  (s < e -> 0 <= s /\ e <= Z.of_nat (List.length pages)) ->
  exists added, add_pages pages (range s e) = Some added
                /\ List.length added = Z.to_nat (e - s).
Proof.
  intros H.
  destruct (add_pages_inside pages (range s e)) as (added & Ha & Hl).
  - apply Forall_forall. intros x Hx. apply In_range in Hx. lia.
  - exists added. now rewrite Hl, length_range in *.
Qed.

(** ** The chapter loop, entry by entry *)

Lemma end_page_app (pre : list TocEntry) e rest total :
  end_page (pre ++ e :: rest) total (List.length pre)
  = Spec.endPageRaw rest total.
Proof.
  unfold end_page.
  replace (List.length pre + 1)%nat with (List.length (pre ++ [e]))
    by (rewrite length_app; reflexivity).
  replace (pre ++ e :: rest) with ((pre ++ [e]) ++ rest)
    by (rewrite <- app_assoc; reflexivity).
  rewrite nth_error_app2 by lia. rewrite Nat.sub_diag.
  now destruct rest.
Qed.

Lemma chapter_loop_unrolled (pre l : list TocEntry) total :
  filter_map (chapter_range (pre ++ l) total)
             (enumerate_from (List.length pre) l)
  = plan_from (List.length pre) l total.
Proof.
  revert pre. induction l as [| [t p] rest IH]; intros pre; [reflexivity |].
  cbn [enumerate_from filter_map plan_from].
  specialize (IH (pre ++ [(t, p)])).
  rewrite <- app_assoc, length_app in IH. cbn [List.length app] in IH.
  rewrite Nat.add_1_r in IH.
  unfold chapter_range at 1. rewrite end_page_app.
  cbn [page snd fst].
  destruct (Z.max 0 (p - 1) >=? Z.min total (Spec.endPageRaw rest total));
    rewrite IH; reflexivity.
Qed.

Lemma chapter_plan_unrolled toc total :
  chapter_plan toc total = plan_from 0 toc total.
Proof. exact (chapter_loop_unrolled [] toc total). Qed.

Lemma plan_from_spans i l total :
  map span (plan_from i l total) = Spec.toc_ranges l total.
Proof.
  revert i. induction l as [| e rest IH]; intros i; [reflexivity |].
  cbn [plan_from Spec.toc_ranges].
  destruct (Z.ltb_spec (Z.max 0 (page e - 1))
                       (Z.min total (Spec.endPageRaw rest total)));
    destruct (Z.geb_spec (Z.max 0 (page e - 1))
                         (Z.min total (Spec.endPageRaw rest total)));
    try lia; cbn [map]; now rewrite IH.
Qed.

(** C1. For every TOC entry list and every page count the chapter loop
    goes on with, in order, exactly the ranges
    [max(0, page_i - 1), min(totalPages, e_i)) whose start lies below their
    end, where [e_i] is the next entry's page minus one, or the page count
    for the last entry; the entries Intro/1, Ch1/10, Ch2/25 over 30 pages
    give (0,9), (9,24), (24,30). *)
Theorem toc_driven_ranges :
  (forall toc total,
      map span (chapter_plan toc total) = Spec.toc_ranges toc total)
  /\ map span (chapter_plan [(lit "Intro", 1); (lit "Ch1", 10);
                             (lit "Ch2", 25)] 30)
     = [(0, 9); (9, 24); (24, 30)].
Proof.
  split.
  - intros toc total. rewrite chapter_plan_unrolled. apply plan_from_spans.
  - reflexivity.
Qed.

(** ** Fixed-size planning *)

Section FixedSize.
Variables total S : Z.
Hypothesis total_nonneg : 0 <= total.
Hypothesis S_pos : 1 <= S.

Let n := num_chunks total S.

Lemma num_chunks_bounds : (n - 1) * S < total <= n * S.
Proof.
  unfold n, num_chunks.
  pose proof (Z.mul_div_le (total + S - 1) S ltac:(lia)).
  pose proof (Z.mul_succ_div_gt (total + S - 1) S ltac:(lia)).
  lia.
Qed.

Lemma num_chunks_nonneg : 0 <= n.
Proof. unfold n, num_chunks. apply Z.div_pos; lia. Qed.

Lemma length_page_plan : Z.of_nat (List.length (page_plan total S)) = n.
Proof.
  unfold page_plan. rewrite length_map, length_range.
  pose proof num_chunks_nonneg. fold n. lia.
Qed.

Lemma nth_error_page_plan k :
  (k < List.length (page_plan total S))%nat ->
  nth_error (page_plan total S) k
  = Some (page_range total S (Z.of_nat k)).
Proof.
  intros Hk. unfold page_plan in *.
  rewrite length_map, length_range in Hk.
  rewrite nth_error_map, nth_error_range by exact Hk. reflexivity.
Qed.

Lemma page_plan_elements c :
  In c (page_plan total S) ->
  exists k, 0 <= k < n /\ c = page_range total S k.
Proof.
  unfold page_plan. rewrite in_map_iff.
  intros (k & <- & Hk). apply In_range in Hk. exists k. fold n in Hk.
  split; [lia | reflexivity].
Qed.

Lemma page_range_well_formed k :
  0 <= k < n -> well_formed total (page_range total S k).
Proof.
  intros Hk. pose proof num_chunks_bounds.
  unfold well_formed; cbn [page_range startPage endPage]. nia.
Qed.

Lemma page_range_full k :
  0 <= k < n - 1 -> pages_in (page_range total S k) = S.
Proof.
  intros Hk. pose proof num_chunks_bounds.
  unfold pages_in; cbn [page_range startPage endPage]. nia.
Qed.

End FixedSize.

(** C4. With a page count [total >= 0] and a chunk size [S >= 1] the page
    loop goes through ceil(total / S) chunks (the least count whose
    multiple of [S] reaches [total]); chunk [k] is the range
    [k*S, min((k+1)*S, total)); every chunk has a page in it; no page
    means no chunk; 250 pages in chunks of 99 give (0,99), (99,198),
    (198,250). *)
Theorem fixed_size_ranges :
  (forall total S, 0 <= total -> 1 <= S ->
     let plan := page_plan total S in
     let n := Z.of_nat (List.length plan) in
     ((n - 1) * S < total <= n * S)
     /\ (forall k, (k < List.length plan)%nat ->
           option_map span (nth_error plan k)
           = Some (Spec.fixed_range total S (Z.of_nat k)))
     /\ Forall (fun c => startPage c < endPage c) plan
     /\ (total = 0 -> plan = []))
  /\ map span (page_plan 250 99) = [(0, 99); (99, 198); (198, 250)].
Proof.
  split; [| reflexivity].
  intros total S Ht HS plan n.
  pose proof (length_page_plan total S Ht HS) as Hlen. fold plan in Hlen.
  repeat split.
  - unfold n. rewrite Hlen. now apply num_chunks_bounds.
  - unfold n. rewrite Hlen. now apply num_chunks_bounds.
  - intros k Hk. unfold plan. rewrite nth_error_page_plan by assumption.
    cbn [option_map]. unfold span, Spec.fixed_range.
    cbn [page_range startPage endPage].
    now rewrite Z.mul_add_distr_r, Z.mul_1_l.
  - apply Forall_forall. intros c Hc.
    destruct (page_plan_elements total S c Hc) as (k & Hk & ->).
    now apply page_range_well_formed.
  - intros ->. destruct plan as [| c r] eqn:E; [reflexivity |].
    pose proof (num_chunks_bounds 0 S HS).
    cbn [List.length] in Hlen. nia.
Qed.

Lemma fixed_size_ranges_witness :
  0 <= 250 /\ 1 <= 99
  /\ Forall (fun c => startPage c < endPage c) (page_plan 250 99).
Proof.
  split; [lia |]. split; [lia |].
  apply (proj1 fixed_size_ranges 250 99); lia.
Defined.

(** The degenerate case of the specification: of two entries on page 1
    only the second keeps a range. *)
Example degenerate_first_range_dropped :
  map span (chapter_plan [(lit "A", 1); (lit "B", 1)] 5) = [(0, 5)].
Proof. reflexivity. Qed.

(** Duplicates go, pages ascend, equal pages keep their order. *)
Example unique_then_sorted :
  sorted (unique_entries []
            [(lit "B", 5); (lit "A", 3); (lit "B", 5); (lit "C", 3)])
  = [(lit "A", 3); (lit "C", 3); (lit "B", 5)].
Proof. reflexivity. Qed.

(** ** Invariants of the planned ranges *)

Lemma plan_from_well_formed i l total :
  Forall (well_formed total) (plan_from i l total).
Proof.
  revert i. induction l as [| e rest IH]; intros i; cbn [plan_from].
  - constructor.
  - destruct (Z.geb_spec (Z.max 0 (page e - 1))
                         (Z.min total (Spec.endPageRaw rest total))).
    + apply IH.
    + constructor; [| apply IH].
      unfold well_formed; cbn [startPage endPage]. lia.
Qed.

(** Among sorted entries, whatever is emitted first starts at the first
    entry's page: the entries dropped before it share that page. *)
Lemma plan_from_first i e rest total c r :
  StronglySorted by_page (e :: rest) ->
  plan_from i (e :: rest) total = c :: r ->
  startPage c = Z.max 0 (page e - 1).
Proof.
  revert i e. induction rest as [| e' rest' IH]; intros i e Hs Hp.
  - cbn in Hp.
    destruct (Z.max 0 (page e - 1) >=? Z.min total total);
      [discriminate | now inversion Hp].
  - cbn [plan_from] in Hp.
    destruct (Z.geb_spec (Z.max 0 (page e - 1))
                (Z.min total (Spec.endPageRaw (e' :: rest') total)))
      as [Hdrop | Hkeep].
    + pose proof (plan_from_well_formed (S i) (e' :: rest') total) as Hwf.
      cbn [plan_from] in Hwf. rewrite Hp in Hwf.
      apply Forall_inv in Hwf. destruct Hwf as [Hlt Hle].
      inversion Hs as [| ? ? Hs' Hall]; subst.
      rewrite (IH (S i) e' Hs' Hp) in *.
      apply Forall_inv in Hall. unfold by_page in Hall.
      cbn [Spec.endPageRaw] in Hdrop. lia.
    + now inversion Hp.
Qed.

Lemma plan_from_contiguous i l total :
  StronglySorted by_page l -> contiguous (plan_from i l total).
Proof.
  revert i. induction l as [| e rest IH]; intros i Hs; [exact I |].
  inversion Hs as [| ? ? Hs' Hall]; subst.
  specialize (IH (S i) Hs').
  cbn [plan_from].
  destruct (Z.geb_spec (Z.max 0 (page e - 1))
                       (Z.min total (Spec.endPageRaw rest total)))
    as [Hdrop | Hkeep]; [exact IH |].
  destruct (plan_from (S i) rest total) as [| c r] eqn:E; [exact I |].
  split; [| exact IH]. cbn [endPage].
  destruct rest as [| e' rest']; [discriminate |].
  pose proof (plan_from_well_formed (S i) (e' :: rest') total) as Hwf.
  rewrite E in Hwf. apply Forall_inv in Hwf. destruct Hwf as [Hlt Hle].
  rewrite (plan_from_first (S i) e' rest' total c r Hs' E) in *.
  cbn [Spec.endPageRaw] in *. lia.
Qed.

Lemma contiguous_tail a l : contiguous (a :: l) -> contiguous l.
Proof. destruct l; [trivial | now intros [_ H]]. Qed.

Lemma contiguous_after total a l :
  contiguous (a :: l) -> Forall (well_formed total) (a :: l) ->
  Forall (fun b => endPage a <= startPage b) l.
Proof.
  revert a. induction l as [| b l IH]; intros a Hc Hwf; constructor.
  - destruct Hc as [-> _]. lia.
  - destruct Hc as [Hab Hc].
    inversion Hwf as [| ? ? _ Hwf']; subst.
    specialize (IH b Hc Hwf').
    apply Forall_inv in Hwf'. destruct Hwf' as [Hlt _].
    eapply Forall_impl; [| exact IH]. cbn beta. intros x Hx. lia.
Qed.

Lemma contiguous_non_overlapping total l :
  contiguous l -> Forall (well_formed total) l -> non_overlapping l.
Proof.
  induction l as [| a l IH]; intros Hc Hwf; [constructor |].
  constructor.
  - now apply contiguous_after with total.
  - apply IH; [now apply contiguous_tail with a | now inversion Hwf].
Qed.

(** C5, as the code has it. Every range the chapter loop assembles a
    document from, and every range the page loop assembles one from when
    the chunk size [S] is at least 1, has its start below its end and its
    end within the page count; for entries sorted by page the chapter
    ranges are contiguous and do not overlap; for [S >= 1] the page ranges
    hold exactly [S] pages each, the last one possibly fewer. *)
Theorem chunk_range_invariant :
  forall toc total S,
    StronglySorted by_page toc -> 0 <= total -> 1 <= S ->
    (Forall (well_formed total) (chapter_plan toc total)
     /\ contiguous (chapter_plan toc total)
     /\ non_overlapping (chapter_plan toc total))
    /\ (Forall (well_formed total) (page_plan total S)
        /\ forall k c, nth_error (page_plan total S) k = Some c ->
             (k + 1 < List.length (page_plan total S))%nat ->
             pages_in c = S).
Proof.
  intros toc total S Hs Ht HS. split.
  - rewrite chapter_plan_unrolled.
    pose proof (plan_from_well_formed 0 toc total) as Hwf.
    pose proof (plan_from_contiguous 0 toc total Hs) as Hc.
    repeat split; try assumption.
    now apply contiguous_non_overlapping with total.
  - split.
    + apply Forall_forall. intros c Hc.
      destruct (page_plan_elements total S c Hc) as (k & Hk & ->).
      now apply page_range_well_formed.
    + intros k c Hk Hlast.
      rewrite nth_error_page_plan in Hk by lia.
      injection Hk as <-.
      pose proof (length_page_plan total S Ht HS).
      apply page_range_full; lia.
Qed.

Lemma chunk_range_invariant_witness :
  StronglySorted by_page [(lit "A", 1); (lit "B", 1); (lit "C", 4)]
  /\ 0 <= 7 /\ 1 <= 3
  /\ contiguous (chapter_plan [(lit "A", 1); (lit "B", 1); (lit "C", 4)] 7).
Proof.
  assert (Hs : StronglySorted by_page
                 [(lit "A", 1); (lit "B", 1); (lit "C", 4)]).
  { repeat (constructor; unfold by_page; cbn; try lia). }
  split; [exact Hs |]. split; [lia |]. split; [lia |].
  apply (chunk_range_invariant _ 7 3 Hs); lia.
Defined.

(** C5 as stated fails: the chunk size is not checked, and with
    [--size -3] the page loop plans one range for a one-page document,
    from 0 to -3. The run ends with status 0, having written a document
    without any page for it. *)
Lemma negative_size_breaks_range_invariant :
  let r := main (Examples.holding [Examples.blank 0])
                Examples.args_pages_of_minus_3 empty_fs in
  map span (page_plan 1 (-3)) = [(0, -3)]
  /\ ~ Forall (well_formed 1) (page_plan 1 (-3))
  /\ status (fst r) = 0
  /\ map (fun f => (name (fst f), w_pages (snd f))) (files (snd r))
     = [(lit "book_chunk_001.pdf", [])].
Proof.
  split; [reflexivity | split; [| split; vm_compute; reflexivity]].
  intros H. apply Forall_inv in H. destruct H as [H _].
  vm_compute in H. discriminate.
Qed.

(** ** Chunk numbers *)

Lemma In_enumerate_from {A} (l : list A) s i e :
  In (i, e) (enumerate_from s l)
  <-> (s <= i)%nat /\ nth_error l (i - s) = Some e.
Proof.
  revert s. induction l as [| x l IH]; intros s; cbn [enumerate_from].
  - split; [intros [] | intros [_ H]]. destruct (i - s)%nat; discriminate.
  - cbn [In]. rewrite IH. split.
    + intros [E | [Hle Hn]].
      * injection E as -> ->. split; [lia |]. now rewrite Nat.sub_diag.
      * split; [lia |].
        replace (i - s)%nat with (S (i - S s)) by lia. exact Hn.
    + intros [Hle Hn]. destruct (Nat.eq_dec i s) as [-> | Hne].
      * left. rewrite Nat.sub_diag in Hn. now injection Hn as ->.
      * right. split; [lia |].
        replace (i - s)%nat with (S (i - S s)) in Hn by lia. exact Hn.
Qed.

Lemma chapter_range_index toc total i e c :
  chapter_range toc total (i, e) = Some c -> index c = Z.of_nat i + 1.
Proof.
  unfold chapter_range. destruct e as [t p].
  destruct (_ >=? _); [discriminate |]. now intros [= <-].
Qed.

(** The numbers of a loop that numbers by position run on without a gap
    exactly when nothing it drops comes before something it keeps. *)
Lemma numbers_without_gap {A} (g : nat * A -> option ChunkRange)
      (l : list A) (s : nat) :
  (forall i e c, g (i, e) = Some c -> index c = Z.of_nat i + 1) ->
  map index (filter_map g (enumerate_from s l))
  = map (fun k => Z.of_nat k + 1)
        (seq s (List.length (filter_map g (enumerate_from s l))))
  <-> (forall i e j e',
         In (i, e) (enumerate_from s l) -> g (i, e) = None ->
         In (j, e') (enumerate_from s l) -> g (j, e') <> None ->
         (j < i)%nat).
Proof.
  intros Hidx. revert s. induction l as [| x l IH]; intros s.
  - cbn. split; [intros _ i e j e' [] | reflexivity].
  - cbn [enumerate_from filter_map].
    assert (Habove : forall j e' c,
               In (j, e') (enumerate_from (S s) l) -> g (j, e') = Some c ->
               Z.of_nat s + 1 < index c).
    { intros j e' c Hin Hg. apply In_enumerate_from in Hin.
      rewrite (Hidx j e' c Hg). lia. }
    destruct (g (s, x)) as [c |] eqn:E.
    + cbn [map List.length seq]. rewrite (Hidx s x c E). split.
      * intros H. injection H as H. pose proof (proj1 (IH (S s)) H) as H'.
        clear H. rename H' into H.
        intros i e j e' [Ei | Hi] Hgi [Ej | Hj] Hgj.
        -- injection Ei as <- <-. congruence.
        -- injection Ei as <- <-. congruence.
        -- injection Ej as <- <-. apply In_enumerate_from in Hi. lia.
        -- now apply (H i e j e').
      * intros H. f_equal. apply IH.
        intros i e j e' Hi Hgi Hj Hgj.
        apply (H i e j e'); auto; now right.
    + split.
      * intros H.
        destruct (filter_map g (enumerate_from (S s) l)) as [| c plan] eqn:P.
        -- intros i e j e' _ _ [Ej | Hj] Hgj.
           ++ injection Ej as <- <-. congruence.
           ++ exfalso. destruct (g (j, e')) as [c |] eqn:G; [| congruence].
              assert (Hc : In c (filter_map g (enumerate_from (S s) l)))
                by (apply In_filter_map_iff; now exists (j, e')).
              rewrite P in Hc. destruct Hc.
        -- exfalso. cbn [map List.length seq] in H. injection H as H _.
           assert (Hc : In c (filter_map g (enumerate_from (S s) l)))
             by (rewrite P; now left).
           apply In_filter_map in Hc. destruct Hc as ([j e'] & Hin & Hg).
           pose proof (Habove j e' c Hin Hg). lia.
      * intros H.
        rewrite (filter_map_none g (enumerate_from (S s) l)); [reflexivity |].
        apply Forall_forall. intros [j e'] Hin.
        destruct (g (j, e')) as [c |] eqn:G; [| reflexivity].
        exfalso. apply In_enumerate_from in Hin as Hj.
        assert (j < s)%nat; [| lia].
        apply (H s x j e'); [now left | exact E | now right | congruence].
Qed.

Lemma In_plan_from i l total c :
  In c (plan_from i l total) ->
  exists k e, nth_error l k = Some e
              /\ index c = Z.of_nat (i + k) + 1
              /\ title c = fst e
              /\ startPage c = Z.max 0 (page e - 1).
Proof.
  revert i. induction l as [| e rest IH]; intros i Hin; [destruct Hin |].
  cbn [plan_from] in Hin.
  assert (Hrest : In c (plan_from (S i) rest total) ->
                  exists k e0, nth_error (e :: rest) k = Some e0
                    /\ index c = Z.of_nat (i + k) + 1
                    /\ title c = fst e0
                    /\ startPage c = Z.max 0 (page e0 - 1)).
  { intros H. destruct (IH (S i) H) as (k & e0 & Hn & Hi & Ht & Hs).
    exists (S k), e0. repeat split; try assumption.
    rewrite Hi. f_equal. lia. }
  destruct (Z.max 0 (page e - 1) >=? Z.min total (Spec.endPageRaw rest total)).
  - now apply Hrest.
  - destruct Hin as [<- | Hin]; [| now apply Hrest].
    exists 0%nat, e. cbn [nth_error index title startPage].
    repeat split. f_equal. lia.
Qed.

Lemma plan_from_index_above i l total :
  Forall (fun c => Z.of_nat i < index c) (plan_from i l total).
Proof.
  apply Forall_forall. intros c Hc.
  destruct (In_plan_from i l total c Hc) as (k & e & _ & -> & _). lia.
Qed.

Lemma plan_from_increasing i l total :
  StronglySorted (fun a b => index a < index b) (plan_from i l total).
Proof.
  revert i. induction l as [| e rest IH]; intros i; cbn [plan_from].
  - constructor.
  - destruct (Z.max 0 (page e - 1)
              >=? Z.min total (Spec.endPageRaw rest total)); [apply IH |].
    constructor; [apply IH |].
    eapply Forall_impl; [| apply (plan_from_index_above (S i))].
    cbn [index]. intros c Hc. lia.
Qed.

Lemma length_plan_from i l total :
  (List.length (plan_from i l total) <= List.length l)%nat.
Proof.
  revert i. induction l as [| e rest IH]; intros i; cbn [plan_from];
    [reflexivity |].
  specialize (IH (S i)).
  destruct (Z.max 0 (page e - 1)
            >=? Z.min total (Spec.endPageRaw rest total));
    cbn [List.length]; lia.
Qed.

Lemma plan_from_nothing_dropped i l total :
  List.length (plan_from i l total) = List.length l ->
  map index (plan_from i l total)
  = map (fun k => Z.of_nat k + 1) (seq i (List.length l)).
Proof.
  revert i. induction l as [| e rest IH]; intros i Hlen; [reflexivity |].
  cbn [plan_from] in *.
  pose proof (length_plan_from (S i) rest total).
  destruct (Z.max 0 (page e - 1)
            >=? Z.min total (Spec.endPageRaw rest total));
    cbn [List.length] in *; [lia |].
  cbn [map seq index]. f_equal. apply IH. lia.
Qed.

(** C6, as the code has it. The chunk of the entry at 0-based position
    [i] of the entry list carries the number [i + 1], dropped entries
    counted: the numbers grow strictly from one emitted chunk to the next,
    and each names the position of the entry the chunk starts at. They are
    1, 2, ..., k when no range was dropped, and in general exactly when no
    dropped entry comes before an emitted one: a range dropped before an
    emitted chunk leaves a gap, ranges dropped after the last emitted
    chunk leave none. *)
Theorem chapter_numbers_follow_entries :
  forall toc total,
    let plan := chapter_plan toc total in
    (forall c, In c plan ->
       exists i e, nth_error toc i = Some e
                   /\ index c = Z.of_nat i + 1
                   /\ title c = fst e
                   /\ startPage c = Z.max 0 (page e - 1))
    /\ StronglySorted (fun a b => index a < index b) plan
    /\ (List.length plan = List.length toc -> numbered_from_one plan)
    /\ (numbered_from_one plan
        <-> forall i e j e',
              nth_error toc i = Some e ->
              chapter_range toc total (i, e) = None ->
              nth_error toc j = Some e' ->
              chapter_range toc total (j, e') <> None ->
              (j < i)%nat).
Proof.
  intros toc total plan. unfold plan.
  split; [| split; [| split]].
  - rewrite chapter_plan_unrolled. intros c Hc.
    destruct (In_plan_from 0 toc total c Hc) as (k & e & H).
    now exists k, e.
  - rewrite chapter_plan_unrolled. apply plan_from_increasing.
  - rewrite chapter_plan_unrolled. intros Hlen. unfold numbered_from_one.
    rewrite (plan_from_nothing_dropped 0 toc total Hlen). now rewrite Hlen.
  - unfold numbered_from_one, chapter_plan, enumerate.
    rewrite (numbers_without_gap (chapter_range toc total) toc 0
               (chapter_range_index toc total)).
    split; intros H i e j e' Hi Hgi Hj Hgj.
    + apply (H i e j e'); auto; apply In_enumerate_from;
        rewrite Nat.sub_0_r; (split; [lia | assumption]).
    + apply In_enumerate_from in Hi, Hj. rewrite Nat.sub_0_r in Hi, Hj.
      apply (H i e j e'); tauto.
Qed.

Lemma chapter_numbers_follow_entries_witness :
  let toc := [(lit "Intro", 1); (lit "Ch1", 10); (lit "Ch2", 25)] in
  List.length (chapter_plan toc 30) = List.length toc
  /\ map index (chapter_plan toc 30) = [1; 2; 3].
Proof.
  intros toc.
  assert (Hl : List.length (chapter_plan toc 30) = List.length toc)
    by reflexivity.
  split; [exact Hl |].
  exact (proj1 (proj2 (proj2 (chapter_numbers_follow_entries toc 30))) Hl).
Defined.

(** C6 as stated fails: with two entries on page 1 of a five-page
    document the first range is dropped and the only chunk written is
    number 2, in its file name and in its subject. *)
Lemma chapter_numbers_gap :
  let plan := chapter_plan [(lit "A", 1); (lit "B", 1)] 5 in
  map index plan = [2]
  /\ ~ numbered_from_one plan
  /\ map (fun f => (name (fst f), w_metadata (snd f)))
         (files (snd (main (Examples.holding Examples.two_chapters_on_page_1)
                           Examples.args_chapters empty_fs)))
     = [(lit "002_B.pdf",
         metadata (lit "book - B") (lit "Chapter 2: B"))].
Proof.
  split; [reflexivity | split].
  - intros H. vm_compute in H. discriminate.
  - vm_compute. reflexivity.
Qed.

(** ** The pattern loop *)

Lemma try_pattern_page_of p line e :
  try_pattern p line = Some e ->
  exists g, Re.search p line = Some g
            /\ page_of g = Some (page e) /\ reasonable (page e) = true.
Proof.
  unfold try_pattern. intros H.
  destruct (Re.search p line) as [g |]; [| discriminate].
  exists g. split; [reflexivity |].
  destruct g as [| a [| b [| c [| d g]]]]; try discriminate; cbn [page_of];
    destruct (Str.int _) as [n |]; try discriminate;
    destruct (reasonable n) eqn:R; try discriminate;
    inversion H; subst; now cbn.
Qed.

Lemma reasonable_spec n : reasonable n = true <-> 1 <= n <= 10000.
Proof. unfold reasonable. rewrite andb_true_iff, !Z.leb_le. tauto. Qed.

Lemma try_pattern_out_of_range p line g n :
  Re.search p line = Some g -> page_of g = Some n ->
  ~ 1 <= n <= 10000 ->
  try_pattern p line = None.
Proof.
  intros Hs Hp Hn.
  destruct (try_pattern p line) as [e |] eqn:E; [| reflexivity].
  destruct (try_pattern_page_of p line e E) as (g' & Hs' & Hp' & Hr).
  rewrite Hs in Hs'. injection Hs' as <-.
  rewrite Hp in Hp'. injection Hp' as ->.
  apply reasonable_spec in Hr. contradiction.
Qed.

Lemma try_patterns_None ps line :
  try_patterns ps line = None
  <-> Forall (fun p => try_pattern p line = None) ps.
Proof.
  induction ps as [| p ps IH]; cbn [try_patterns].
  - split; [constructor | reflexivity].
  - destruct (try_pattern p line) eqn:E.
    + split; [discriminate |]. intros H. inversion H; congruence.
    + rewrite IH. split; [now constructor | now inversion 1].
Qed.

(** C2, as the code has it. A pattern that matches a line with a page
    outside 1..10000 is passed over and the patterns after it are still
    tried on the same line; the line gives no entry only when every
    pattern fails to match or proposes an unusable page. *)
Theorem out_of_range_page_skips_pattern :
  forall p ps line g n,
    Re.search p line = Some g -> page_of g = Some n ->
    ~ 1 <= n <= 10000 ->
    try_patterns (p :: ps) line = try_patterns ps line
    /\ (try_patterns (p :: ps) line = None
        <-> Forall (fun q => try_pattern q line = None) ps).
Proof.
  intros p ps line g n Hs Hp Hn.
  pose proof (try_pattern_out_of_range p line g n Hs Hp Hn) as E.
  cbn [try_patterns]. rewrite E. split; [reflexivity |].
  apply try_patterns_None.
Qed.

Lemma out_of_range_page_skips_pattern_witness :
  Re.search (nth 0 toc_patterns []) Examples.sales_line
  = Some [lit "Sales"; lit "20000"]
  /\ page_of [lit "Sales"; lit "20000"] = Some 20000
  /\ ~ 1 <= 20000 <= 10000
  /\ try_patterns toc_patterns Examples.sales_line
     = try_patterns (tl toc_patterns) Examples.sales_line.
Proof.
  assert (Hs : Re.search (nth 0 toc_patterns []) Examples.sales_line
               = Some [lit "Sales"; lit "20000"]) by (vm_compute; reflexivity).
  assert (Hp : page_of [lit "Sales"; lit "20000"] = Some 20000)
    by (vm_compute; reflexivity).
  assert (Hn : ~ 1 <= 20000 <= 10000) by lia.
  split; [exact Hs |]. split; [exact Hp |]. split; [exact Hn |].
  exact (proj1 (out_of_range_page_skips_pattern
                  (nth 0 toc_patterns []) (tl toc_patterns)
                  Examples.sales_line _ _ Hs Hp Hn)).
Defined.

(** C2 as stated fails: the first pattern matches this line with page
    20000, outside 1..10000, and the line still yields an entry, from the
    second pattern. *)
Lemma out_of_range_page_line_kept :
  Re.search (nth 0 toc_patterns []) Examples.sales_line
  = Some [lit "Sales"; lit "20000"]
  /\ page_of [lit "Sales"; lit "20000"] = Some 20000
  /\ reasonable 20000 = false
  /\ scan_line Examples.sales_line = Some (lit "Sales .... 20000", 7)
  /\ extract_toc_from_text Examples.sales_line
     = [(lit "Sales .... 20000", 7)].
Proof. repeat split; vm_compute; reflexivity. Qed.

(** ** The sanitizer *)

(** C7 fails on the code: [replace] makes one pass, so a run of ten
    periods comes out as a run of five, and three periods as two. *)
Theorem sanitize_leaves_adjacent_periods :
  sanitize_filename Examples.great_chapter 50
  = lit "A_B_ The _Great_ Chapter__ ....."
  /\ Str.contains (lit "..")
       (sanitize_filename Examples.great_chapter 50) = true
  /\ sanitize_filename (lit "...") 50 = lit "..".
Proof. repeat split; vm_compute; reflexivity. Qed.

(** ** The loops as runs over their plans *)

Lemma for_filter_map {A B T} (h : A -> option B) (body : B -> T -> M T)
      (l : list A) (acc : T) (fs : FS) :
  for_ l (fun x a => match h x with
                     | None => ret a
                     | Some c => body c a
                     end) acc fs
  = for_ (filter_map h l) body acc fs.
Proof.
  revert acc fs. induction l as [| x l IH]; intros acc fs; [reflexivity |].
  cbn [for_ filter_map].
  destruct (h x) as [c |]; cbn [for_]; unfold bind.
  - destruct (body c acc fs) as [[a | e] fs']; [apply IH | reflexivity].
  - unfold ret at 1. apply IH.
Qed.

Lemma for_map {A B T} (g : A -> B) (body : B -> T -> M T)
      (l : list A) (acc : T) (fs : FS) :
  for_ l (fun x => body (g x)) acc fs = for_ (map g l) body acc fs.
Proof.
  revert acc fs. induction l as [| x l IH]; intros acc fs; [reflexivity |].
  cbn [for_ map]. unfold bind.
  destruct (body (g x) acc fs) as [[a | e] fs']; [apply IH | reflexivity].
Qed.

Lemma after_nil fs : after fs [] [] = fs.
Proof. destruct fs. unfold after. cbn. now rewrite !app_nil_r. Qed.

Lemma after_after fs d1 f1 d2 f2 :
  after (after fs d1 f1) d2 f2 = after fs (d1 ++ d2) (f1 ++ f2).
Proof. unfold after. cbn. now rewrite !app_assoc. Qed.

Lemma write_chunk_some w out acc fs :
  write_chunk w (Some out) acc fs
  = (Ret (acc ++ map fst (kept w [out])), after fs [] (kept w [out])).
Proof.
  unfold write_chunk, lift, bind, ret, try_, open_write, kept, after.
  cbn [filter]. destruct (write_fails w (fst out)); cbn.
  - rewrite !app_nil_r. now destruct fs.
  - rewrite app_nil_r. now destruct out.
Qed.

Lemma kept_app w l1 l2 : kept w (l1 ++ l2) = kept w l1 ++ kept w l2.
Proof. apply filter_app. Qed.

Lemma for_write_chunks w {A} (f : A -> option (path * PdfWriter))
      (l : list A) acc fs :
  (forall x, In x l -> f x <> None) ->
  for_ l (fun x => write_chunk w (f x)) acc fs
  = (Ret (acc ++ map fst (kept w (filter_map f l))),
     after fs [] (kept w (filter_map f l))).
Proof.
  revert acc fs. induction l as [| x l IH]; intros acc fs Hf.
  - cbn. now rewrite app_nil_r, after_nil.
  - cbn [for_ filter_map].
    destruct (f x) as [out |] eqn:E;
      [| exfalso; apply (Hf x); [now left | exact E]].
    unfold bind. rewrite write_chunk_some.
    rewrite IH by (intros y Hy; apply Hf; now right).
    rewrite after_after, <- app_assoc, <- map_app.
    change (out :: filter_map f l) with ([out] ++ filter_map f l).
    now rewrite kept_app.
Qed.

Lemma chapter_file_some pages dir base toc c :
  In c (chapter_plan toc (total_pages pages)) ->
  chapter_file pages dir base c <> None.
Proof.
  intros Hc. rewrite chapter_plan_unrolled in Hc.
  pose proof (plan_from_well_formed 0 toc (total_pages pages)) as Hwf.
  rewrite Forall_forall in Hwf. destruct (Hwf c Hc) as [_ Hle].
  destruct (In_plan_from 0 toc _ c Hc) as (k & e & _ & _ & _ & Hs).
  unfold chapter_file.
  destruct (add_pages_range pages (startPage c) (endPage c))
    as (added & -> & _); [| discriminate].
  unfold total_pages in Hle. lia.
Qed.

Lemma page_file_some pages dir base n S c :
  In c (page_plan (total_pages pages) S) ->
  page_file pages dir base n c <> None.
Proof.
  unfold page_plan. rewrite in_map_iff. intros (k & <- & Hk).
  apply In_range in Hk. unfold page_file.
  destruct (add_pages_range pages
              (startPage (page_range (total_pages pages) S k))
              (endPage (page_range (total_pages pages) S k)))
    as (added & -> & _); [| discriminate].
  cbn [page_range startPage endPage]. unfold total_pages. nia.
Qed.

Lemma chapters_loop w pages dir base toc fs :
  for_ (enumerate toc) (chapters_body w pages dir base toc) [] fs
  = (Ret (map fst (kept w (chapter_files pages dir base toc))),
     after fs [] (kept w (chapter_files pages dir base toc))).
Proof.
  unfold chapters_body.
  rewrite (for_filter_map
             (chapter_range toc (Z.of_nat (List.length pages)))
             (fun c => write_chunk w (chapter_file pages dir base c))).
  apply (for_write_chunks w (chapter_file pages dir base)).
  intros c Hc. now apply chapter_file_some with toc.
Qed.

Lemma pages_loop w pages dir base S fs :
  for_ (range 0 (num_chunks (total_pages pages) S))
       (pages_body w pages dir base S) [] fs
  = (Ret (map fst (kept w (page_files pages dir base S))),
     after fs [] (kept w (page_files pages dir base S))).
Proof.
  unfold pages_body.
  rewrite (for_map (page_range (Z.of_nat (List.length pages)) S)
             (fun c => write_chunk w
                (page_file pages dir base
                   (num_chunks (Z.of_nat (List.length pages)) S) c))).
  apply (for_write_chunks w
           (page_file pages dir base (num_chunks (total_pages pages) S))).
  intros c Hc. now apply page_file_some with S.
Qed.

(** ** The two flows *)

Section Flows.
Variable w : World.
Variable input : str.
Variable doc : list Page.

Let p := parse input.

Hypothesis input_exists : exists_ w p = true.
Hypothesis input_opens : PdfReader w p = Some doc.

Lemma extract_toc_from_pdf_opens fs :
  extract_toc_from_pdf w p 25 fs = (Ret (detected_toc doc), fs).
Proof.
  unfold extract_toc_from_pdf, bind, lift, detected_toc.
  rewrite input_opens. unfold ret at 1.
  now destruct (toc_found (scanned_text doc 25)).
Qed.

Lemma split_by_pages_runs (x : pathlike) (dir : option pathlike) S fs :
  Path x = p -> S <> 0 ->
  let d := match dir with
           | None => parent p // S_ (stem p ++ lit "_pages")
           | Some d => Path d
           end in
  split_by_pages w x dir S fs
  = (Ret (map fst (kept w (page_files doc d (stem p) S))),
     after fs [d] (kept w (page_files doc d (stem p) S))).
Proof.
  intros Hx HS d. unfold split_by_pages. rewrite Hx, input_exists.
  cbn [negb]. unfold bind at 1. unfold mkdir at 1.
  unfold bind at 1. rewrite input_opens. unfold lift, ret at 1.
  destruct (Z.eqb_spec S 0) as [| _]; [contradiction |].
  fold d. fold (total_pages doc). rewrite pages_loop.
  f_equal. unfold after. cbn [dirs files]. now rewrite app_nil_r.
Qed.

Lemma split_by_chapters_runs (out : option str) fs :
  let d := chapters_dir p out in
  split_by_chapters w (S_ input) (option_map S_ out) fs
  = match detected_toc doc with
    | [] =>
        (Ret (map fst (kept w (page_files doc d (stem p) 99))),
         after fs [d; d] (kept w (page_files doc d (stem p) 99)))
    | toc =>
        (Ret (map fst (kept w (chapter_files doc d (stem p) toc))),
         after fs [d] (kept w (chapter_files doc d (stem p) toc)))
    end.
Proof.
  intros d. unfold split_by_chapters. cbn [Path]. fold p.
  rewrite input_exists. cbn [negb].
  assert (Hd : match option_map S_ out with
               | None => parent p // S_ (stem p ++ lit "_chapters")
               | Some d0 => Path d0 // S_ (stem p ++ lit "_chapters")
               end = d) by now destruct out.
  rewrite Hd.
  unfold bind at 1. unfold mkdir at 1.
  unfold bind at 1. rewrite input_opens. unfold lift, ret at 1.
  unfold bind at 1. rewrite extract_toc_from_pdf_opens.
  destruct (detected_toc doc) as [| e toc] eqn:E.
  - rewrite (split_by_pages_runs (P_ p) (Some (P_ d)) 99);
      [| reflexivity | discriminate].
    cbn [Path]. f_equal. unfold after. cbn [dirs files].
    now rewrite <- app_assoc.
  - rewrite chapters_loop. f_equal.
    unfold after. cbn [dirs files]. now rewrite app_nil_r.
Qed.

End Flows.

(** ** [main] *)

Lemma main_not_found w args fs :
  exists_ w (parse (input_pdf args)) = false ->
  main w args fs = ({| status := 1; reported := None |}, fs).
Proof.
  intros H. unfold main, split_by_chapters, split_by_pages. cbn [Path].
  rewrite H. now destruct (mode args).
Qed.

Lemma main_unreadable w args fs :
  exists_ w (parse (input_pdf args)) = true ->
  PdfReader w (parse (input_pdf args)) = None ->
  status (fst (main w args fs)) = 1.
Proof.
  intros He Hr. unfold main, split_by_chapters, split_by_pages. cbn [Path].
  rewrite He. cbn [negb]. unfold bind, mkdir, lift. rewrite Hr.
  now destruct (mode args).
Qed.

Lemma main_zero_size w args fs doc :
  exists_ w (parse (input_pdf args)) = true ->
  PdfReader w (parse (input_pdf args)) = Some doc ->
  mode args = pages_ -> size args = 0 ->
  status (fst (main w args fs)) = 1.
Proof.
  intros He Hr Hm Hs. unfold main, split_by_pages. cbn [Path].
  rewrite Hm, He, Hs. cbn [negb]. unfold bind, mkdir, lift.
  now rewrite Hr.
Qed.

Lemma main_completes w args fs doc :
  exists_ w (parse (input_pdf args)) = true ->
  PdfReader w (parse (input_pdf args)) = Some doc ->
  ~ (mode args = pages_ /\ size args = 0) ->
  main w args fs
  = ({| status := 0;
        reported := if quiet args then None
                    else Some (List.length
                                 (kept w (planned_files doc args))) |},
     after fs (made_dirs doc args) (kept w (planned_files doc args))).
Proof.
  intros He Hr Hz. unfold main, planned_files, made_dirs.
  destruct (mode args) eqn:Hm.
  - rewrite (split_by_chapters_runs w (input_pdf args) doc He Hr).
    destruct (detected_toc doc); cbv beta iota zeta;
      rewrite length_map; reflexivity.
  - assert (HS : size args <> 0) by (intros E; apply Hz; now split).
    rewrite (split_by_pages_runs w (input_pdf args) doc He Hr
               (S_ (input_pdf args)) (option_map S_ (output args))
               (size args) fs eq_refl HS).
    assert (Hd : match option_map S_ (output args) with
                 | None => parent (parse (input_pdf args))
                           // S_ (stem (parse (input_pdf args)) ++ lit "_pages")
                 | Some d => Path d
                 end = pages_dir (parse (input_pdf args)) (output args))
      by now destruct (output args).
    rewrite Hd. cbv beta iota zeta. rewrite length_map.
    reflexivity.
Qed.

Lemma announced_dir args :
  match option_map S_ (output args) with
  | None => parent (parse (input_pdf args))
            // S_ (stem (parse (input_pdf args)) ++ lit "_pages")
  | Some d => Path d
  end = pages_dir (parse (input_pdf args)) (output args)
  /\ match option_map S_ (output args) with
     | None => parent (parse (input_pdf args))
               // S_ (stem (parse (input_pdf args)) ++ lit "_chapters")
     | Some d => Path d
                 // S_ (stem (parse (input_pdf args)) ++ lit "_chapters")
     end = chapters_dir (parse (input_pdf args)) (output args).
Proof. now destruct (output args). Qed.

(** ** The flows on a host where more can go wrong *)

Lemma assembled_all h l : assembles_all h l = true -> assembled h l = l.
Proof.
  unfold assembles_all. induction l as [| f l IH]; [reflexivity |].
  cbn [forallb assembled]. destruct (Disk.assemble_fails h (fst f));
    [discriminate |].
  cbn [negb andb]. intros H. now rewrite IH.
Qed.


Lemma disk_write_chunk_some h out acc fs :
  Disk.write_chunk h (Some out) acc fs
  = if Disk.assemble_fails h (fst out) then (Raise LibraryError, fs)
    else (Ret (acc ++ map fst (kept (Disk.world h) [out])),
          after fs [] (kept (Disk.world h) [out])).
Proof.
  unfold Disk.write_chunk, lift, bind, ret at 1.
  destruct (Disk.assemble_fails h (fst out)); [reflexivity |].
  exact (write_chunk_some (Disk.world h) out acc fs).
Qed.

Lemma disk_for_write_chunks h {A} (f : A -> option (path * PdfWriter))
      (l : list A) acc fs :
  (forall x, In x l -> f x <> None) ->
  for_ l (fun x => Disk.write_chunk h (f x)) acc fs
  = (if assembles_all h (filter_map f l)
     then Ret (acc ++ map fst (kept (Disk.world h) (filter_map f l)))
     else Raise LibraryError,
     after fs [] (kept (Disk.world h) (assembled h (filter_map f l)))).
Proof.
  revert acc fs. induction l as [| x l IH]; intros acc fs Hf.
  - cbn. now rewrite app_nil_r, after_nil.
  - cbn [for_ filter_map].
    destruct (f x) as [out |] eqn:E;
      [| exfalso; apply (Hf x); [now left | exact E]].
    unfold bind. rewrite disk_write_chunk_some.
    unfold assembles_all. cbn [forallb assembled].
    destruct (Disk.assemble_fails h (fst out)); cbn [negb andb].
    + cbn [kept filter]. now rewrite after_nil.
    + rewrite IH by (intros y Hy; apply Hf; now right).
      fold (assembles_all h (filter_map f l)).
      rewrite after_after.
      change (out :: filter_map f l) with ([out] ++ filter_map f l).
      change (out :: assembled h (filter_map f l))
        with ([out] ++ assembled h (filter_map f l)).
      rewrite !kept_app, map_app, app_assoc. reflexivity.
Qed.

Lemma disk_chapters_loop h pages dir base toc fs :
  for_ (enumerate toc) (Disk.chapters_body h pages dir base toc) [] fs
  = (loop_outcome h (chapter_files pages dir base toc),
     after fs []
       (kept (Disk.world h) (assembled h (chapter_files pages dir base toc)))).
Proof.
  unfold Disk.chapters_body.
  rewrite (for_filter_map
             (chapter_range toc (Z.of_nat (List.length pages)))
             (fun c => Disk.write_chunk h (chapter_file pages dir base c))).
  apply (disk_for_write_chunks h (chapter_file pages dir base)).
  intros c Hc. now apply chapter_file_some with toc.
Qed.

Lemma disk_pages_loop h pages dir base S fs :
  for_ (range 0 (num_chunks (total_pages pages) S))
       (Disk.pages_body h pages dir base S) [] fs
  = (loop_outcome h (page_files pages dir base S),
     after fs []
       (kept (Disk.world h) (assembled h (page_files pages dir base S)))).
Proof.
  unfold Disk.pages_body.
  rewrite (for_map (page_range (Z.of_nat (List.length pages)) S)
             (fun c => Disk.write_chunk h
                (page_file pages dir base
                   (num_chunks (Z.of_nat (List.length pages)) S) c))).
  apply (disk_for_write_chunks h
           (page_file pages dir base (num_chunks (total_pages pages) S))).
  intros c Hc. now apply page_file_some with S.
Qed.

Section DiskFlows.
Variable h : Disk.Host.
Variable input : str.
Variable doc : list Page.

Let w := Disk.world h.
Let p := parse input.

Hypothesis input_exists : exists_ w p = true.
Hypothesis input_opens : PdfReader w p = Some doc.

Lemma disk_split_by_pages_runs (x : pathlike) (dir : option pathlike) S fs :
  Path x = p -> S <> 0 ->
  let d := match dir with
           | None => parent p // S_ (stem p ++ lit "_pages")
           | Some d => Path d
           end in
  Disk.mkdir_fails h d = false ->
  Disk.split_by_pages h x dir S fs
  = (loop_outcome h (page_files doc d (stem p) S),
     after fs (Disk.ensured d)
       (kept w (assembled h (page_files doc d (stem p) S)))).
Proof.
  intros Hx HS d Hd. unfold Disk.split_by_pages. rewrite Hx.
  fold w. rewrite input_exists.
  cbn [negb]. unfold bind at 1. unfold Disk.mkdir at 1. fold d. rewrite Hd.
  unfold bind at 1. rewrite input_opens. unfold lift, ret at 1.
  destruct (Z.eqb_spec S 0) as [| _]; [contradiction |].
  fold (total_pages doc). rewrite disk_pages_loop.
  f_equal. unfold after. cbn [dirs files]. now rewrite app_nil_r.
Qed.

Lemma disk_split_by_chapters_runs (out : option str) fs :
  let d := chapters_dir p out in
  Disk.mkdir_fails h d = false ->
  Disk.split_by_chapters h (S_ input) (option_map S_ out) fs
  = match detected_toc doc with
    | [] =>
        (loop_outcome h (page_files doc d (stem p) 99),
         after fs (Disk.ensured d ++ Disk.ensured d)
           (kept w (assembled h (page_files doc d (stem p) 99))))
    | toc =>
        (loop_outcome h (chapter_files doc d (stem p) toc),
         after fs (Disk.ensured d)
           (kept w (assembled h (chapter_files doc d (stem p) toc))))
    end.
Proof.
  intros d Hmk. unfold Disk.split_by_chapters. cbn [Path]. fold p w.
  rewrite input_exists. cbn [negb].
  assert (Hd : match option_map S_ out with
               | None => parent p // S_ (stem p ++ lit "_chapters")
               | Some d0 => Path d0 // S_ (stem p ++ lit "_chapters")
               end = d) by now destruct out.
  rewrite Hd.
  unfold bind at 1. unfold Disk.mkdir at 1. rewrite Hmk.
  unfold bind at 1. rewrite input_opens. unfold lift, ret at 1.
  unfold bind at 1. rewrite (extract_toc_from_pdf_opens w input doc input_opens).
  destruct (detected_toc doc) as [| e toc] eqn:E.
  - rewrite (disk_split_by_pages_runs (P_ p) (Some (P_ d)) 99);
      [| reflexivity | discriminate | exact Hmk].
    cbn [Path]. f_equal. unfold after. cbn [dirs files].
    now rewrite <- app_assoc.
  - rewrite disk_chapters_loop. f_equal.
    unfold after. cbn [dirs files]. now rewrite app_nil_r.
Qed.

End DiskFlows.

Lemma disk_main_not_found h args fs :
  exists_ (Disk.world h) (parse (input_pdf args)) = false ->
  Disk.main h args fs = ({| status := 1; reported := None |}, fs).
Proof.
  intros H. unfold Disk.main, Disk.split_by_chapters, Disk.split_by_pages.
  cbn [Path]. rewrite H. now destruct (mode args).
Qed.


Lemma disk_main_stops_early h args fs :
  exists_ (Disk.world h) (parse (input_pdf args)) = true ->
  Disk.mkdir_fails h (target_dir args) = false ->
  PdfReader (Disk.world h) (parse (input_pdf args)) = None
  \/ (mode args = pages_ /\ size args = 0) ->
  Disk.main h args fs
  = ({| status := 1; reported := None |},
     after fs (Disk.ensured (target_dir args)) []).
Proof.
  intros He Hmk Hbad. unfold Disk.main, Disk.split_by_chapters,
    Disk.split_by_pages. cbn [Path]. rewrite He. cbn [negb].
  destruct (announced_dir args) as [Ep Ec]. rewrite Ep, Ec.
  unfold target_dir in *. unfold bind, Disk.mkdir, lift, after.
  cbn [dirs files]. rewrite app_nil_r.
  destruct Hbad as [Hr | [Hm Hs]].
  - rewrite Hr. destruct (mode args); now rewrite Hmk.
  - rewrite Hm in *. rewrite Hmk, Hs.
    now destruct (PdfReader (Disk.world h) (parse (input_pdf args))).
Qed.

Lemma disk_main_runs h args fs doc :
  exists_ (Disk.world h) (parse (input_pdf args)) = true ->
  Disk.mkdir_fails h (target_dir args) = false ->
  PdfReader (Disk.world h) (parse (input_pdf args)) = Some doc ->
  ~ (mode args = pages_ /\ size args = 0) ->
  Disk.main h args fs
  = (match loop_outcome h (planned_files doc args) with
     | Ret chunks =>
         {| status := 0;
            reported := if quiet args then None
                        else Some (List.length chunks) |}
     | Raise _ => {| status := 1; reported := None |}
     end,
     after fs (ensured_dirs doc args)
       (kept (Disk.world h) (assembled h (planned_files doc args)))).
Proof.
  intros He Hmk Hr Hz.
  unfold Disk.main, planned_files, ensured_dirs, made_dirs.
  unfold target_dir in Hmk.
  destruct (mode args) eqn:Hm.
  - rewrite (disk_split_by_chapters_runs h (input_pdf args) doc He Hr
               (output args) fs Hmk).
    destruct (detected_toc doc); cbv beta iota zeta;
      cbn [map List.concat]; rewrite ?app_nil_r;
      destruct (loop_outcome h _); reflexivity.
  - assert (HS : size args <> 0) by (intros E; apply Hz; now split).
    destruct (announced_dir args) as [Ep _].
    rewrite (disk_split_by_pages_runs h (input_pdf args) doc He Hr
               (S_ (input_pdf args)) (option_map S_ (output args))
               (size args) fs eq_refl HS);
      rewrite Ep; [| exact Hmk].
    cbv beta iota zeta. cbn [map List.concat]. rewrite app_nil_r.
    destruct (loop_outcome h _); reflexivity.
Qed.

(** On a host where neither failure happens, [Disk.main] is [main]: the
    same exit, the same message and the same files. *)
Lemma main_on_calm_host w args fs :
  fst (Disk.main (Disk.calm w) args fs) = fst (main w args fs)
  /\ files (snd (Disk.main (Disk.calm w) args fs))
     = files (snd (main w args fs)).
Proof.
  assert (Hall : forall l, assembles_all (Disk.calm w) l = true).
  { intros l. unfold assembles_all. apply forallb_forall. reflexivity. }
  destruct (exists_ w (parse (input_pdf args))) eqn:He.
  2:{ rewrite (disk_main_not_found (Disk.calm w) args fs He).
      now rewrite (main_not_found w args fs He). }
  assert (Hdec : (PdfReader w (parse (input_pdf args)) = None
                  \/ (mode args = pages_ /\ size args = 0))
                 \/ exists doc,
                      PdfReader w (parse (input_pdf args)) = Some doc
                      /\ ~ (mode args = pages_ /\ size args = 0)).
  { destruct (PdfReader w (parse (input_pdf args))) as [doc |];
      [| now left; left].
    destruct (mode args);
      [right; exists doc; split; [reflexivity | intros [? _]; discriminate] |].
    destruct (Z.eq_dec (size args) 0);
      [left; right; now split | right; exists doc; split; tauto]. }
  destruct Hdec as [Hbad | (doc & Hr & Hz)].
  - rewrite (disk_main_stops_early (Disk.calm w) args fs He eq_refl Hbad).
    cbn [fst snd after files]. rewrite app_nil_r.
    unfold main, split_by_chapters, split_by_pages. cbn [Path].
    rewrite He. cbn [negb]. unfold bind, mkdir, lift.
    destruct Hbad as [Hr | [Hm Hs]].
    + rewrite Hr. destruct (mode args); cbn; auto.
    + rewrite Hm, Hs. destruct (PdfReader w _); cbn; auto.
  - rewrite (disk_main_runs (Disk.calm w) args fs doc He eq_refl Hr Hz).
    rewrite (main_completes w args fs doc He Hr Hz).
    unfold loop_outcome. rewrite Hall, (assembled_all _ _ (Hall _)).
    cbn [fst snd after files Disk.world Disk.calm].
    rewrite length_map. now split.
Qed.




(** ** Falling back to pages *)

Lemma no_entries pages :
  toc_found (scanned_text pages 25) = false
  \/ Forall (fun line => scan_line line = None)
            (Str.split "010"%char (scanned_text pages 25)) ->
  detected_toc pages = [].
Proof.
  unfold detected_toc. intros [-> | H]; [reflexivity |].
  destruct (toc_found _); [| reflexivity].
  unfold extract_toc_from_text. now rewrite filter_map_none.
Qed.

(** C3. When the Locator finds no entries (no indicator keyword in the
    text of the first 25 pages, or no line of it accepted by any pattern)
    the chapter flow does not raise: it is the page flow run with chunk
    size 99 on the same input, and it writes the files of the fixed-size
    plan for 99 pages per chunk. *)
Theorem chapters_fall_back_to_pages :
  forall w input out doc fs,
    exists_ w (parse input) = true ->
    PdfReader w (parse input) = Some doc ->
    toc_found (scanned_text doc 25) = false
    \/ Forall (fun line => scan_line line = None)
              (Str.split "010"%char (scanned_text doc 25)) ->
    let d := chapters_dir (parse input) out in
    let planned := page_files doc d (stem (parse input)) 99 in
    split_by_chapters w (S_ input) (option_map S_ out) fs
    = (Ret (map fst (kept w planned)), after fs [d; d] (kept w planned))
    /\ split_by_chapters w (S_ input) (option_map S_ out) fs
       = split_by_pages w (P_ (parse input)) (Some (P_ d)) 99
                        (after fs [d] [])
    /\ List.length planned
       = List.length (page_plan (total_pages doc) 99).
Proof.
  intros w input out doc fs He Hr Hnone d planned.
  pose proof (split_by_chapters_runs w input doc He Hr out fs) as Hrun.
  rewrite (no_entries doc Hnone) in Hrun. fold d planned in Hrun.
  split; [exact Hrun |]. split.
  - rewrite Hrun.
    rewrite (split_by_pages_runs w input doc He Hr (P_ (parse input))
               (Some (P_ d)) 99 (after fs [d] []) eq_refl ltac:(discriminate)).
    cbn [Path]. rewrite after_after. now rewrite app_nil_l.
  - unfold planned, page_files.
    generalize (page_file_some doc d (stem (parse input))
                  (num_chunks (total_pages doc) 99) 99).
    generalize (page_file doc d (stem (parse input))
                  (num_chunks (total_pages doc) 99)).
    generalize (page_plan (total_pages doc) 99).
    intros l f Hf. induction l as [| c l IH]; [reflexivity |].
    cbn [filter_map].
    destruct (f c) eqn:E; [| exfalso; apply (Hf c); [now left | exact E]].
    cbn [List.length]. f_equal. apply IH. intros x Hx. apply Hf. now right.
Qed.

Lemma chapters_fall_back_to_pages_witness :
  let w := Examples.holding Examples.no_contents in
  exists_ w (parse Examples.book_pdf) = true
  /\ PdfReader w (parse Examples.book_pdf) = Some Examples.no_contents
  /\ toc_found (scanned_text Examples.no_contents 25) = false
  /\ fst (split_by_chapters w (S_ Examples.book_pdf)
            (option_map S_ (Some (lit "out"))) empty_fs)
     = Ret [parse (lit "out/book_chapters/book_chunk_001.pdf")].
Proof.
  intros w.
  assert (He : exists_ w (parse Examples.book_pdf) = true) by reflexivity.
  assert (Hr : PdfReader w (parse Examples.book_pdf)
               = Some Examples.no_contents) by reflexivity.
  assert (Hn : toc_found (scanned_text Examples.no_contents 25) = false)
    by (vm_compute; reflexivity).
  split; [exact He |]. split; [exact Hr |]. split; [exact Hn |].
  rewrite (proj1 (chapters_fall_back_to_pages w Examples.book_pdf
                    (Some (lit "out")) Examples.no_contents empty_fs
                    He Hr (or_introl Hn))).
  vm_compute. reflexivity.
Defined.

(** ** Paths and file names *)

Lemma split_no_sep sep s :
  Forall (fun c => c <> sep) s -> Str.split sep s = [s].
Proof.
  induction 1 as [| c s Hc _ IH]; [reflexivity |].
  cbn [Str.split]. destruct (Ascii.eqb_spec c sep); [contradiction |].
  now rewrite IH.
Qed.

Lemma split_parts sep s :
  Forall (Forall (fun c => c <> sep)) (Str.split sep s).
Proof.
  induction s as [| c s IH]; cbn [Str.split].
  - repeat constructor.
  - destruct (Ascii.eqb_spec c sep) as [| Hc].
    + constructor; [constructor | exact IH].
    + destruct (Str.split sep s) as [| l ls]; [repeat constructor; assumption |].
      inversion IH; subst. constructor; [now constructor | assumption].
Qed.

Lemma Forall_filter {A} (P : A -> Prop) f (l : list A) :
  Forall P l -> Forall P (filter f l).
Proof.
  induction 1 as [| x l Hx _ IH]; cbn [filter]; [constructor |].
  destruct (f x); [now constructor | exact IH].
Qed.

Lemma Forall_firstn {A} (P : A -> Prop) n (l : list A) :
  Forall P l -> Forall P (firstn n l).
Proof.
  intros H. revert n. induction H as [| x l Hx _ IH]; intros [| n];
    cbn [firstn]; try constructor; auto.
Qed.

Lemma Forall_last {A} (P : A -> Prop) (l : list A) d :
  Forall P l -> P d -> P (last l d).
Proof.
  induction 1 as [| x l Hx Hl IH]; intros Hd; [exact Hd |].
  cbn [last]. destruct l; [exact Hx | now apply IH].
Qed.

Lemma str_eqb_eq a b : str_eqb a b = true <-> a = b.
Proof.
  unfold str_eqb. destruct (list_eq_dec ascii_dec a b);
    split; congruence.
Qed.

Lemma parse_component s :
  component s -> parse s = {| absolute := false; parts := [s] |}.
Proof.
  intros (Hs & Hne & Hdot). unfold parse.
  rewrite (split_no_sep "/"%char s Hs). cbn [filter]. unfold keep.
  destruct (str_eqb s []) eqn:E1;
    [apply str_eqb_eq in E1; contradiction |].
  destruct (str_eqb s dot) eqn:E2;
    [apply str_eqb_eq in E2; contradiction |].
  cbn [orb negb]. f_equal.
  destruct s as [| c s]; [contradiction |].
  inversion Hs; subst. cbn [Str.startswith].
  destruct (Ascii.eqb_spec "/"%char c); [congruence | reflexivity].
Qed.

Lemma join_component d s :
  component s ->
  d // S_ s = {| absolute := absolute d; parts := parts d ++ [s] |}.
Proof.
  intros H. unfold joinpath. cbn [Path]. now rewrite (parse_component s H).
Qed.

Lemma parent_join d s : component s -> parent (d // S_ s) = d.
Proof.
  intros H. rewrite (join_component d s H). unfold parent. cbn [parts absolute].
  rewrite removelast_last. now destruct d.
Qed.

Lemma name_join d s : component s -> name (d // S_ s) = s.
Proof.
  intros H. rewrite (join_component d s H). unfold name. cbn [parts].
  apply last_last.
Qed.

Lemma long_component s :
  no_slash s -> (2 <= List.length s)%nat -> component s.
Proof.
  intros Hs Hl. repeat split; [exact Hs | |]; intros ->; cbn in Hl; lia.
Qed.

Lemma stem_no_slash s : no_slash (stem (parse s)).
Proof.
  assert (Hn : no_slash (name (parse s))).
  { unfold name, parse. cbn [parts].
    apply Forall_last; [| constructor].
    apply Forall_filter. apply split_parts. }
  unfold stem. destruct (rfind_dot (name (parse s))) as [i |]; [| exact Hn].
  destruct (_ && _); [| exact Hn]. now apply Forall_firstn.
Qed.

Lemma no_slash_app a b : no_slash a -> no_slash b -> no_slash (a ++ b).
Proof. intros Ha Hb. apply Forall_app. now split. Qed.

Lemma digits_no_slash n : no_slash (Str.digits n).
Proof.
  unfold Str.digits. generalize (Nat.to_uint n). intros d.
  induction d; cbn; constructor; try assumption; discriminate.
Qed.

Lemma fmt_03d_no_slash n : no_slash (Str.fmt_03d n).
Proof.
  unfold Str.fmt_03d.
  assert (Hz : forall k, no_slash (repeat "0"%char k)).
  { induction k; cbn; constructor; [discriminate | assumption]. }
  destruct (n <? 0); [constructor; [discriminate |] |];
    apply no_slash_app; auto using digits_no_slash.
Qed.

Lemma page_file_name base k :
  no_slash base ->
  component (base ++ lit "_chunk_" ++ Str.fmt_03d k ++ lit ".pdf").
Proof.
  intros Hb. apply long_component.
  - repeat apply no_slash_app; auto using fmt_03d_no_slash;
      repeat constructor; discriminate.
  - rewrite !length_app. cbn. lia.
Qed.

Lemma suffixed_component base (suffix : string) :
  no_slash base -> no_slash (lit suffix) ->
  (2 <= List.length (lit suffix))%nat ->
  component (base ++ lit suffix).
Proof.
  intros Hb Hs Hl. apply long_component.
  - now apply no_slash_app.
  - rewrite length_app. lia.
Qed.

(** ** The sanitizer leaves no slash *)

Lemma match_one k c s :
  Re.match_ [Re.one k] (c :: s)
  = if Re.cmatch k c then Some ([], s) else None.
Proof.
  unfold Re.match_, Re.one. cbn [Re.run Re.rep_greedy Re.below].
  destruct (Re.cmatch k c); cbn [andb Nat.ltb Nat.leb]; [| reflexivity].
  destruct s as [| c' s]; cbn [Re.rep_greedy Re.below Re.run rev Nat.leb];
    [reflexivity |].
  now rewrite andb_false_r.
Qed.

Lemma sub_one_avoids k repl (P : ascii -> Prop) s :
  Forall P repl -> (forall c, Re.cmatch k c = false -> P c) ->
  Forall P (Re.sub [Re.one k] repl s).
Proof.
  intros Hrepl Hk. unfold Re.sub.
  induction s as [| c s IH]; [constructor |].
  cbn [Re.sub_from]. rewrite match_one.
  destruct (Re.cmatch k c) eqn:E.
  - replace (List.length (c :: s) - List.length s)%nat with 1%nat
      by (cbn [List.length]; lia).
    apply Forall_app. now split.
  - constructor; [now apply Hk | exact IH].
Qed.

Lemma sub_from_Forall p repl (P : ascii -> Prop) s skip :
  Forall P repl -> Forall P s -> Forall P (Re.sub_from p repl s skip).
Proof.
  intros Hrepl Hs. revert skip.
  induction Hs as [| c s Hc _ IH]; intros skip; [constructor |].
  cbn [Re.sub_from]. destruct skip as [| j]; [| apply IH].
  destruct (Re.match_ p (c :: s)) as [[g rest] |].
  - destruct (List.length (c :: s) - List.length rest)%nat.
    + constructor; [exact Hc | apply IH].
    + apply Forall_app. split; [exact Hrepl | apply IH].
  - constructor; [exact Hc | apply IH].
Qed.

Lemma lstrip_Forall (P : ascii -> Prop) s :
  Forall P s -> Forall P (Str.lstrip s).
Proof.
  induction 1 as [| c s Hc Hs IH]; [constructor |].
  cbn [Str.lstrip]. destruct (Str.isspace c); [exact IH | now constructor].
Qed.

Lemma strip_Forall (P : ascii -> Prop) s :
  Forall P s -> Forall P (Str.strip s).
Proof.
  intros H. unfold Str.strip, Str.rstrip.
  now apply Forall_rev, lstrip_Forall, Forall_rev, lstrip_Forall.
Qed.

Lemma replace_from_Forall old new (P : ascii -> Prop) s skip :
  Forall P new -> Forall P s -> Forall P (Str.replace_from old new s skip).
Proof.
  intros Hnew Hs. revert skip.
  induction Hs as [| c s Hc _ IH]; intros skip; [constructor |].
  cbn [Str.replace_from]. destruct skip as [| j]; [| apply IH].
  destruct (Str.startswith old (c :: s)).
  - apply Forall_app. split; [exact Hnew | apply IH].
  - constructor; [exact Hc | apply IH].
Qed.

Lemma rsplit1_head_Forall (P : ascii -> Prop) s :
  Forall P s -> Forall P (Str.rsplit1_head s).
Proof.
  intros Hs. unfold Str.rsplit1_head.
  destruct (Str.before_last_space s) as [q |] eqn:E; [| exact Hs].
  revert q E. induction Hs as [| c s Hc _ IH]; intros q E; [discriminate |].
  cbn [Str.before_last_space] in E.
  destruct (Str.before_last_space s) as [q' |].
  - injection E as <-. constructor; [exact Hc | now apply IH].
  - destruct (Ascii.eqb c " "); [| discriminate].
    injection E as <-. constructor.
Qed.

Lemma sanitize_no_slash title n : no_slash (sanitize_filename title n).
Proof.
  unfold sanitize_filename, no_slash.
  assert (H : Forall (fun c => c <> "/"%char)
                (Str.replace (lit "..") (lit ".")
                   (Str.strip
                      (Re.sub [Re.plus Re.Space] (lit " ")
                         (Re.sub [Re.one (Re.any_of invalid_chars)]
                            (lit "_") title))))).
  { apply replace_from_Forall; [repeat constructor; discriminate |].
    apply strip_Forall.
    apply sub_from_Forall; [repeat constructor; discriminate |].
    apply sub_one_avoids; [repeat constructor; discriminate |].
    intros c Hc ->. vm_compute in Hc. discriminate. }
  destruct (_ <? _)%nat; [| exact H].
  now apply rsplit1_head_Forall, Forall_firstn.
Qed.

Lemma chapter_file_name k title :
  component (Str.fmt_03d k ++ lit "_" ++ sanitize_filename title 50
               ++ lit ".pdf").
Proof.
  apply long_component.
  - repeat apply no_slash_app;
      auto using fmt_03d_no_slash, sanitize_no_slash;
      repeat constructor; discriminate.
  - rewrite !length_app. cbn. lia.
Qed.

Lemma In_kept w f l : In f (kept w l) -> In f l.
Proof. unfold kept. intros H. apply filter_In in H. tauto. Qed.

(** Where the documents of the page loop go, and under which names. *)
Lemma page_files_located pages d base S f :
  no_slash base -> In f (page_files pages d base S) ->
  parent (fst f) = d
  /\ exists k, 1 <= k
       /\ name (fst f) = base ++ lit "_chunk_" ++ Str.fmt_03d k ++ lit ".pdf".
Proof.
  intros Hb Hf. unfold page_files in Hf.
  destruct (In_filter_map _ _ f Hf) as (c & Hc & Hfile).
  unfold page_plan in Hc. apply in_map_iff in Hc.
  destruct Hc as (k & <- & Hk). apply In_range in Hk.
  unfold page_file in Hfile. destruct (add_pages _ _); [| discriminate].
  injection Hfile as <-. cbn [fst page_range index].
  split; [apply parent_join, page_file_name, Hb |].
  exists (k + 1). split; [lia |]. apply name_join, page_file_name, Hb.
Qed.

(** Where the documents of the chapter loop go. *)
Lemma chapter_files_located pages d base toc f :
  In f (chapter_files pages d base toc) -> parent (fst f) = d.
Proof.
  intros Hf. unfold chapter_files in Hf.
  destruct (In_filter_map _ _ f Hf) as (c & _ & Hfile).
  unfold chapter_file in Hfile. destruct (add_pages _ _); [| discriminate].
  injection Hfile as <-. cbn [fst]. apply parent_join, chapter_file_name.
Qed.

(** ** Where the output goes *)

Lemma planned_files_located doc args f :
  In f (planned_files doc args) ->
  Forall (fun d => parent (fst f) = d) (made_dirs doc args).
Proof.
  unfold planned_files, made_dirs. intros Hf.
  pose proof (stem_no_slash (input_pdf args)) as Hb.
  destruct (mode args).
  - destruct (detected_toc doc) as [| e toc].
    + destruct (page_files_located _ _ _ _ f Hb Hf) as [Hp _].
      now repeat constructor.
    + pose proof (chapter_files_located _ _ _ _ f Hf). now repeat constructor.
  - destruct (page_files_located _ _ _ _ f Hb Hf) as [Hp _].
    now repeat constructor.
Qed.

(** C8, as the code has it. With [--output out], chapter mode creates and
    fills [out/<base>_chapters]; page mode creates and fills [out] itself,
    with no subfolder. *)
Theorem output_directory_by_mode :
  forall w args out doc fs,
    output args = Some out ->
    exists_ w (parse (input_pdf args)) = true ->
    PdfReader w (parse (input_pdf args)) = Some doc ->
    ~ (mode args = pages_ /\ size args = 0) ->
    let base := stem (parse (input_pdf args)) in
    let d := match mode args with
             | chapters => parse out // S_ (base ++ lit "_chapters")
             | pages_ => parse out
             end in
    exists ds new,
      snd (main w args fs) = after fs ds new
      /\ ds <> [] /\ Forall (eq d) ds
      /\ Forall (fun f => parent (fst f) = d) new.
Proof.
  intros w args out doc fs Ho He Hr Hz base d.
  rewrite (main_completes w args fs doc He Hr Hz). cbn [snd].
  exists (made_dirs doc args), (kept w (planned_files doc args)).
  split; [reflexivity |].
  assert (Hd : made_dirs doc args = [d] \/ made_dirs doc args = [d; d]).
  { unfold made_dirs, d, base, chapters_dir, pages_dir. rewrite Ho.
    destruct (mode args); [| now left].
    destruct (detected_toc doc); [now right | now left]. }
  split; [destruct Hd as [-> | ->]; discriminate |].
  split; [destruct Hd as [-> | ->]; repeat constructor |].
  apply Forall_forall. intros f Hf. apply In_kept in Hf.
  pose proof (planned_files_located doc args f Hf) as Hall.
  destruct Hd as [E | E]; rewrite E in Hall; now apply Forall_inv in Hall.
Qed.

Lemma output_directory_by_mode_witness :
  let w := Examples.holding Examples.no_contents in
  output Examples.args_pages = Some (lit "out")
  /\ exists_ w (parse (input_pdf Examples.args_pages)) = true
  /\ PdfReader w (parse (input_pdf Examples.args_pages))
     = Some Examples.no_contents
  /\ ~ (mode Examples.args_pages = pages_ /\ size Examples.args_pages = 0)
  /\ exists ds new,
       snd (main w Examples.args_pages empty_fs) = after empty_fs ds new
       /\ ds <> [] /\ Forall (eq (parse (lit "out"))) ds
       /\ Forall (fun f => parent (fst f) = parse (lit "out")) new.
Proof.
  intros w.
  assert (Hz : ~ (mode Examples.args_pages = pages_
                  /\ size Examples.args_pages = 0))
    by (intros [_ H]; discriminate).
  split; [reflexivity |]. split; [reflexivity |]. split; [reflexivity |].
  split; [exact Hz |].
  exact (output_directory_by_mode w Examples.args_pages (lit "out")
           Examples.no_contents empty_fs eq_refl eq_refl eq_refl Hz).
Defined.

(** C8 as stated fails in page mode: with [--output out] the run for
    [book.pdf] creates [out] and writes [out/book_chunk_001.pdf]; there is
    no [out/book_pages]. *)
Lemma pages_mode_adds_no_subfolder :
  let r := main (Examples.holding Examples.no_contents)
                Examples.args_pages empty_fs in
  dirs (snd r) = [parse (lit "out")]
  /\ dirs (snd r) <> [parse (lit "out") // S_ (lit "book_pages")]
  /\ Examples.written r = [parse (lit "out/book_chunk_001.pdf")].
Proof.
  split; [vm_compute; reflexivity |]. split.
  - intros H. vm_compute in H. discriminate.
  - vm_compute. reflexivity.
Qed.

Lemma map_fst_filter_map {A B C} (f : A -> option (B * C)) (g : A -> B)
      (l : list A) :
  (forall x, In x l -> exists y, f x = Some y /\ fst y = g x) ->
  map fst (filter_map f l) = map g l.
Proof.
  induction l as [| x l IH]; intros H; [reflexivity |].
  cbn [filter_map map].
  destruct (H x (or_introl eq_refl)) as (y & -> & <-).
  cbn [map]. f_equal. apply IH. intros z Hz. apply H. now right.
Qed.

(** The paths of the documents of the page loop: one for each chunk
    number, in order. *)
Lemma page_files_paths pages d base S :
  map fst (page_files pages d base S)
  = map (fun k => d // S_ (base ++ lit "_chunk_" ++ Str.fmt_03d (k + 1)
                             ++ lit ".pdf"))
        (range 0 (num_chunks (total_pages pages) S)).
Proof.
  unfold page_files, page_plan.
  rewrite (map_fst_filter_map _
             (fun c => d // S_ (base ++ lit "_chunk_" ++ Str.fmt_03d (index c)
                                  ++ lit ".pdf"))).
  - now rewrite map_map.
  - intros c Hc.
    pose proof (page_file_some pages d base
                  (num_chunks (total_pages pages) S) S c Hc) as Hsome.
    unfold page_file in *.
    destruct (add_pages pages (range (startPage c) (endPage c)));
      [| contradiction].
    eexists. split; reflexivity.
Qed.

(** The directories above [d / c] are [d] and those above it. *)
Lemma ancestors_join d c :
  component c ->
  Disk.ancestors (d // S_ c)
  = match parts d with
    | [] => []
    | _ => Disk.ensured d
    end.
Proof.
  intros Hc. rewrite (join_component d c Hc).
  unfold Disk.ensured, Disk.ancestors. cbn [parts absolute].
  rewrite length_app. cbn [List.length].
  replace (List.length (parts d) + 1 - 1)%nat with (List.length (parts d))
    by lia.
  assert (Hmap : forall m, (m <= List.length (parts d))%nat ->
            map (fun n => {| absolute := absolute d;
                             parts := firstn n (parts d ++ [c]) |})
                (seq 1 m)
            = map (fun n => {| absolute := absolute d;
                               parts := firstn n (parts d) |})
                  (seq 1 m)).
  { intros m Hm. apply map_ext_in. intros n Hn. apply in_seq in Hn.
    rewrite firstn_app.
    replace (n - List.length (parts d))%nat with 0%nat by lia.
    cbn [firstn]. now rewrite app_nil_r. }
  rewrite Hmap by lia.
  destruct d as [ab ps]. cbn [parts absolute].
  destruct ps as [| a l]; [reflexivity |].
  cbn [List.length]. replace (S (List.length l) - 1)%nat
    with (List.length l) by lia.
  rewrite seq_S, map_app. cbn [map]. f_equal.
  change (1 + List.length l)%nat with (List.length (a :: l)).
  now rewrite firstn_all.
Qed.

(** C10, as the code has it. When chapter mode finds no TOC entry, both
    [mkdir] calls of the run are for the chapter directory
    [<base>_chapters] under the chosen parent, and what they create is
    that directory and the directories above it, which are those of the
    chosen parent; the page-mode directory is never derived. The
    documents planned are those of the page loop for 99 pages per chunk,
    one for each chunk number, each directly in the chapter directory
    under the name [<base>_chunk_NNN.pdf]; the run writes them there in
    order, leaving out those that cannot be written, up to the first one
    whose assembling raises. *)
Theorem fallback_writes_into_chapters_dir :
  forall h input out doc fs,
    let w := Disk.world h in
    let base := stem (parse input) in
    let above := match out with
                 | None => parent (parse input)
                 | Some o => parse o
                 end in
    let d := chapters_dir (parse input) out in
    let planned := page_files doc d base 99 in
    exists_ w (parse input) = true ->
    PdfReader w (parse input) = Some doc ->
    detected_toc doc = [] ->
    Disk.mkdir_fails h d = false ->
    Disk.split_by_chapters h (S_ input) (option_map S_ out) fs
    = (loop_outcome h planned,
       after fs (Disk.ensured d ++ Disk.ensured d)
         (kept w (assembled h planned)))
    /\ map fst planned
       = map (fun k => d // S_ (base ++ lit "_chunk_" ++ Str.fmt_03d (k + 1)
                                  ++ lit ".pdf"))
             (range 0 (num_chunks (total_pages doc) 99))
    /\ Forall (fun f =>
                 parent (fst f) = d
                 /\ exists k, 1 <= k
                      /\ name (fst f)
                         = base ++ lit "_chunk_" ++ Str.fmt_03d k
                             ++ lit ".pdf") planned
    /\ name d = base ++ lit "_chapters"
    /\ name d <> base ++ lit "_pages"
    /\ parent d = above
    /\ d <> pages_dir (parse input) None
    /\ Disk.ancestors d = match parts above with
                          | [] => []
                          | _ => Disk.ensured above
                          end.
Proof.
  intros h input out doc fs w base above d planned He Hr Htoc Hmk.
  pose proof (disk_split_by_chapters_runs h input doc He Hr out fs Hmk)
    as Hrun.
  rewrite Htoc in Hrun. fold d base w planned in Hrun.
  pose proof (stem_no_slash input) as Hb. fold base in Hb.
  assert (Hcomp : component (base ++ lit "_chapters")).
  { apply suffixed_component; [exact Hb | | cbn; lia].
    repeat constructor; discriminate. }
  assert (Hd : d = above // S_ (base ++ lit "_chapters"))
    by (unfold d, chapters_dir, above; now destruct out).
  assert (Hname : name d = base ++ lit "_chapters")
    by (rewrite Hd; now apply name_join).
  assert (Hdiff : base ++ lit "_chapters" <> base ++ lit "_pages").
  { intros E. apply app_inv_head in E. discriminate. }
  split; [exact Hrun |].
  split; [apply page_files_paths |].
  split.
  { apply Forall_forall. intros f Hf.
    now apply page_files_located with doc 99. }
  split; [exact Hname |]. split; [now rewrite Hname |].
  split; [rewrite Hd; now apply parent_join |].
  split.
  - intros E. apply Hdiff. rewrite <- Hname, E.
    unfold pages_dir. fold base. apply name_join.
    apply suffixed_component; [exact Hb | | cbn; lia].
    repeat constructor; discriminate.
  - rewrite Hd. now apply ancestors_join.
Qed.

Lemma fallback_writes_into_chapters_dir_witness :
  let h := Disk.calm (Examples.holding Examples.no_contents) in
  let r := Disk.split_by_chapters h (S_ Examples.book_pdf)
             (option_map S_ (Some (lit "out"))) empty_fs in
  exists_ (Disk.world h) (parse Examples.book_pdf) = true
  /\ PdfReader (Disk.world h) (parse Examples.book_pdf)
     = Some Examples.no_contents
  /\ detected_toc Examples.no_contents = []
  /\ Disk.mkdir_fails h (chapters_dir (parse Examples.book_pdf)
                                      (Some (lit "out"))) = false
  /\ fst r = Ret [parse (lit "out/book_chapters/book_chunk_001.pdf")]
  /\ dirs (snd r) = [parse (lit "out"); parse (lit "out/book_chapters");
                     parse (lit "out"); parse (lit "out/book_chapters")]
  /\ map fst (files (snd r))
     = [parse (lit "out/book_chapters/book_chunk_001.pdf")].
Proof.
  intros h r.
  assert (Ht : detected_toc Examples.no_contents = [])
    by (vm_compute; reflexivity).
  split; [reflexivity |]. split; [reflexivity |]. split; [exact Ht |].
  split; [reflexivity |].
  destruct (fallback_writes_into_chapters_dir h Examples.book_pdf
              (Some (lit "out")) Examples.no_contents empty_fs
              eq_refl eq_refl Ht eq_refl) as (Hrun & _).
  unfold r. rewrite Hrun.
  split; [vm_compute; reflexivity |].
  split; vm_compute; reflexivity.
Defined.

(** C10 as stated fails in its last part: [mkdir(parents=True)] creates
    the directories above the chapter directory as well, so the fallback
    run for [book.pdf] with [--output book_pages] creates a directory
    named [book_pages], the very directory page mode would use by
    default, and puts [book_chapters] with the page-style file into it. *)
Lemma fallback_creates_a_pages_directory :
  let h := Disk.calm (Examples.holding Examples.no_contents) in
  let r := Disk.split_by_chapters h (S_ Examples.book_pdf)
             (Some (S_ (lit "book_pages"))) empty_fs in
  detected_toc Examples.no_contents = []
  /\ In (parse (lit "book_pages")) (dirs (snd r))
  /\ name (parse (lit "book_pages"))
     = stem (parse Examples.book_pdf) ++ lit "_pages"
  /\ parse (lit "book_pages") = pages_dir (parse Examples.book_pdf) None
  /\ map fst (files (snd r))
     = [parse (lit "book_pages/book_chapters/book_chunk_001.pdf")].
Proof.
  split; [vm_compute; reflexivity |].
  split; [vm_compute; now left |].
  split; [vm_compute; reflexivity |].
  split; vm_compute; reflexivity.
Qed.

(** ** What the Locator hands to the planner *)

Lemma insert_entry_Forall (P : TocEntry -> Prop) e l :
  P e -> Forall P l -> Forall P (insert_entry e l).
Proof.
  intros He Hl. induction Hl as [| h t Hh Ht IH]; cbn [insert_entry].
  - now constructor.
  - destruct (page e <=? page h); repeat constructor; assumption.
Qed.

Lemma insert_entry_sorted e l :
  StronglySorted by_page l -> StronglySorted by_page (insert_entry e l).
Proof.
  induction 1 as [| h t Hs IH Hall]; cbn [insert_entry].
  - repeat constructor.
  - destruct (Z.leb_spec (page e) (page h)) as [Hle | Hgt].
    + constructor; [now constructor |].
      constructor; [exact Hle |].
      eapply Forall_impl; [| exact Hall]. unfold by_page. intros a Ha. lia.
    + constructor; [exact IH |].
      apply insert_entry_Forall; [unfold by_page; lia | exact Hall].
Qed.

Lemma sorted_by_page l : StronglySorted by_page (sorted l).
Proof.
  induction l as [| e l IH]; [constructor |].
  cbn [sorted fold_right]. now apply insert_entry_sorted.
Qed.

Lemma detected_toc_sorted doc : StronglySorted by_page (detected_toc doc).
Proof.
  unfold detected_toc. destruct (toc_found _); [| constructor].
  apply sorted_by_page.
Qed.

(** The hypothesis of the range invariant holds of every list the chapter
    loop is run on. *)
Lemma detected_plan_contiguous doc :
  let plan := chapter_plan (detected_toc doc) (total_pages doc) in
  Forall (well_formed (total_pages doc)) plan
  /\ contiguous plan /\ non_overlapping plan.
Proof.
  intros plan. unfold plan. rewrite chapter_plan_unrolled.
  pose proof (plan_from_well_formed 0 (detected_toc doc) (total_pages doc)).
  pose proof (plan_from_contiguous 0 (detected_toc doc) (total_pages doc)
                (detected_toc_sorted doc)).
  repeat split; try assumption.
  now apply contiguous_non_overlapping with (total_pages doc).
Qed.

(* ------------------------------------------------------------------ *)
(** * Further properties of the code *)

(** ** What [extract_toc_from_text] returns *)

Lemma entry_eqb_eq a b : entry_eqb a b = true <-> a = b.
Proof.
  unfold entry_eqb. rewrite andb_true_iff, str_eqb_eq, Z.eqb_eq.
  destruct a, b; cbn. split; [intros [-> ->]; reflexivity |].
  intros H; inversion H; auto.
Qed.

Lemma seen_spec e seen : existsb (entry_eqb e) seen = true <-> In e seen.
Proof.
  rewrite existsb_exists. split.
  - intros (x & Hx & He). apply entry_eqb_eq in He. now subst.
  - intros H. exists e. split; [exact H | now apply entry_eqb_eq].
Qed.

Lemma In_unique_entries e seen l :
  In e (unique_entries seen l) <-> In e l /\ ~ In e seen.
Proof.
  revert seen. induction l as [| x l IH]; intros seen; cbn [unique_entries].
  - cbn. tauto.
  - destruct (existsb (entry_eqb x) seen) eqn:E.
    + apply seen_spec in E. rewrite IH. cbn [In].
      split; [tauto |]. intros [[-> | H] Hn]; tauto.
    + assert (Hx : ~ In x seen).
      { intros H. apply seen_spec in H. congruence. }
      cbn [In]. rewrite IH. cbn [In].
      destruct (entry_eqb x e) eqn:Exe.
      * apply entry_eqb_eq in Exe. subst. tauto.
      * assert (x <> e) by (intros H; apply entry_eqb_eq in H; congruence).
        tauto.
Qed.

Lemma unique_entries_NoDup seen l : NoDup (unique_entries seen l).
Proof.
  revert seen. induction l as [| x l IH]; intros seen; cbn [unique_entries].
  - constructor.
  - destruct (existsb (entry_eqb x) seen); [apply IH |].
    constructor; [| apply IH].
    rewrite In_unique_entries. cbn [In]. tauto.
Qed.

Lemma insert_entry_perm e l : Permutation (e :: l) (insert_entry e l).
Proof.
  induction l as [| h t IH]; cbn [insert_entry]; [reflexivity |].
  destruct (page e <=? page h); [reflexivity |].
  rewrite perm_swap. now constructor.
Qed.

Lemma sorted_perm l : Permutation l (sorted l).
Proof.
  induction l as [| e l IH]; [constructor |].
  cbn [sorted fold_right]. rewrite <- insert_entry_perm. now constructor.
Qed.

Lemma In_extract_toc text e :
  In e (extract_toc_from_text text) <-> In e (scanned_entries text).
Proof.
  unfold extract_toc_from_text, scanned_entries. split.
  - intros H. apply (Permutation_in _ (Permutation_sym (sorted_perm _))) in H.
    apply In_unique_entries in H. tauto.
  - intros H. apply (Permutation_in _ (sorted_perm _)).
    apply In_unique_entries. cbn [In]. tauto.
Qed.

(** X1. The list [extract_toc_from_text] returns holds exactly the pairs
    accepted from the lines of the text: nothing is invented, nothing
    accepted is lost, and no pair appears twice. *)
Theorem extract_toc_exactly_the_accepted :
  forall text,
    NoDup (extract_toc_from_text text)
    /\ forall e,
         In e (extract_toc_from_text text)
         <-> exists line, In line (Str.split "010"%char text)
                          /\ scan_line line = Some e.
Proof.
  intros text. split.
  - unfold extract_toc_from_text.
    eapply Permutation_NoDup; [apply sorted_perm |].
    apply unique_entries_NoDup.
  - intros e. rewrite In_extract_toc. unfold scanned_entries.
    apply In_filter_map_iff.
Qed.

Lemma filter_insert_entry p e l :
  filter (on_page p) (insert_entry e l) = filter (on_page p) (e :: l).
Proof.
  induction l as [| h t IH]; cbn [insert_entry]; [reflexivity |].
  destruct (Z.leb_spec (page e) (page h)) as [Hle | Hgt]; [reflexivity |].
  cbn [filter] in *. rewrite IH. unfold on_page.
  destruct (Z.eqb_spec (page e) p), (Z.eqb_spec (page h) p);
    try reflexivity. lia.
Qed.

Lemma filter_sorted p l :
  filter (on_page p) (sorted l) = filter (on_page p) l.
Proof.
  induction l as [| e l IH]; [reflexivity |].
  cbn [sorted fold_right]. rewrite filter_insert_entry.
  cbn [filter]. fold (sorted l). now rewrite IH.
Qed.

Lemma unique_entries_seen seen1 seen2 l :
  (forall y, In y l -> (In y seen1 <-> In y seen2)) ->
  unique_entries seen1 l = unique_entries seen2 l.
Proof.
  revert seen1 seen2. induction l as [| x l IH]; intros seen1 seen2 H;
    [reflexivity |].
  cbn [unique_entries].
  assert (E : existsb (entry_eqb x) seen1 = existsb (entry_eqb x) seen2).
  { apply eq_true_iff_eq. rewrite !seen_spec. apply H. now left. }
  rewrite E. destruct (existsb (entry_eqb x) seen2).
  - apply IH. intros y Hy. apply H. now right.
  - f_equal. apply IH. intros y Hy. cbn [In].
    specialize (H y (or_intror Hy)). tauto.
Qed.

Lemma filter_unique_entries p seen l :
  filter (on_page p) (unique_entries seen l)
  = unique_entries seen (filter (on_page p) l).
Proof.
  revert seen. induction l as [| x l IH]; intros seen; [reflexivity |].
  cbn [unique_entries filter].
  destruct (existsb (entry_eqb x) seen) eqn:E.
  - rewrite IH. destruct (on_page p x) eqn:Ep; [| reflexivity].
    cbn [unique_entries]. now rewrite E.
  - cbn [filter]. rewrite IH. destruct (on_page p x) eqn:Ep.
    + cbn [unique_entries]. now rewrite E.
    + apply unique_entries_seen. intros y Hy. cbn [In].
      apply filter_In in Hy. destruct Hy as [_ Hy].
      split; [| tauto]. intros [-> | H]; [congruence | exact H].
Qed.

(** X2. Whatever the text, the entries come back in ascending page order,
    and the entries of one page come back in the order in which the text
    first shows them. *)
Theorem extract_toc_ascending_and_stable :
  forall text,
    StronglySorted by_page (extract_toc_from_text text)
    /\ forall p,
         filter (on_page p) (extract_toc_from_text text)
         = unique_entries [] (filter (on_page p) (scanned_entries text)).
Proof.
  intros text. split; [apply sorted_by_page |].
  intros p. unfold extract_toc_from_text. fold (scanned_entries text).
  now rewrite filter_sorted, filter_unique_entries.
Qed.

(** ** Trimming *)

Lemma lstrip_trimmed_head s :
  Str.lstrip s = []
  \/ exists c t, Str.lstrip s = c :: t /\ Str.isspace c = false.
Proof.
  induction s as [| c s IH]; [now left |].
  cbn [Str.lstrip]. destruct (Str.isspace c) eqn:E; [exact IH |].
  right. now exists c, s.
Qed.

Lemma lstrip_idem s : Str.lstrip (Str.lstrip s) = Str.lstrip s.
Proof.
  destruct (lstrip_trimmed_head s) as [-> | (c & t & -> & Hc)];
    [reflexivity |].
  cbn [Str.lstrip]. now rewrite Hc.
Qed.

Lemma lstrip_snoc u c :
  Str.isspace c = false -> Str.lstrip (u ++ [c]) = Str.lstrip u ++ [c].
Proof.
  intros Hc. induction u as [| a u IH]; cbn [app Str.lstrip].
  - now rewrite Hc.
  - destruct (Str.isspace a); [exact IH | reflexivity].
Qed.

Lemma strip_trimmed s : trimmed (Str.strip s).
Proof.
  unfold trimmed, Str.strip, Str.rstrip. split.
  - destruct (lstrip_trimmed_head s) as [-> | (c & t & -> & Hc)];
      [reflexivity |].
    cbn [rev]. rewrite (lstrip_snoc _ c Hc), rev_app_distr.
    cbn [rev app Str.lstrip]. now rewrite Hc.
  - now rewrite rev_involutive, lstrip_idem.
Qed.

Lemma trimmed_strip s : trimmed s -> Str.strip s = s.
Proof.
  intros [H1 H2]. unfold Str.strip, Str.rstrip.
  now rewrite H1, H2, rev_involutive.
Qed.

Lemma try_pattern_title p line e :
  try_pattern p line = Some e -> exists x, fst e = Str.strip x.
Proof.
  unfold try_pattern. intros H.
  destruct (Re.search p line) as [g |]; [| discriminate].
  destruct g as [| a [| b [| c [| d g]]]]; try discriminate;
    destruct (Str.int _) as [n |]; try discriminate;
    destruct (reasonable n); try discriminate;
    inversion H; subst; cbn [fst]; eauto.
Qed.

Lemma try_patterns_Some ps line e :
  try_patterns ps line = Some e ->
  exists p, In p ps /\ try_pattern p line = Some e.
Proof.
  induction ps as [| p ps IH]; cbn [try_patterns]; [discriminate |].
  destruct (try_pattern p line) as [e' |] eqn:E.
  - intros H. injection H as <-. exists p. split; [now left | exact E].
  - intros H. destruct (IH H) as (q & Hq & Hp).
    exists q. split; [now right | exact Hp].
Qed.

Lemma scan_line_Some raw e :
  scan_line raw = Some e ->
  (5 <= List.length (Str.strip raw))%nat
  /\ exists p, In p toc_patterns
               /\ try_pattern p (Str.strip raw) = Some e.
Proof.
  unfold scan_line.
  destruct (Nat.ltb_spec (List.length (Str.strip raw)) 5) as [| Hlen];
    [discriminate |].
  intros Hp. split; [exact Hlen |]. now apply try_patterns_Some.
Qed.

(** X3. Every entry [extract_toc_from_text] returns has a page number
    between 1 and 10000 and a title without white space at either end. *)
Theorem extract_toc_entries_clean :
  forall text e,
    In e (extract_toc_from_text text) ->
    1 <= page e <= 10000 /\ Str.strip (fst e) = fst e.
Proof.
  intros text e He. apply In_extract_toc in He.
  unfold scanned_entries in He.
  destruct (In_filter_map _ _ e He) as (line & _ & Hline).
  destruct (scan_line_Some line e Hline) as (_ & p & _ & Hp).
  split.
  - destruct (try_pattern_page_of p _ e Hp) as (g & _ & _ & Hr).
    now apply reasonable_spec.
  - destruct (try_pattern_title p _ e Hp) as (x & ->).
    apply trimmed_strip, strip_trimmed.
Qed.

Lemma extract_toc_entries_clean_witness :
  In (lit "Sales .... 20000", 7) (extract_toc_from_text Examples.sales_line)
  /\ 1 <= 7 <= 10000.
Proof.
  assert (H : In (lit "Sales .... 20000", 7)
                 (extract_toc_from_text Examples.sales_line))
    by (vm_compute; now left).
  split; [exact H |].
  exact (proj1 (extract_toc_entries_clean Examples.sales_line _ H)).
Defined.

(** ** How the matcher fails and succeeds *)

Section Matcher.
Import Re.
Variable K : str -> str -> list str -> option result.

Lemma rep_greedy_fails k lo hi (P : ascii -> Prop) :
  (forall s cur acc, Forall P s -> K s cur acc = None) ->
  forall s n cur acc,
    Forall P s -> rep_greedy K k lo hi s n cur acc = None.
Proof.
  intros HK s. induction s as [| c s IH]; intros n cur acc Hs;
    cbn [rep_greedy].
  - rewrite (HK [] cur acc Hs). now destruct (lo <=? n)%nat.
  - rewrite (HK (c :: s) cur acc Hs).
    inversion Hs; subst. rewrite IH by assumption.
    now destruct (cmatch k c && below hi n), (lo <=? n)%nat.
Qed.

Lemma rep_lazy_fails k lo hi (P : ascii -> Prop) :
  (forall s cur acc, Forall P s -> K s cur acc = None) ->
  forall s n cur acc,
    Forall P s -> rep_lazy K k lo hi s n cur acc = None.
Proof.
  intros HK s. induction s as [| c s IH]; intros n cur acc Hs;
    cbn [rep_lazy].
  - rewrite (HK [] cur acc Hs). now destruct (lo <=? n)%nat.
  - rewrite (HK (c :: s) cur acc Hs).
    inversion Hs; subst. rewrite IH by assumption.
    now destruct (cmatch k c && below hi n), (lo <=? n)%nat.
Qed.

(** A greedy run over [u] that must stop at [c] fails when the rest of
    the pattern fails wherever the run may stop. *)
Lemma rep_greedy_blocked k lo hi u c rest :
  cmatch k c = false ->
  (forall u1 u2 cur acc, u = u1 ++ u2 -> K (u2 ++ c :: rest) cur acc = None) ->
  forall n cur acc, rep_greedy K k lo hi (u ++ c :: rest) n cur acc = None.
Proof.
  intros Hc. induction u as [| a u IH]; intros HK n cur acc;
    cbn [app rep_greedy].
  - rewrite Hc. cbn [andb].
    pose proof (HK [] [] cur acc eq_refl) as H0. cbn [app] in H0.
    rewrite H0. now destruct (lo <=? n)%nat.
  - pose proof (HK [] (a :: u) cur acc eq_refl) as H0. cbn [app] in H0.
    rewrite H0. rewrite IH.
    + now destruct (cmatch k a && below hi n), (lo <=? n)%nat.
    + intros u1 u2 cur' acc' E. apply (HK (a :: u1) u2). now rewrite E.
Qed.

(** A greedy unbounded run takes all of [u] when it must stop after it and
    the rest of the pattern matches there. *)
Lemma rep_greedy_takes k lo u rest r :
  Forall (fun c => cmatch k c = true) u -> stops k rest ->
  forall n cur acc,
    (lo <= n + List.length u)%nat ->
    K rest (rev u ++ cur) acc = Some r ->
    rep_greedy K k lo None (u ++ rest) n cur acc = Some r.
Proof.
  intros Hu Hrest. induction Hu as [| c u Hc _ IH]; intros n cur acc Hlo HK.
  - cbn [app rev List.length] in *.
    assert (E : (lo <=? n)%nat = true) by (apply Nat.leb_le; lia).
    destruct rest as [| c rest]; cbn [rep_greedy].
    + now rewrite E.
    + cbn [stops] in Hrest. rewrite Hrest. cbn [andb]. now rewrite E.
  - cbn [app rep_greedy]. rewrite Hc. cbn [below andb].
    rewrite (IH (S n) (c :: cur) acc); [reflexivity | cbn in Hlo; lia |].
    cbn [rev] in HK. now rewrite <- app_assoc in HK.
Qed.

(** A lazy unbounded run reaches the end of [t] when the rest of the
    pattern fails at every earlier stop and matches there. *)
Lemma rep_lazy_reaches k lo t rest r :
  Forall (fun c => cmatch k c = true) t ->
  forall n cur acc,
    (forall t1 t2, t = t1 ++ t2 -> t2 <> [] ->
                   K (t2 ++ rest) (rev t1 ++ cur) acc = None) ->
    (lo <= n + List.length t)%nat ->
    K rest (rev t ++ cur) acc = Some r ->
    rep_lazy K k lo None (t ++ rest) n cur acc = Some r.
Proof.
  induction 1 as [| c t Hc _ IH]; intros n cur acc Hfail Hlo HK.
  - cbn [app rev List.length] in *.
    assert (E : (lo <=? n)%nat = true) by (apply Nat.leb_le; lia).
    destruct rest; cbn [rep_lazy]; now rewrite E, HK.
  - cbn [app rep_lazy].
    pose proof (Hfail [] (c :: t) eq_refl ltac:(discriminate)) as H0.
    cbn [app rev] in H0. rewrite H0.
    rewrite Hc. cbn [below andb].
    assert (IH' := IH (S n) (c :: cur) acc).
    rewrite IH'; [now destruct (lo <=? n)%nat | | cbn in Hlo; lia |].
    + intros t1 t2 E Hne.
      specialize (Hfail (c :: t1) t2). cbn [rev] in Hfail.
      rewrite <- app_assoc in Hfail. apply Hfail; [now rewrite E | exact Hne].
    + cbn [rev] in HK. now rewrite <- app_assoc in HK.
Qed.

End Matcher.

Lemma run_needs k p :
  Exists (demands k) p ->
  forall s cur acc,
    Forall (fun c => Re.cmatch k c = false) s -> Re.run p s cur acc = None.
Proof.
  induction 1 as [nd p Hnd | nd p _ IH]; intros s cur acc Hs.
  - destruct nd as [k' lo hi g | | |]; cbn [demands] in Hnd;
      try contradiction.
    destruct Hnd as [-> Hlo].
    assert (E : (lo <=? 0)%nat = false) by (apply Nat.leb_gt; lia).
    destruct g; cbn [Re.run]; destruct s as [| c s];
      cbn [Re.rep_greedy Re.rep_lazy]; rewrite E; try reflexivity;
      inversion Hs as [| ? ? Hc]; subst; now rewrite Hc.
  - destruct nd as [k' lo hi g | | |]; cbn [Re.run].
    + destruct g.
      * now apply rep_greedy_fails
          with (P := fun c => Re.cmatch k c = false).
      * now apply rep_lazy_fails
          with (P := fun c => Re.cmatch k c = false).
    + now apply IH.
    + now apply IH.
    + destruct (Re.at_end s); [now apply IH | reflexivity].
Qed.

Lemma search_needs k p s :
  Exists (demands k) p ->
  Forall (fun c => Re.cmatch k c = false) s -> Re.search p s = None.
Proof.
  intros Hp Hs. induction Hs as [| c s Hc Hs IH]; cbn [Re.search];
    unfold Re.match_.
  - now rewrite (run_needs k p Hp [] [] []).
  - rewrite (run_needs k p Hp (c :: s) [] []) by now constructor.
    exact IH.
Qed.

Lemma try_pattern_needs k p line :
  Exists (demands k) p ->
  Forall (fun c => Re.cmatch k c = false) line -> try_pattern p line = None.
Proof.
  intros Hp Hs. unfold try_pattern. now rewrite (search_needs k p line Hp Hs).
Qed.

Ltac find_demand nd :=
  apply Exists_exists; exists nd; split;
  [ cbn; repeat (first [left; reflexivity | right])
  | cbn; split; [reflexivity | lia] ].

Ltac each_pattern tac :=
  unfold toc_patterns;
  repeat (apply Forall_cons; [tac |]); apply Forall_nil.

Lemma toc_patterns_demand_digit :
  Forall (Exists (demands Re.Digit)) toc_patterns.
Proof.
  each_pattern ltac:(find_demand (Re.plus Re.Digit)).
Qed.

Lemma toc_patterns_demand_space :
  Forall (Exists (demands Re.Space)) toc_patterns.
Proof.
  each_pattern ltac:(find_demand (Re.plus Re.Space)).
Qed.

Lemma try_patterns_need k line :
  Forall (Exists (demands k)) toc_patterns ->
  Forall (fun c => Re.cmatch k c = false) line ->
  try_patterns toc_patterns line = None.
Proof.
  intros Hp Hs. apply try_patterns_None.
  eapply Forall_impl; [| exact Hp]. cbn beta. intros p Hd.
  now apply try_pattern_needs with k.
Qed.

Lemma Forall_or_Exists (f : ascii -> bool) (s : str) :
  Forall (fun c => f c = false) s \/ Exists (fun c => f c = true) s.
Proof.
  induction s as [| c s [IH | IH]]; [left; constructor | |].
  - destruct (f c) eqn:E; [right; now left | left; now constructor].
  - right. now right.
Qed.

Lemma split_Forall (P : ascii -> Prop) sep s :
  Forall P s -> Forall (Forall P) (Str.split sep s).
Proof.
  induction 1 as [| c s Hc _ IH]; cbn [Str.split]; [repeat constructor |].
  destruct (Ascii.eqb c sep); [constructor; [constructor | exact IH] |].
  destruct (Str.split sep s) as [| l ls];
    [repeat constructor; assumption |].
  inversion IH; subst. constructor; [now constructor | assumption].
Qed.

(** X4. A line gives an entry only if, once trimmed, it has at least five
    characters, a digit and a white-space character in it; so a text
    without any digit yields no entry at all. *)
Theorem entries_need_digit_and_space :
  (forall raw e,
      scan_line raw = Some e ->
      (5 <= List.length (Str.strip raw))%nat
      /\ Exists is_digit (Str.strip raw)
      /\ Exists is_space (Str.strip raw))
  /\ (forall text,
        Forall (fun c => Str.isdigit c = false) text ->
        extract_toc_from_text text = []).
Proof.
  assert (Hline : forall raw e,
             scan_line raw = Some e ->
             (5 <= List.length (Str.strip raw))%nat
             /\ Exists is_digit (Str.strip raw)
             /\ Exists is_space (Str.strip raw)).
  { intros raw e H. unfold scan_line in H.
    destruct (Nat.ltb_spec (List.length (Str.strip raw)) 5) as [| Hlen];
      [discriminate |].
    split; [exact Hlen |]. split.
    - destruct (Forall_or_Exists Str.isdigit (Str.strip raw)) as [Hn | Hy];
        [| exact Hy].
      rewrite (try_patterns_need Re.Digit _ toc_patterns_demand_digit Hn) in H.
      discriminate.
    - destruct (Forall_or_Exists Str.isspace (Str.strip raw)) as [Hn | Hy];
        [| exact Hy].
      rewrite (try_patterns_need Re.Space _ toc_patterns_demand_space Hn) in H.
      discriminate. }
  split; [exact Hline |].
  intros text Htext. unfold extract_toc_from_text.
  rewrite filter_map_none; [reflexivity |].
  pose proof (split_Forall _ "010"%char text Htext) as Hsplit.
  eapply Forall_impl; [| exact Hsplit]. cbn beta. intros line Hl.
  destruct (scan_line line) as [e |] eqn:E; [| reflexivity].
  destruct (Hline line e E) as (_ & Hd & _).
  apply Exists_exists in Hd. destruct Hd as (c & Hin & Hc).
  pose proof (strip_Forall _ line Hl) as Hs.
  rewrite Forall_forall in Hs. specialize (Hs c Hin).
  unfold is_digit in Hc. congruence.
Qed.

Lemma entries_need_digit_and_space_witness :
  Forall (fun c => Str.isdigit c = false)
         (Examples.lines ["Contents"; "Introduction ..... vii"]%string)
  /\ extract_toc_from_text
       (Examples.lines ["Contents"; "Introduction ..... vii"]%string) = [].
Proof.
  assert (H : Forall (fun c => Str.isdigit c = false)
                (Examples.lines ["Contents"; "Introduction ..... vii"]%string))
    by (vm_compute; repeat constructor).
  split; [exact H |].
  exact (proj2 entries_need_digit_and_space _ H).
Defined.

(** ** Lines in the two plain formats *)

Ltac by_cases_on c :=
  destruct c as [[] [] [] [] [] [] [] []]; vm_compute;
  try reflexivity; try discriminate; try congruence.

Lemma digit_not_space c : Str.isdigit c = true -> Str.isspace c = false.
Proof. by_cases_on c. Qed.

Lemma digit_not_dot c : Str.isdigit c = true -> c <> "."%char.
Proof. by_cases_on c. Qed.

Lemma space_not_dot c : Str.isspace c = true -> c <> "."%char.
Proof. by_cases_on c. Qed.

Lemma space_not_digit c : Str.isspace c = true -> Str.isdigit c = false.
Proof. by_cases_on c. Qed.

Lemma int_acc_digits acc s v :
  Str.int_acc acc s = Some v -> Forall is_digit s.
Proof.
  revert acc. induction s as [| c s IH]; intros acc H; [constructor |].
  cbn [Str.int_acc] in H. destruct (Str.isdigit c) eqn:E; [| discriminate].
  constructor; [exact E | now apply IH with (acc := (10 * acc
    + Z.of_nat (Str.code c - 48)))].
Qed.

Lemma int_digits s v : Str.int s = Some v -> Forall is_digit s /\ s <> [].
Proof.
  destruct s as [| c s]; [discriminate |]. unfold Str.int.
  intros H. split; [now apply int_acc_digits with 0 v | discriminate].
Qed.

Lemma trimmed_head s :
  trimmed s -> s <> [] -> exists c t, s = c :: t /\ Str.isspace c = false.
Proof.
  intros [H _] Hne. destruct s as [| c t]; [contradiction |].
  exists c, t. split; [reflexivity |].
  cbn [Str.lstrip] in H. destruct (Str.isspace c) eqn:E; [| reflexivity].
  exfalso. assert (L : forall x, (List.length (Str.lstrip x)
                                  <= List.length x)%nat).
  { induction x as [| a x IHx]; cbn [Str.lstrip]; [lia |].
    destruct (Str.isspace a); cbn [List.length]; lia. }
  specialize (L t). rewrite H in L. cbn [List.length] in L. lia.
Qed.

Lemma trimmed_last s :
  trimmed s -> s <> [] -> exists u c, s = u ++ [c] /\ Str.isspace c = false.
Proof.
  intros [H1 H2] Hne.
  assert (Hr : trimmed (rev s)) by (split; [exact H2 | now rewrite rev_involutive]).
  destruct (trimmed_head (rev s) Hr) as (c & t & E & Hc).
  - intros E. apply Hne. now rewrite <- (rev_involutive s), E.
  - exists (rev t), c. split; [| exact Hc].
    now rewrite <- (rev_involutive s), E.
Qed.

Lemma trimmed_line title rest d :
  trimmed title -> title <> [] -> Str.isspace d = false ->
  Str.strip (title ++ rest ++ [d]) = title ++ rest ++ [d].
Proof.
  intros Ht Hne Hd. apply trimmed_strip.
  destruct (trimmed_head title Ht Hne) as (c & t & -> & Hc). split.
  - cbn [app Str.lstrip]. now rewrite Hc.
  - rewrite app_assoc, rev_app_distr. cbn [rev app Str.lstrip].
    now rewrite Hd.
Qed.

Lemma run_open p s cur acc : Re.run (Re.GOpen :: p) s cur acc = Re.run p s [] acc.
Proof. reflexivity. Qed.

Lemma run_close p s cur acc :
  Re.run (Re.GClose :: p) s cur acc = Re.run p s [] (rev cur :: acc).
Proof. reflexivity. Qed.

Lemma run_greedy k lo hi p s cur acc :
  Re.run (Re.Rep k lo hi true :: p) s cur acc
  = Re.rep_greedy (Re.run p) k lo hi s 0 cur acc.
Proof. reflexivity. Qed.

Lemma run_lazy k lo hi p s cur acc :
  Re.run (Re.Rep k lo hi false :: p) s cur acc
  = Re.rep_lazy (Re.run p) k lo hi s 0 cur acc.
Proof. reflexivity. Qed.

Lemma run_demand_head k lo hi g p a s cur acc :
  Re.cmatch k a = false -> (1 <= lo)%nat ->
  Re.run (Re.Rep k lo hi g :: p) (a :: s) cur acc = None.
Proof.
  intros Ha Hlo.
  assert (E : (lo <=? 0)%nat = false) by (apply Nat.leb_gt; lia).
  destruct g; cbn [Re.run Re.rep_greedy Re.rep_lazy]; now rewrite Ha, E.
Qed.

Lemma rep_greedy_takes_all K k lo u r :
  Forall (fun c => Re.cmatch k c = true) u ->
  forall cur acc,
    (lo <= List.length u)%nat ->
    K [] (rev u ++ cur) acc = Some r ->
    Re.rep_greedy K k lo None u 0 cur acc = Some r.
Proof.
  intros Hu cur acc Hlo HK.
  rewrite <- (app_nil_r u) at 1.
  now apply rep_greedy_takes; [| exact I | lia |].
Qed.

Lemma suffix_keeps_last {A} (t1 t2 u : list A) c :
  t1 ++ t2 = u ++ [c] -> t2 <> [] -> exists u2, t2 = u2 ++ [c].
Proof.
  intros E Hne. destruct (exists_last Hne) as (u2 & c' & ->).
  rewrite app_assoc in E. apply app_inj_tail in E. destruct E as [_ ->].
  now exists u2.
Qed.

Lemma head_in {A} (u : list A) c z :
  exists a s, u ++ c :: z = a :: s /\ In a (u ++ [c]).
Proof.
  destruct u as [| a u].
  - exists c, z. split; [reflexivity | now left].
  - exists a, (u ++ c :: z). split; [reflexivity | now left].
Qed.

Section DotLeader.
Variables (title sp sp2 ds : str) (n : nat) (v : Z).
Hypothesis title_trimmed : trimmed title.
Hypothesis title_given : title <> [].
Hypothesis title_no_dot : Forall (fun c => c <> "."%char) title.
Hypothesis title_one_line : Forall (fun c => c <> "010"%char) title.
Hypothesis sp_space : Forall is_space sp.
Hypothesis sp_given : sp <> [].
Hypothesis leader : (2 <= n)%nat.
Hypothesis sp2_space : Forall is_space sp2.
Hypothesis page_digits : Str.int ds = Some v.

Let after_title : Re.pattern :=
  [Re.GClose; Re.plus Re.Space; Re.at_least 2 (Re.Chr ".");
   Re.star Re.Space; Re.GOpen; Re.plus Re.Digit; Re.GClose].

Let z : str := sp ++ repeat "."%char n ++ sp2 ++ ds.

Lemma dot_leader_early_stop t1 t2 cur acc :
  title = t1 ++ t2 -> t2 <> [] ->
  Re.run after_title (t2 ++ z) cur acc = None.
Proof.
  intros E Hne.
  destruct (trimmed_last title title_trimmed title_given) as (u & c & Hu & Hc).
  rewrite Hu in E. symmetry in E.
  destruct (suffix_keeps_last t1 t2 u c E Hne) as (u2 & ->).
  unfold after_title, Re.plus. rewrite run_close, run_greedy.
  rewrite <- app_assoc. cbn [app].
  apply rep_greedy_blocked; [exact Hc |].
  intros u1 u3 cur' acc' Eu.
  destruct (head_in u3 c z) as (a & s & -> & Ha).
  apply run_demand_head; [| lia].
  cbn [Re.cmatch]. apply Ascii.eqb_neq.
  rewrite Forall_forall in title_no_dot. apply title_no_dot.
  rewrite Hu. rewrite app_assoc in E.
  apply app_inj_tail in E. destruct E as [<- _].
  rewrite Eu, <- !app_assoc. apply in_or_app. right. apply in_or_app. now right.
Qed.

Lemma dot_leader_tail cur :
  Re.run after_title z cur [] = Some ([rev cur; ds], []).
Proof.
  destruct (int_digits ds v page_digits) as [Hds Hdne].
  unfold after_title, Re.plus, Re.at_least, Re.star, z.
  rewrite run_close, run_greedy.
  apply rep_greedy_takes.
  - eapply Forall_impl; [| exact sp_space]. intros c Hc. exact Hc.
  - destruct n as [| m]; [lia |]. cbn. reflexivity.
  - destruct sp; [contradiction | cbn; lia].
  - rewrite run_greedy. apply rep_greedy_takes.
    + apply Forall_forall. intros c Hc. apply repeat_spec in Hc. now subst.
    + destruct sp2 as [| c s2]; cbn [app stops Re.cmatch].
      * destruct ds as [| d ds']; [contradiction |].
        inversion Hds; subst. apply Ascii.eqb_neq. now apply digit_not_dot.
      * inversion sp2_space; subst. apply Ascii.eqb_neq.
        now apply space_not_dot.
    + rewrite repeat_length. lia.
    + rewrite run_greedy. apply rep_greedy_takes.
      * eapply Forall_impl; [| exact sp2_space]. intros c Hc. exact Hc.
      * destruct ds as [| d ds']; [contradiction |].
        inversion Hds; subst. cbn. now apply digit_not_space.
      * lia.
      * rewrite run_open, run_greedy. apply rep_greedy_takes_all.
        -- eapply Forall_impl; [| exact Hds]. intros c Hc. exact Hc.
        -- destruct ds; [contradiction | cbn; lia].
        -- rewrite run_close. cbn [Re.run rev app].
           now rewrite app_nil_r, rev_involutive.
Qed.

Lemma dot_leader_match :
  Re.search (nth 0 toc_patterns []) (dot_leader_line title sp n sp2 ds)
  = Some [title; ds].
Proof.
  assert (M : Re.match_ (nth 0 toc_patterns [])
                (dot_leader_line title sp n sp2 ds)
              = Some ([title; ds], [])).
  { unfold Re.match_. cbn [nth toc_patterns]. unfold Re.plus_lazy at 1.
    rewrite run_open, run_lazy. unfold dot_leader_line. fold z.
    fold after_title.
    apply rep_lazy_reaches.
    - eapply Forall_impl; [| exact title_one_line].
      intros c Hc. cbn [Re.cmatch]. apply negb_true_iff.
      now apply Ascii.eqb_neq.
    - intros t1 t2 E Hne. now apply dot_leader_early_stop with t1.
    - destruct title; [contradiction | cbn; lia].
    - rewrite dot_leader_tail. now rewrite app_nil_r, rev_involutive. }
  destruct (dot_leader_line title sp n sp2 ds) eqn:E;
    cbn [Re.search]; now rewrite M.
Qed.

End DotLeader.

(** X5. A line in the dot-leader format (a title without a period, white
    space, two or more periods, optional white space, and the digits of a
    page between 1 and 10000) gives exactly that title and that page. *)
Theorem dot_leader_line_accepted :
  forall title sp sp2 ds n v,
    trimmed title -> title <> [] ->
    Forall (fun c => c <> "."%char) title ->
    Forall (fun c => c <> "010"%char) title ->
    Forall is_space sp -> sp <> [] -> (2 <= n)%nat ->
    Forall is_space sp2 ->
    Str.int ds = Some v -> 1 <= v <= 10000 ->
    scan_line (dot_leader_line title sp n sp2 ds) = Some (title, v).
Proof.
  intros title sp sp2 ds n v Ht Hne Hdot Hnl Hsp Hspne Hn Hsp2 Hint Hv.
  destruct (int_digits ds v Hint) as [Hds Hdne].
  destruct (exists_last Hdne) as (ds' & d & Eds).
  assert (Hd : Str.isspace d = false).
  { apply digit_not_space. rewrite Eds in Hds.
    apply Forall_app in Hds. destruct Hds as [_ Hd]. now inversion Hd. }
  assert (Hstrip : Str.strip (dot_leader_line title sp n sp2 ds)
                   = dot_leader_line title sp n sp2 ds).
  { unfold dot_leader_line. rewrite Eds.
    replace (title ++ sp ++ repeat "."%char n ++ sp2 ++ ds' ++ [d])
      with (title ++ (sp ++ repeat "."%char n ++ sp2 ++ ds') ++ [d])
      by (now rewrite <- !app_assoc).
    now apply trimmed_line. }
  unfold scan_line. rewrite Hstrip.
  assert (Hlen : (5 <= List.length (dot_leader_line title sp n sp2 ds))%nat).
  { unfold dot_leader_line. rewrite !length_app, repeat_length.
    destruct title; [contradiction |]. destruct sp; [contradiction |].
    destruct ds; [contradiction |]. cbn [List.length]. lia. }
  destruct (Nat.ltb_spec
              (List.length (dot_leader_line title sp n sp2 ds)) 5);
    [lia |].
  unfold toc_patterns. cbn [try_patterns]. unfold try_pattern at 1.
  pose proof (dot_leader_match title sp sp2 ds n v Ht Hne Hdot Hnl
                Hsp Hspne Hn Hsp2 Hint) as M.
  cbn [nth toc_patterns] in M. rewrite M, Hint.
  assert (Hr : reasonable v = true) by now apply reasonable_spec.
  rewrite Hr. now rewrite (trimmed_strip title Ht).
Qed.

Lemma dot_leader_line_accepted_witness :
  trimmed (lit "Chapter One") /\ lit "Chapter One" <> []
  /\ Str.int (lit "12") = Some 12 /\ 1 <= 12 <= 10000
  /\ scan_line (lit "Chapter One ........ 12") = Some (lit "Chapter One", 12).
Proof.
  assert (Ht : trimmed (lit "Chapter One")) by (split; reflexivity).
  assert (Hne : lit "Chapter One" <> []) by discriminate.
  assert (Hi : Str.int (lit "12") = Some 12) by reflexivity.
  assert (Hv : 1 <= 12 <= 10000) by lia.
  split; [exact Ht |]. split; [exact Hne |]. split; [exact Hi |].
  split; [exact Hv |].
  apply (dot_leader_line_accepted (lit "Chapter One") (lit " ") (lit " ")
           (lit "12") 8 12 Ht Hne).
  - repeat constructor; discriminate.
  - repeat constructor; discriminate.
  - repeat constructor.
  - discriminate.
  - lia.
  - repeat constructor.
  - exact Hi.
  - exact Hv.
Defined.

Lemma digits_then_end_fail t z cur acc n :
  stops Re.Digit z -> (2 <= List.length z)%nat ->
  Re.rep_greedy (Re.run [Re.GClose; Re.Eol]) Re.Digit 1 None (t ++ z) n cur acc
  = None.
Proof.
  intros Hz Hlen. revert n cur.
  induction t as [| a t IH]; intros n cur; cbn [app].
  - destruct z as [| x [| y rest]]; cbn [List.length] in Hlen; try lia.
    cbn [stops] in Hz. cbn [Re.rep_greedy]. rewrite Hz. cbn [andb].
    now destruct (1 <=? n)%nat.
  - cbn [Re.rep_greedy]. rewrite IH.
    assert (E : Re.run [Re.GClose; Re.Eol] (a :: t ++ z) cur acc = None).
    { cbn [Re.run Re.at_end].
      destruct (t ++ z) eqn:Etz; [| reflexivity].
      apply app_eq_nil in Etz. destruct Etz as [_ ->]. cbn in Hlen. lia. }
    rewrite E.
    now destruct (Re.cmatch Re.Digit a && Re.below None n), (1 <=? n)%nat.
Qed.

Section TrailingPage.
Variables (title sp ds : str) (v : Z).
Hypothesis title_trimmed : trimmed title.
Hypothesis title_given : title <> [].
Hypothesis title_no_dot : Forall (fun c => c <> "."%char) title.
Hypothesis title_one_line : Forall (fun c => c <> "010"%char) title.
Hypothesis sp_space : Forall is_space sp.
Hypothesis sp_given : sp <> [].
Hypothesis page_digits : Str.int ds = Some v.

Let after_title : Re.pattern :=
  [Re.GClose; Re.plus Re.Space; Re.GOpen; Re.plus Re.Digit; Re.GClose;
   Re.Eol].

Let z : str := sp ++ ds.

Lemma z_starts_with_space : stops Re.Digit z /\ (2 <= List.length z)%nat.
Proof.
  destruct (int_digits ds v page_digits) as [_ Hdne]. unfold z.
  destruct sp as [| c s]; [contradiction |].
  inversion sp_space; subst. split.
  - cbn. now apply space_not_digit.
  - destruct ds; [contradiction |]. rewrite length_app. cbn. lia.
Qed.

Lemma trailing_page_early_stop t1 t2 cur acc :
  title = t1 ++ t2 -> t2 <> [] ->
  Re.run after_title (t2 ++ z) cur acc = None.
Proof.
  intros E Hne.
  destruct (trimmed_last title title_trimmed title_given) as (u & c & Hu & Hc).
  rewrite Hu in E. symmetry in E.
  destruct (suffix_keeps_last t1 t2 u c E Hne) as (u2 & ->).
  unfold after_title, Re.plus. rewrite run_close, run_greedy.
  rewrite <- app_assoc. cbn [app].
  apply rep_greedy_blocked; [exact Hc |].
  intros u1 u3 cur' acc' Eu.
  rewrite run_open, run_greedy.
  change (u3 ++ c :: z) with (u3 ++ [c] ++ z). rewrite app_assoc.
  destruct z_starts_with_space as [Hz Hlen].
  now apply digits_then_end_fail.
Qed.

Lemma trailing_page_tail cur :
  Re.run after_title z cur [] = Some ([rev cur; ds], []).
Proof.
  destruct (int_digits ds v page_digits) as [Hds Hdne].
  unfold after_title, Re.plus, z.
  rewrite run_close, run_greedy.
  apply rep_greedy_takes.
  - eapply Forall_impl; [| exact sp_space]. intros c Hc. exact Hc.
  - destruct ds as [| d ds']; [contradiction |].
    inversion Hds; subst. cbn. now apply digit_not_space.
  - destruct sp; [contradiction | cbn; lia].
  - rewrite run_open, run_greedy. apply rep_greedy_takes_all.
    + eapply Forall_impl; [| exact Hds]. intros c Hc. exact Hc.
    + destruct ds; [contradiction | cbn; lia].
    + rewrite run_close. cbn [Re.run Re.at_end rev app].
      now rewrite app_nil_r, rev_involutive.
Qed.

Lemma trailing_page_match :
  Re.search (nth 1 toc_patterns []) (title ++ sp ++ ds) = Some [title; ds].
Proof.
  assert (M : Re.match_ (nth 1 toc_patterns []) (title ++ sp ++ ds)
              = Some ([title; ds], [])).
  { unfold Re.match_. cbn [nth toc_patterns]. unfold Re.plus_lazy at 1.
    rewrite run_open, run_lazy. fold z. fold after_title.
    apply rep_lazy_reaches.
    - eapply Forall_impl; [| exact title_one_line].
      intros c Hc. cbn [Re.cmatch]. apply negb_true_iff.
      now apply Ascii.eqb_neq.
    - intros t1 t2 E Hne. now apply trailing_page_early_stop with t1.
    - destruct title; [contradiction | cbn; lia].
    - rewrite trailing_page_tail. now rewrite app_nil_r, rev_involutive. }
  destruct (title ++ sp ++ ds) eqn:E; cbn [Re.search]; now rewrite M.
Qed.

Lemma trailing_page_no_leader :
  try_pattern (nth 0 toc_patterns []) (title ++ sp ++ ds) = None.
Proof.
  destruct (int_digits ds v page_digits) as [Hds _].
  apply try_pattern_needs with (Re.Chr ".").
  - cbn [nth toc_patterns]. find_demand (Re.at_least 2 (Re.Chr ".")).
  - repeat (apply Forall_app; split).
    + eapply Forall_impl; [| exact title_no_dot].
      intros c Hc. cbn. now apply Ascii.eqb_neq.
    + eapply Forall_impl; [| exact sp_space].
      intros c Hc. cbn. now apply Ascii.eqb_neq, space_not_dot.
    + eapply Forall_impl; [| exact Hds].
      intros c Hc. cbn. now apply Ascii.eqb_neq, digit_not_dot.
Qed.

End TrailingPage.

(** X6. A line made of a title without a period, white space and the
    digits of a page between 1 and 10000 at the end of the line gives
    exactly that title and that page, provided it has five characters or
    more; shorter lines give nothing. *)
Theorem trailing_page_line_accepted :
  forall title sp ds v,
    trimmed title -> title <> [] ->
    Forall (fun c => c <> "."%char) title ->
    Forall (fun c => c <> "010"%char) title ->
    Forall is_space sp -> sp <> [] ->
    Str.int ds = Some v -> 1 <= v <= 10000 ->
    scan_line (title ++ sp ++ ds)
    = if (List.length (title ++ sp ++ ds) <? 5)%nat then None
      else Some (title, v).
Proof.
  intros title sp ds v Ht Hne Hdot Hnl Hsp Hspne Hint Hv.
  destruct (int_digits ds v Hint) as [Hds Hdne].
  destruct (exists_last Hdne) as (ds' & d & Eds).
  assert (Hd : Str.isspace d = false).
  { apply digit_not_space. rewrite Eds in Hds.
    apply Forall_app in Hds. destruct Hds as [_ Hd]. now inversion Hd. }
  assert (Hstrip : Str.strip (title ++ sp ++ ds) = title ++ sp ++ ds).
  { rewrite Eds.
    replace (title ++ sp ++ ds' ++ [d]) with (title ++ (sp ++ ds') ++ [d])
      by (now rewrite <- !app_assoc).
    now apply trimmed_line. }
  unfold scan_line. rewrite Hstrip.
  destruct (List.length (title ++ sp ++ ds) <? 5)%nat; [reflexivity |].
  unfold toc_patterns. cbn [try_patterns].
  pose proof (trailing_page_no_leader title sp ds v Hdot Hsp Hint) as N.
  cbn [nth toc_patterns] in N. rewrite N.
  unfold try_pattern at 1.
  pose proof (trailing_page_match title sp ds v Ht Hne Hdot Hnl Hsp Hspne
                Hint) as M.
  cbn [nth toc_patterns] in M. rewrite M, Hint.
  assert (Hr : reasonable v = true) by now apply reasonable_spec.
  rewrite Hr. now rewrite (trimmed_strip title Ht).
Qed.

Lemma trailing_page_line_accepted_witness :
  trimmed (lit "Part 2") /\ lit "Part 2" <> []
  /\ Str.int (lit "15") = Some 15 /\ 1 <= 15 <= 10000
  /\ scan_line (lit "Part 2 15") = Some (lit "Part 2", 15).
Proof.
  assert (Ht : trimmed (lit "Part 2")) by (split; reflexivity).
  assert (Hne : lit "Part 2" <> []) by discriminate.
  assert (Hi : Str.int (lit "15") = Some 15) by reflexivity.
  assert (Hv : 1 <= 15 <= 10000) by lia.
  split; [exact Ht |]. split; [exact Hne |]. split; [exact Hi |].
  split; [exact Hv |].
  apply (trailing_page_line_accepted (lit "Part 2") (lit " ") (lit "15") 15
           Ht Hne).
  - repeat constructor; discriminate.
  - repeat constructor; discriminate.
  - repeat constructor.
  - discriminate.
  - exact Hi.
  - exact Hv.
Defined.

(** ** What [sanitize_filename] returns *)

Lemma before_last_space_spec s :
  match Str.before_last_space s with
  | Some p => exists w, s = p ++ " "%char :: w /\ ~ In " "%char w
  | None => ~ In " "%char s
  end.
Proof.
  induction s as [| c s IH]; cbn [Str.before_last_space]; [tauto |].
  destruct (Str.before_last_space s) as [p |].
  - destruct IH as (w & -> & Hw). now exists w.
  - destruct (Ascii.eqb_spec c " "%char) as [-> | Hc].
    + now exists s.
    + cbn [In]. intros [H | H]; [congruence | contradiction].
Qed.

Lemma sanitize_unfolded title n :
  sanitize_filename title n
  = if (n <? List.length (cleaned title))%nat
    then Str.rsplit1_head (firstn n (cleaned title))
    else cleaned title.
Proof. reflexivity. Qed.

(** X7. The sanitized title never has more than [max_length] characters.
    When the cleaned title is longer, the result is its first
    [max_length] characters cut back to just before their last space, or
    all of them if they hold no space. *)
Theorem sanitize_length_and_cut :
  forall title n,
    (List.length (sanitize_filename title n) <= n)%nat
    /\ ((n < List.length (cleaned title))%nat ->
        exists w,
          ~ In " "%char w
          /\ (firstn n (cleaned title)
              = sanitize_filename title n ++ " "%char :: w
              \/ (firstn n (cleaned title) = w
                  /\ sanitize_filename title n = w))).
Proof.
  intros title n. rewrite sanitize_unfolded.
  pose proof (before_last_space_spec (firstn n (cleaned title))) as Hs.
  pose proof (length_firstn n (cleaned title)) as Hl.
  destruct (Nat.ltb_spec n (List.length (cleaned title))) as [Hlt | Hge].
  - unfold Str.rsplit1_head.
    destruct (Str.before_last_space (firstn n (cleaned title))) as [p |].
    + destruct Hs as (w & E & Hw). split.
      * rewrite E, length_app in Hl. lia.
      * intros _. exists w. split; [exact Hw | now left].
    + split; [lia |]. intros _.
      exists (firstn n (cleaned title)). split; [exact Hs | now right].
  - split; [lia |]. intros H. lia.
Qed.

Lemma sanitize_length_and_cut_witness :
  (3 < List.length (cleaned (lit "ab cd")))%nat
  /\ sanitize_filename (lit "ab cd") 3 = lit "ab".
Proof.
  assert (H : (3 < List.length (cleaned (lit "ab cd")))%nat)
    by (vm_compute; lia).
  split; [exact H |].
  destruct (proj2 (sanitize_length_and_cut (lit "ab cd") 3) H)
    as (w & _ & _).
  reflexivity.
Defined.

Lemma any_of_invalid c :
  Re.cmatch (Re.any_of invalid_chars) c = false -> ~ In c invalid_chars.
Proof.
  intros Hc Hin. unfold invalid_chars in Hin. cbn in Hin.
  repeat (destruct Hin as [<- | Hin]; [vm_compute in Hc; discriminate |]).
  exact Hin.
Qed.

Lemma cleaned_valid title : Forall (fun c => ~ In c invalid_chars) (cleaned title).
Proof.
  unfold cleaned.
  assert (Hrepl : forall r, In r [lit "_"; lit " "; lit "."] ->
                            Forall (fun c => ~ In c invalid_chars) r).
  { intros r [<- | [<- | [<- | []]]]; repeat constructor;
      intros H; vm_compute in H; intuition discriminate. }
  apply replace_from_Forall; [apply Hrepl; cbn; auto |].
  apply strip_Forall.
  apply sub_from_Forall; [apply Hrepl; cbn; auto |].
  apply sub_one_avoids; [apply Hrepl; cbn; auto |].
  apply any_of_invalid.
Qed.

(** X8. None of the characters the sanitizer replaces is left in its
    result, whatever the title and the length limit. *)
Theorem sanitize_removes_invalid_characters :
  forall title n c,
    In c (sanitize_filename title n) -> ~ In c invalid_chars.
Proof.
  intros title n c. rewrite sanitize_unfolded.
  pose proof (cleaned_valid title) as H.
  assert (H' : Forall (fun c => ~ In c invalid_chars)
                 (if (n <? List.length (cleaned title))%nat
                  then Str.rsplit1_head (firstn n (cleaned title))
                  else cleaned title)).
  { destruct (_ <? _)%nat; [| exact H].
    now apply rsplit1_head_Forall, Forall_firstn. }
  rewrite Forall_forall in H'. apply H'.
Qed.

Lemma sanitize_removes_invalid_characters_witness :
  In "_"%char (sanitize_filename Examples.great_chapter 50)
  /\ ~ In "_"%char invalid_chars.
Proof.
  assert (H : In "_"%char (sanitize_filename Examples.great_chapter 50))
    by (vm_compute; auto).
  split; [exact H |].
  exact (sanitize_removes_invalid_characters Examples.great_chapter 50 _ H).
Defined.

Lemma valid_not_matched c :
  ~ In c invalid_chars -> Re.cmatch (Re.any_of invalid_chars) c = false.
Proof.
  intros H. unfold invalid_chars. cbn.
  repeat match goal with
         | |- context [Ascii.eqb c ?a] =>
             destruct (Ascii.eqb_spec c a) as [-> |];
             [ exfalso; apply H; vm_compute;
               repeat (first [left; reflexivity | right]) |]
         end.
  reflexivity.
Qed.

Lemma sub_one_unmatched k repl s :
  Forall (fun c => Re.cmatch k c = false) s -> Re.sub [Re.one k] repl s = s.
Proof.
  unfold Re.sub. induction 1 as [| c s Hc _ IH]; [reflexivity |].
  cbn [Re.sub_from]. rewrite match_one, Hc. now rewrite IH.
Qed.

Lemma match_spaces_none c s :
  Str.isspace c = false -> Re.match_ [Re.plus Re.Space] (c :: s) = None.
Proof.
  intros Hc. unfold Re.match_, Re.plus. now apply run_demand_head.
Qed.

Lemma match_spaces_one c d s :
  Str.isspace c = true -> Str.isspace d = false ->
  Re.match_ [Re.plus Re.Space] (c :: d :: s) = Some ([], d :: s).
Proof.
  intros Hc Hd. unfold Re.match_, Re.plus. rewrite run_greedy.
  change (c :: d :: s) with ([c] ++ d :: s).
  apply rep_greedy_takes; [now repeat constructor | exact Hd | cbn; lia |].
  reflexivity.
Qed.

Lemma sub_spaces_single_spaced s :
  single_spaced s -> Re.sub [Re.plus Re.Space] (lit " ") s = s.
Proof.
  unfold Re.sub. induction s as [| c s IH]; [reflexivity |].
  intros [Hc Hs]. cbn [Re.sub_from].
  destruct (Str.isspace c) eqn:E.
  - destruct (Hc eq_refl) as [-> Hnext].
    destruct s as [| d s]; [contradiction |].
    rewrite (match_spaces_one _ d s E Hnext).
    replace (List.length (" "%char :: d :: s) - List.length (d :: s))%nat
      with 1%nat by (cbn [List.length]; lia).
    rewrite (IH Hs). reflexivity.
  - rewrite (match_spaces_none c s E). now rewrite IH.
Qed.

Lemma replace_absent old new s :
  Str.contains old s = false -> Str.replace old new s = s.
Proof.
  unfold Str.replace. induction s as [| c s IH]; [reflexivity |].
  cbn [Str.contains]. intros H. apply orb_false_iff in H.
  destruct H as [H1 H2]. cbn [Str.replace_from]. rewrite H1.
  now rewrite IH.
Qed.

(** X9. A title that needs no cleaning comes back as it is: no replaced
    character, single plain spaces between words and none at the ends, no
    two periods in a row, and no more than [max_length] characters. *)
Theorem sanitize_keeps_clean_title :
  forall title n,
    Forall (fun c => ~ In c invalid_chars) title ->
    single_spaced title -> trimmed title ->
    Str.contains (lit "..") title = false ->
    (List.length title <= n)%nat ->
    sanitize_filename title n = title.
Proof.
  intros title n Hvalid Hsp Htrim Hdots Hlen.
  assert (E : cleaned title = title).
  { unfold cleaned. rewrite sub_one_unmatched.
    - rewrite (sub_spaces_single_spaced title Hsp).
      rewrite (trimmed_strip title Htrim). now apply replace_absent.
    - eapply Forall_impl; [| exact Hvalid]. apply valid_not_matched. }
  rewrite sanitize_unfolded, E.
  destruct (Nat.ltb_spec n (List.length title)); [lia | reflexivity].
Qed.

Lemma sanitize_keeps_clean_title_witness :
  single_spaced (lit "Chapter 1. Getting Started")
  /\ trimmed (lit "Chapter 1. Getting Started")
  /\ sanitize_filename (lit "Chapter 1. Getting Started") 50
     = lit "Chapter 1. Getting Started".
Proof.
  assert (Hs : single_spaced (lit "Chapter 1. Getting Started")).
  { cbn. repeat split; intros; first [reflexivity | discriminate]. }
  assert (Ht : trimmed (lit "Chapter 1. Getting Started"))
    by (split; reflexivity).
  split; [exact Hs |]. split; [exact Ht |].
  apply sanitize_keeps_clean_title; [| exact Hs | exact Ht | | cbn; lia].
  - repeat constructor; intros H; vm_compute in H; intuition discriminate.
  - reflexivity.
Defined.

(** ** What the Locator reads *)

Lemma pages_get_nat (pages : list Page) i :
  pages_get pages (Z.of_nat i) = nth_error pages i.
Proof.
  unfold pages_get. destruct (Z.ltb_spec (Z.of_nat i) 0); [lia |].
  now rewrite Nat2Z.id.
Qed.

Lemma add_page_text_firstn pages m acc i :
  (i < m)%nat ->
  add_page_text (firstn m pages) acc i = add_page_text pages acc i.
Proof.
  intros Hi. unfold add_page_text. rewrite !pages_get_nat.
  now rewrite nth_error_firstn, (proj2 (Nat.ltb_lt i m) Hi).
Qed.

Lemma fold_left_ext_in {A B} (f g : A -> B -> A) (l : list B) a :
  (forall x acc, In x l -> f acc x = g acc x) ->
  fold_left f l a = fold_left g l a.
Proof.
  revert a. induction l as [| x l IH]; intros a H; [reflexivity |].
  cbn [fold_left]. rewrite (H x a (or_introl eq_refl)).
  apply IH. intros y acc Hy. apply H. now right.
Qed.

Lemma scanned_text_firstn pages m :
  scanned_text (firstn m pages) m = scanned_text pages m.
Proof.
  unfold scanned_text. rewrite length_firstn.
  replace (Nat.min m (Nat.min m (List.length pages)))
    with (Nat.min m (List.length pages)) by lia.
  apply fold_left_ext_in. intros i acc Hi. apply in_seq in Hi.
  apply add_page_text_firstn. lia.
Qed.

(** X10. Only the first 25 pages are searched: the entries found for a
    document are those found for its first 25 pages alone, so nothing
    from page 26 on can add, remove or change an entry. *)
Theorem only_first_25_pages_searched :
  forall doc later,
    (25 <= List.length doc)%nat ->
    detected_toc (doc ++ later) = detected_toc doc.
Proof.
  intros doc later Hlen. unfold detected_toc.
  rewrite <- (scanned_text_firstn (doc ++ later) 25).
  rewrite <- (scanned_text_firstn doc 25).
  rewrite firstn_app.
  replace (25 - List.length doc)%nat with 0%nat by lia.
  cbn [firstn]. now rewrite app_nil_r.
Qed.

Lemma only_first_25_pages_searched_witness :
  let doc := map Examples.blank (seq 0 25) in
  (25 <= List.length doc)%nat
  /\ detected_toc (doc ++ Examples.two_chapters_on_page_1) = [].
Proof.
  intros doc.
  assert (H : (25 <= List.length doc)%nat) by (vm_compute; lia).
  split; [exact H |].
  rewrite (only_first_25_pages_searched doc
             Examples.two_chapters_on_page_1 H).
  vm_compute. reflexivity.
Defined.

Lemma startswith_spec p s :
  Str.startswith p s = true <-> exists b, s = p ++ b.
Proof.
  revert s. induction p as [| a p IH]; intros s; cbn [Str.startswith].
  - split; [intros _; now exists s | reflexivity].
  - destruct s as [| c s].
    + split; [discriminate | intros (b & H); discriminate].
    + rewrite andb_true_iff, IH. split.
      * intros [E (b & ->)]. apply Ascii.eqb_eq in E. subst. now exists b.
      * intros (b & H). injection H as -> ->.
        split; [apply Ascii.eqb_refl | now exists b].
Qed.

Lemma contains_spec sub s :
  Str.contains sub s = true <-> exists a b, s = a ++ sub ++ b.
Proof.
  induction s as [| c s IH]; cbn [Str.contains]; rewrite orb_true_iff.
  - rewrite startswith_spec. split.
    + intros [(b & H) | H]; [| discriminate]. now exists [], b.
    + intros (a & b & H). left. destruct a; [now exists b | discriminate].
  - rewrite startswith_spec, IH. split.
    + intros [(b & H) | (a & b & ->)]; [now exists [], b |].
      now exists (c :: a), b.
    + intros (a & b & H). destruct a as [| c' a].
      * left. now exists b.
      * right. injection H as -> ->. now exists a, b.
Qed.

Lemma toc_found_spec text :
  toc_found text = true
  <-> exists indicator a b,
        In indicator toc_indicators
        /\ Str.lower text = a ++ indicator ++ b.
Proof.
  unfold toc_found. rewrite existsb_exists. split.
  - intros (ind & Hin & H). apply contains_spec in H.
    destruct H as (a & b & H). now exists ind, a, b.
  - intros (ind & a & b & Hin & H). exists ind. split; [exact Hin |].
    apply contains_spec. now exists a, b.
Qed.

Lemma lower_char_same_letter c d :
  plain d -> (Str.lower_char c = d <-> same_letter c d).
Proof.
  intros [Hd1 Hd2]. unfold same_letter, Str.lower_char, Str.code in *.
  pose proof (nat_ascii_bounded c) as Hc.
  split.
  - intros H.
    destruct (((65 <=? nat_of_ascii c)%nat && (nat_of_ascii c <=? 90)%nat)
              || ((192 <=? nat_of_ascii c)%nat && (nat_of_ascii c <=? 222)%nat
                  && negb (nat_of_ascii c =? 215)%nat)) eqn:E;
      [| now left].
    assert (Hcode : nat_of_ascii d = (nat_of_ascii c + 32)%nat).
    { rewrite <- H. apply nat_ascii_embedding.
      apply orb_true_iff in E. destruct E as [E | E].
      - apply andb_true_iff in E. destruct E as [_ E].
        apply Nat.leb_le in E. lia.
      - apply andb_true_iff in E. destruct E as [E _].
        apply andb_true_iff in E. destruct E as [_ E].
        apply Nat.leb_le in E. lia. }
    apply orb_true_iff in E. destruct E as [E | E].
    + apply andb_true_iff in E. destruct E as [E1 E2].
      apply Nat.leb_le in E1, E2. right. lia.
    + apply andb_true_iff in E. destruct E as [E _].
      apply andb_true_iff in E. destruct E as [E _].
      apply Nat.leb_le in E. lia.
  - intros [-> | [Hrange Hcode]].
    + destruct (Nat.leb_spec 65 (nat_of_ascii d));
        destruct (Nat.leb_spec (nat_of_ascii d) 90);
        destruct (Nat.leb_spec 192 (nat_of_ascii d));
        cbn [andb orb]; try reflexivity; lia.
    + destruct (Nat.leb_spec 65 (nat_of_ascii c));
        destruct (Nat.leb_spec (nat_of_ascii c) 90); try lia.
      cbn [andb orb]. rewrite <- Hcode. apply ascii_nat_embedding.
Qed.

Lemma lower_same_letters x word :
  Forall plain word -> (Str.lower x = word <-> Forall2 same_letter x word).
Proof.
  intros Hw. revert x. induction Hw as [| d word Hd _ IH]; intros x.
  - split.
    + intros H. destruct x; [constructor | discriminate].
    + intros H. inversion H. reflexivity.
  - split.
    + intros H. destruct x as [| c x]; [discriminate |].
      cbn [Str.lower map] in H. injection H as Hc Hx.
      constructor; [now apply lower_char_same_letter | now apply IH].
    + intros H. inversion H as [| c d' x' w' Hc Hx]; subst.
      cbn [Str.lower map]. f_equal;
        [now apply lower_char_same_letter | now apply IH].
Qed.

Lemma indicators_plain : Forall (Forall plain) toc_indicators.
Proof.
  unfold toc_indicators, plain, Str.code.
  repeat (constructor; [repeat (constructor; [cbn; lia |]); constructor |]).
  constructor.
Qed.

Lemma toc_found_in_any_case text :
  toc_found text = true
  <-> exists indicator,
        In indicator toc_indicators /\ occurs_in_any_case indicator text.
Proof.
  rewrite toc_found_spec. pose proof indicators_plain as Hplain.
  rewrite Forall_forall in Hplain.
  split.
  - intros (ind & a & b & Hin & H). exists ind. split; [exact Hin |].
    unfold Str.lower in H.
    apply map_eq_app in H. destruct H as (a' & r & -> & _ & H).
    apply map_eq_app in H. destruct H as (x & b' & -> & Hx & _).
    exists a', x, b'. split; [reflexivity |].
    now apply (lower_same_letters x ind (Hplain ind Hin)).
  - intros (ind & Hin & a & x & b & -> & Hx). exists ind.
    exists (Str.lower a), (Str.lower b). split; [exact Hin |].
    unfold Str.lower. rewrite !map_app. do 2 f_equal.
    now apply (lower_same_letters x ind (Hplain ind Hin)).
Qed.

(** X11. The patterns are run on a document exactly when one of the four
    indicator words stands somewhere in the text of its first 25 pages,
    each of its letters in either case; otherwise no entry is returned,
    whatever the lines look like. *)
Theorem toc_scanned_iff_indicator :
  forall doc,
    let text := scanned_text doc 25 in
    ((exists indicator,
         In indicator toc_indicators /\ occurs_in_any_case indicator text) ->
     detected_toc doc = extract_toc_from_text text)
    /\ (~ (exists indicator,
             In indicator toc_indicators
             /\ occurs_in_any_case indicator text) ->
        detected_toc doc = []).
Proof.
  intros doc text. unfold detected_toc. fold text.
  pose proof (toc_found_in_any_case text) as H.
  destruct (toc_found text); split; intros Hi; try reflexivity.
  - exfalso. apply Hi. now apply H.
  - discriminate (proj2 H Hi).
Qed.

Lemma toc_scanned_iff_indicator_witness :
  let doc := [ {| page_id := 0;
                  extract_text := Some (Examples.lines
                    ["ChApTeR LIST"; "Intro ..... 1"]%string) |} ] in
  detected_toc doc = [(lit "Intro", 1)].
Proof.
  intros doc.
  rewrite (proj1 (toc_scanned_iff_indicator doc)).
  - vm_compute. reflexivity.
  - exists (lit "chapter"). split; [vm_compute; auto |].
    exists (Str.nl ++ lit "--- Page 1 ---" ++ Str.nl), (lit "ChApTeR"),
      (lit " LIST" ++ Str.nl ++ lit "Intro ..... 1" ++ Str.nl ++ Str.nl).
    split; [vm_compute; reflexivity |].
    unfold same_letter, Str.code.
    repeat (constructor; [first [left; reflexivity | right; cbn; lia] |]).
    constructor.
Defined.

(** ** Runs that fail, and runs that write nothing *)



Lemma plan_from_beyond i l total :
  Forall (fun e => total < page e) l -> plan_from i l total = [].
Proof.
  intros H. revert i. induction H as [| e l He _ IH]; intros i;
    [reflexivity |].
  cbn [plan_from].
  destruct (Z.geb_spec (Z.max 0 (page e - 1))
                       (Z.min total (Spec.endPageRaw l total)));
    [apply IH | lia].
Qed.

(** X13. Falling back depends on the entries found, not on the chunks
    made: when entries were found but every one of them starts beyond the
    last page, the chapter flow returns normally with no chunk and writes
    nothing; it does not fall back to pages. *)
Theorem entries_beyond_document_write_nothing :
  forall w input out doc fs,
    exists_ w (parse input) = true ->
    PdfReader w (parse input) = Some doc ->
    detected_toc doc <> [] ->
    Forall (fun e => total_pages doc < page e) (detected_toc doc) ->
    split_by_chapters w (S_ input) (option_map S_ out) fs
    = (Ret [], after fs [chapters_dir (parse input) out] []).
Proof.
  intros w input out doc fs He Hr Hne Hall.
  rewrite (split_by_chapters_runs w input doc He Hr out fs).
  destruct (detected_toc doc) as [| e toc] eqn:E; [contradiction |].
  unfold chapter_files. rewrite chapter_plan_unrolled.
  now rewrite (plan_from_beyond 0 (e :: toc) (total_pages doc) Hall).
Qed.

Lemma entries_beyond_document_write_nothing_witness :
  let doc := [ {| page_id := 0;
                  extract_text := Some (Examples.lines
                    ["Contents"; "Intro ..... 5"]%string) |} ] in
  let w := Examples.holding doc in
  detected_toc doc = [(lit "Intro", 5)]
  /\ split_by_chapters w (S_ Examples.book_pdf)
       (option_map S_ (Some (lit "out"))) empty_fs
     = (Ret [], after empty_fs [parse (lit "out/book_chapters")] []).
Proof.
  intros doc w.
  assert (Ht : detected_toc doc = [(lit "Intro", 5)])
    by (vm_compute; reflexivity).
  split; [exact Ht |].
  apply (entries_beyond_document_write_nothing w Examples.book_pdf
           (Some (lit "out")) doc empty_fs eq_refl eq_refl).
  - rewrite Ht. discriminate.
  - rewrite Ht. repeat constructor.
Defined.

(** ** Which pages end up in which document *)

Lemma add_pages_from (pages : list Page) m :
  forall s,
    (s + m <= List.length pages)%nat ->
    add_pages pages (map (fun k => Z.of_nat s + Z.of_nat k) (seq 0 m))
    = Some (firstn m (skipn s pages)).
Proof.
  induction m as [| m IH]; intros s Hs; [reflexivity |].
  cbn [seq map add_pages]. rewrite Z.add_0_r, pages_get_nat.
  destruct (nth_error pages s) as [pg |] eqn:E;
    [| apply nth_error_None in E; lia].
  rewrite <- seq_shift, map_map.
  rewrite (map_ext _ (fun k => Z.of_nat (S s) + Z.of_nat k))
    by (intros k; lia).
  rewrite (IH (S s)) by lia. cbn [option_map].
  assert (Hsk : skipn s pages = pg :: skipn (S s) pages).
  { clear -E. revert s E. induction pages as [| a l IHl]; intros s E.
    - destruct s; discriminate.
    - destruct s as [| s]; cbn in *; [congruence | now apply IHl]. }
  now rewrite Hsk.
Qed.

Lemma add_pages_slice (pages : list Page) s e :
  0 <= s -> e <= Z.of_nat (List.length pages) ->
  add_pages pages (range s e) = Some (slice pages s e).
Proof.
  intros Hs He. unfold range, slice.
  destruct (Z.le_gt_cases e s) as [Hle | Hlt].
  - replace (Z.to_nat (e - s)) with 0%nat by lia. reflexivity.
  - rewrite <- (add_pages_from pages (Z.to_nat (e - s)) (Z.to_nat s)) by lia.
    f_equal. apply map_ext. intros k. lia.
Qed.

Lemma firstn_then_more {A} (l : list A) a b :
  (a <= b)%nat -> firstn a l ++ firstn (b - a) (skipn a l) = firstn b l.
Proof.
  intros Hab. rewrite <- (firstn_skipn a (firstn b l)).
  rewrite firstn_firstn, skipn_firstn_comm.
  now replace (Nat.min a b) with a by lia.
Qed.

Lemma slice_then_slice {A} (l : list A) a b c :
  0 <= a <= b -> b <= c ->
  slice l a b ++ slice l b c = slice l a c.
Proof.
  intros Hab Hbc. unfold slice.
  replace (Z.to_nat b) with (Z.to_nat (b - a) + Z.to_nat a)%nat by lia.
  rewrite <- skipn_skipn.
  replace (Z.to_nat (c - b)) with (Z.to_nat (c - a) - Z.to_nat (b - a))%nat
    by lia.
  apply firstn_then_more. lia.
Qed.

Lemma slice_all {A} (l : list A) : slice l 0 (Z.of_nat (List.length l)) = l.
Proof.
  unfold slice. cbn [Z.to_nat skipn]. rewrite Z.sub_0_r, Nat2Z.id.
  apply firstn_all.
Qed.

Lemma slice_empty {A} (l : list A) a : slice l a a = [].
Proof. unfold slice. now rewrite Z.sub_diag. Qed.

Lemma filter_map_all {A B} (f : A -> option B) (g : A -> B) (l : list A) :
  (forall x, In x l -> f x = Some (g x)) -> filter_map f l = map g l.
Proof.
  induction l as [| x l IH]; intros H; [reflexivity |].
  cbn [filter_map map]. rewrite (H x (or_introl eq_refl)).
  f_equal. apply IH. intros y Hy. apply H. now right.
Qed.

Lemma pages_written_map (l : list (path * PdfWriter)) :
  pages_written l = List.concat (map (fun f => w_pages (snd f)) l).
Proof. reflexivity. Qed.

Lemma range_snoc j :
  range 0 (Z.of_nat (S j)) = range 0 (Z.of_nat j) ++ [Z.of_nat j].
Proof.
  unfold range. rewrite !Z.sub_0_r, !Nat2Z.id, seq_S, map_app. reflexivity.
Qed.

Lemma slices_up_to {A} (l : list A) sz j :
  1 <= sz ->
  let total := Z.of_nat (List.length l) in
  List.concat (map (fun k => slice l (k * sz) (Z.min (k * sz + sz) total))
                   (range 0 (Z.of_nat j)))
  = slice l 0 (Z.min (Z.of_nat j * sz) total).
Proof.
  intros HS total. induction j as [| j IH].
  - cbn. unfold slice. now replace (Z.min 0 total - 0) with 0 by lia.
  - rewrite range_snoc, map_app, concat_app, IH. cbn [map List.concat].
    rewrite app_nil_r.
    destruct (Z.le_gt_cases total (Z.of_nat j * sz)) as [Hle | Hgt].
    + replace (Z.min (Z.of_nat j * sz) total) with total by lia.
      replace (Z.min (Z.of_nat (S j) * sz) total) with total by lia.
      replace (Z.min (Z.of_nat j * sz + sz) total) with total by lia.
      unfold slice at 2.
      replace (Z.to_nat (total - Z.of_nat j * sz)) with 0%nat by lia.
      cbn [firstn]. now rewrite app_nil_r.
    + replace (Z.min (Z.of_nat j * sz) total) with (Z.of_nat j * sz) by lia.
      replace (Z.of_nat (S j) * sz) with (Z.of_nat j * sz + sz) by lia.
      apply slice_then_slice; lia.
Qed.

Lemma page_files_partition :
  forall doc dir base S,
    1 <= S -> pages_written (page_files doc dir base S) = doc.
Proof.
  intros doc dir base S HS. unfold page_files, page_plan.
  set (total := total_pages doc).
  set (n := num_chunks total S).
  assert (Hn : 0 <= n) by (apply num_chunks_nonneg; unfold total, total_pages; lia).
  pose proof (num_chunks_bounds total S HS) as Hb. fold n in Hb.
  rewrite (filter_map_all _
             (fun c => (dir // S_ (base ++ lit "_chunk_"
                                     ++ Str.fmt_03d (index c) ++ lit ".pdf"),
                        {| w_pages := slice doc (startPage c) (endPage c);
                           w_outline := [(title c, 0%nat)];
                           w_metadata :=
                             metadata (base ++ lit " - " ++ title c)
                               (lit "PDF chunk " ++ Str.fmt_d (index c)
                                  ++ lit " of " ++ Str.fmt_d n) |}))).
  - rewrite pages_written_map, !map_map. cbn [snd w_pages].
    cbn [page_range startPage endPage].
    pose proof (slices_up_to doc S (Z.to_nat n) HS) as Hsl.
    cbv zeta in Hsl. rewrite Z2Nat.id in Hsl by exact Hn.
    fold (total_pages doc) in Hsl. fold total in Hsl. rewrite Hsl.
    replace (Z.min (n * S) total) with total by lia.
    apply slice_all.
  - intros c Hc. apply in_map_iff in Hc. destruct Hc as (k & <- & Hk).
    apply In_range in Hk. unfold page_file.
    cbn [page_range startPage endPage index title].
    rewrite add_pages_slice by (unfold total, total_pages; nia).
    reflexivity.
Qed.

Lemma kept_all w l :
  (forall p, write_fails w p = false) -> kept w l = l.
Proof.
  intros H. unfold kept. induction l as [| f l IH]; [reflexivity |].
  cbn [filter]. rewrite H. cbn [negb]. now rewrite IH.
Qed.

(** X14. In a page-mode run with a chunk size of 1 or more in which every
    write succeeds, the documents written, laid end to end in writing
    order, are the source document: every page once, in its place; and
    the list returned names those documents in that order. *)
Theorem page_chunks_partition_document :
  forall w input out doc S fs,
    exists_ w (parse input) = true ->
    PdfReader w (parse input) = Some doc ->
    1 <= S ->
    (forall p, write_fails w p = false) ->
    exists new ds,
      split_by_pages w (S_ input) (option_map S_ out) S fs
      = (Ret (map fst new), after fs ds new)
      /\ pages_written new = doc.
Proof.
  intros w input out doc S fs He Hr HS Hw.
  rewrite (split_by_pages_runs w input doc He Hr (S_ input)
             (option_map S_ out) S fs eq_refl ltac:(lia)).
  rewrite kept_all by exact Hw.
  eexists. eexists. split; [reflexivity |].
  now apply page_files_partition.
Qed.

Lemma page_chunks_partition_document_witness :
  let w := Examples.holding Examples.no_contents in
  exists_ w (parse Examples.book_pdf) = true
  /\ PdfReader w (parse Examples.book_pdf) = Some Examples.no_contents
  /\ 1 <= 2
  /\ exists new ds,
       split_by_pages w (S_ Examples.book_pdf)
         (option_map S_ (Some (lit "out"))) 2 empty_fs
       = (Ret (map fst new), after empty_fs ds new)
       /\ pages_written new = Examples.no_contents.
Proof.
  intros w.
  split; [reflexivity |]. split; [reflexivity |]. split; [lia |].
  apply (page_chunks_partition_document w Examples.book_pdf
           (Some (lit "out")) Examples.no_contents 2 empty_fs);
    [reflexivity | reflexivity | lia | reflexivity].
Defined.

Lemma contiguous_slices {A} (doc : list A) total l :
  l <> [] -> contiguous l -> Forall (inside total) l ->
  List.concat (map (fun c => slice doc (startPage c) (endPage c)) l)
  = slice doc (startPage (hd no_range l)) (endPage (last l no_range))
  /\ startPage (hd no_range l) < endPage (last l no_range).
Proof.
  induction l as [| c l IH]; intros Hne Hc Hin; [contradiction |].
  inversion Hin as [| ? ? [Hc1 Hc2] Hin']; subst.
  destruct l as [| d r].
  - cbn. rewrite app_nil_r. split; [reflexivity | lia].
  - destruct Hc as [Hcd Hc'].
    destruct (IH ltac:(discriminate) Hc' Hin') as [IH1 IH2].
    cbn [hd] in *. change (last (c :: d :: r) no_range)
      with (last (d :: r) no_range).
    cbn [map List.concat] in *. rewrite IH1. split; [| lia].
    rewrite Hcd. apply slice_then_slice; lia.
Qed.

Lemma plan_from_cons i e rest total :
  plan_from i (e :: rest) total
  = if Z.max 0 (page e - 1) >=? Z.min total (Spec.endPageRaw rest total)
    then plan_from (S i) rest total
    else mkChunk (Z.of_nat i + 1) (fst e) (Z.max 0 (page e - 1))
           (Z.min total (Spec.endPageRaw rest total))
           :: plan_from (S i) rest total.
Proof. reflexivity. Qed.

Lemma last_default {A} (l : list A) d1 d2 :
  l <> [] -> last l d1 = last l d2.
Proof.
  induction l as [| a l IH]; [contradiction |]. intros _.
  destruct l as [| b l]; [reflexivity |].
  change (last (a :: b :: l) d1) with (last (b :: l) d1).
  change (last (a :: b :: l) d2) with (last (b :: l) d2).
  apply IH. discriminate.
Qed.

Lemma last_In {A} (l : list A) d : l <> [] -> In (last l d) l.
Proof.
  intros Hne. rewrite (app_removelast_last d Hne) at 2.
  apply in_or_app. right. now left.
Qed.

Lemma plan_from_last i l total :
  l <> [] -> Z.max 0 (page (last l (lit "", 0)) - 1) < total ->
  exists r c, plan_from i l total = r ++ [c] /\ endPage c = total.
Proof.
  revert i. induction l as [| e l IH]; intros i Hne Hlast; [contradiction |].
  destruct l as [| e' l'].
  - cbn [last] in Hlast. cbn [plan_from Spec.endPageRaw].
    destruct (Z.geb_spec (Z.max 0 (page e - 1)) (Z.min total total));
      [lia |].
    eexists [], _. split; [reflexivity |]. cbn [endPage]. lia.
  - change (last (e :: e' :: l') (lit "", 0))
      with (last (e' :: l') (lit "", 0)) in Hlast.
    destruct (IH (S i) ltac:(discriminate) Hlast) as (r & c & E & Hc).
    rewrite plan_from_cons, E.
    destruct (_ >=? _).
    + now exists r, c.
    + eexists (_ :: r), c. split; [reflexivity | exact Hc].
Qed.

Lemma plan_from_inside i l total :
  Forall (inside total) (plan_from i l total).
Proof.
  apply Forall_forall. intros c Hc.
  pose proof (plan_from_well_formed i l total) as Hwf.
  rewrite Forall_forall in Hwf. destruct (Hwf c Hc) as [H1 H2].
  destruct (In_plan_from i l total c Hc) as (k & e & _ & _ & _ & Hs).
  unfold inside. lia.
Qed.

Lemma chapter_files_pages doc dir base toc :
  pages_written (chapter_files doc dir base toc)
  = List.concat (map (fun c => slice doc (startPage c) (endPage c))
                     (chapter_plan toc (total_pages doc))).
Proof.
  unfold chapter_files.
  rewrite (filter_map_all _
             (fun c =>
                (dir // S_ (Str.fmt_03d (index c) ++ lit "_"
                              ++ sanitize_filename (title c) 50
                              ++ lit ".pdf"),
                 {| w_pages := slice doc (startPage c) (endPage c);
                    w_outline := [(title c, 0%nat)];
                    w_metadata :=
                      metadata (base ++ lit " - " ++ title c)
                        (lit "Chapter " ++ Str.fmt_d (index c) ++ lit ": "
                           ++ title c) |}))).
  - rewrite pages_written_map, map_map. reflexivity.
  - intros c Hc. rewrite chapter_plan_unrolled in Hc.
    pose proof (plan_from_inside 0 toc (total_pages doc)) as Hin.
    rewrite Forall_forall in Hin. destruct (Hin c Hc) as [H1 H2].
    unfold chapter_file.
    rewrite add_pages_slice by (unfold total_pages in *; lia).
    reflexivity.
Qed.

Lemma slice_to_end {A} (l : list A) a :
  0 <= a -> slice l a (Z.of_nat (List.length l)) = skipn (Z.to_nat a) l.
Proof.
  intros Ha. unfold slice. apply firstn_all2. rewrite length_skipn. lia.
Qed.

(** X15. For entries sorted by page whose last one lies within the
    document, the chapter documents, laid end to end, are the source
    document from the first entry's page to its last page: no page in
    between is lost or repeated, and the pages before the first entry's
    page are in no chapter document. *)
Theorem chapters_cover_from_first_entry :
  forall doc dir base first rest,
    let toc := first :: rest in
    StronglySorted by_page toc ->
    Forall (fun e => 1 <= page e) toc ->
    page (last toc first) <= total_pages doc ->
    pages_written (chapter_files doc dir base toc)
    = skipn (Z.to_nat (page first - 1)) doc.
Proof.
  intros doc dir base first rest toc Hs Hpos Hlast.
  rewrite chapter_files_pages, chapter_plan_unrolled.
  set (total := total_pages doc) in *.
  assert (Hl : page (last toc (lit "", 0)) = page (last toc first)).
  { f_equal. apply last_default. discriminate. }
  assert (Hin_last : In (last toc first) toc).
  { apply last_In. discriminate. }
  assert (Hp : 1 <= page (last toc first)).
  { rewrite Forall_forall in Hpos. now apply Hpos. }
  assert (Hmax : Z.max 0 (page (last toc (lit "", 0)) - 1) < total)
    by (rewrite Hl; lia).
  destruct (plan_from_last 0 toc total ltac:(discriminate) Hmax)
    as (r & c & E & Hc).
  assert (Hne : plan_from 0 toc total <> []).
  { rewrite E. destruct r; discriminate. }
  destruct (contiguous_slices doc total (plan_from 0 toc total) Hne
              (plan_from_contiguous 0 toc total Hs)
              (plan_from_inside 0 toc total)) as [Hcat _].
  rewrite Hcat.
  assert (Hend : endPage (last (plan_from 0 toc total) no_range) = total).
  { rewrite E, last_last. exact Hc. }
  assert (Hstart : startPage (hd no_range (plan_from 0 toc total))
                   = Z.max 0 (page first - 1)).
  { destruct (plan_from 0 toc total) as [| c0 r0] eqn:Ep; [contradiction |].
    cbn [hd]. exact (plan_from_first 0 first rest total c0 r0 Hs Ep). }
  rewrite Hend, Hstart. unfold total, total_pages.
  rewrite slice_to_end by lia.
  f_equal. inversion Hpos; subst. lia.
Qed.

Lemma chapters_cover_from_first_entry_witness :
  let toc := [(lit "A", 2); (lit "B", 2); (lit "C", 4)] in
  StronglySorted by_page toc
  /\ Forall (fun e => 1 <= page e) toc
  /\ page (last toc (lit "A", 2)) <= total_pages Examples.no_contents
  /\ map page_id
       (pages_written
          (chapter_files Examples.no_contents (parse (lit "out"))
             (lit "book") toc))
     = [1; 2; 3; 4]%nat.
Proof.
  intros toc.
  assert (Hs : StronglySorted by_page toc).
  { repeat (constructor; unfold by_page; cbn; try lia). }
  assert (Hp : Forall (fun e => 1 <= page e) toc).
  { repeat constructor; cbn; lia. }
  assert (Hl : page (last toc (lit "A", 2))
               <= total_pages Examples.no_contents) by (vm_compute; discriminate).
  split; [exact Hs |]. split; [exact Hp |]. split; [exact Hl |].
  pose proof (chapters_cover_from_first_entry Examples.no_contents
                (parse (lit "out")) (lit "book") (lit "A", 2)
                [(lit "B", 2); (lit "C", 4)] Hs Hp Hl) as H.
  cbv zeta in H. subst toc.
  exact (eq_trans (f_equal (map page_id) H) eq_refl).
Defined.

(** ** No document overwrites another *)

Lemma int_acc_uint d :
  forall acc,
    Str.int_acc (Z.of_nat acc) (lit (NilEmpty.string_of_uint d))
    = Some (Z.of_nat (Nat.of_uint_acc d acc)).
Proof.
  induction d; intros acc; cbn [NilEmpty.string_of_uint lit
                                  list_ascii_of_string Nat.of_uint_acc];
    [reflexivity | ..];
    cbn [Str.int_acc]; fold (lit (NilEmpty.string_of_uint d));
    match goal with
    | |- context [Str.isdigit ?c] =>
        change (Str.isdigit c) with true;
        let v := eval vm_compute in (Z.of_nat (Str.code c - 48)) in
        change (Z.of_nat (Str.code c - 48)) with v
    end;
    rewrite <- IHd; f_equal; rewrite Nat.tail_mul_spec; lia.
Qed.

Lemma int_acc_digits_of n : Str.int_acc 0 (Str.digits n) = Some (Z.of_nat n).
Proof.
  unfold Str.digits.
  pose proof (int_acc_uint (Nat.to_uint n) 0%nat) as H.
  change (Z.of_nat 0) with 0 in H. rewrite H.
  change (Nat.of_uint_acc (Nat.to_uint n) 0) with (Nat.of_uint (Nat.to_uint n)).
  now rewrite DecimalNat.Unsigned.of_to.
Qed.

Lemma int_acc_zeros k s : Str.int_acc 0 (repeat "0"%char k ++ s) = Str.int_acc 0 s.
Proof. induction k as [| k IH]; [reflexivity | exact IH]. Qed.

Lemma int_fmt_03d a : 0 <= a -> Str.int (Str.fmt_03d a) = Some a.
Proof.
  intros Ha. unfold Str.fmt_03d.
  destruct (Z.ltb_spec a 0); [lia |].
  assert (E : Str.int_acc 0 (repeat "0"%char (3 - List.length
                (Str.digits (Z.abs_nat a))) ++ Str.digits (Z.abs_nat a))
              = Some a).
  { rewrite int_acc_zeros, int_acc_digits_of. f_equal. lia. }
  unfold Str.int.
  destruct (repeat "0"%char _ ++ _) eqn:Es; [| exact E].
  apply app_eq_nil in Es. destruct Es as [E1 E2].
  rewrite E2 in E1. discriminate E1.
Qed.

Lemma fmt_03d_inj a b :
  0 <= a -> 0 <= b -> Str.fmt_03d a = Str.fmt_03d b -> a = b.
Proof.
  intros Ha Hb E. pose proof (int_fmt_03d a Ha) as H1.
  rewrite E, (int_fmt_03d b Hb) in H1. congruence.
Qed.

Lemma digits_are_digits n : Forall is_digit (Str.digits n).
Proof.
  unfold Str.digits. generalize (Nat.to_uint n). intros d.
  induction d; cbn; constructor; try assumption; reflexivity.
Qed.

Lemma fmt_03d_digits a : 0 <= a -> Forall is_digit (Str.fmt_03d a).
Proof.
  intros Ha. unfold Str.fmt_03d. destruct (Z.ltb_spec a 0); [lia |].
  apply Forall_app. split; [| apply digits_are_digits].
  induction (3 - _)%nat; cbn; constructor; [reflexivity | assumption].
Qed.

Lemma digit_prefix_unique u v x y :
  Forall is_digit u -> Forall is_digit v ->
  u ++ "_"%char :: x = v ++ "_"%char :: y -> u = v.
Proof.
  intros Hu. revert v. induction Hu as [| c u Hc _ IH]; intros v Hv E.
  - destruct v as [| d v]; [reflexivity |].
    inversion Hv; subst. cbn in E. injection E as <- _. discriminate.
  - destruct v as [| d v].
    + cbn in E. injection E as -> _. discriminate.
    + inversion Hv; subst. cbn in E. injection E as -> E.
      f_equal. now apply IH.
Qed.

Lemma join_name_inj dir a b :
  component a -> component b -> dir // S_ a = dir // S_ b -> a = b.
Proof.
  intros Ha Hb E. rewrite (join_component dir a Ha),
                    (join_component dir b Hb) in E.
  injection E as E. now apply app_inj_tail in E.
Qed.

Lemma sorted_index_NoDup l :
  StronglySorted (fun a b => index a < index b) l -> NoDup l.
Proof.
  induction 1 as [| a l _ IH Hall]; constructor; [| exact IH].
  intros Hin. rewrite Forall_forall in Hall. specialize (Hall a Hin). lia.
Qed.

Lemma sorted_index_inj l x y :
  StronglySorted (fun a b => index a < index b) l ->
  In x l -> In y l -> index x = index y -> x = y.
Proof.
  induction 1 as [| a l _ IH Hall]; intros Hx Hy E; [destruct Hx |].
  rewrite Forall_forall in Hall.
  destruct Hx as [<- | Hx], Hy as [<- | Hy]; try reflexivity.
  - specialize (Hall y Hy). lia.
  - specialize (Hall x Hx). lia.
  - now apply IH.
Qed.

Lemma sorted_map_seq (g : nat -> ChunkRange) s m :
  (forall i j, (i < j)%nat -> index (g i) < index (g j)) ->
  StronglySorted (fun a b => index a < index b) (map g (seq s m)).
Proof.
  intros Hg. revert s. induction m as [| m IH]; intros s; cbn [seq map];
    constructor; [apply IH |].
  apply Forall_forall. intros c Hc. apply in_map_iff in Hc.
  destruct Hc as (j & <- & Hj). apply in_seq in Hj. apply Hg. lia.
Qed.

Lemma page_plan_increasing total S :
  StronglySorted (fun a b => index a < index b) (page_plan total S).
Proof.
  unfold page_plan, range. rewrite map_map.
  apply sorted_map_seq. intros i j Hij. cbn [page_range index]. lia.
Qed.

Lemma page_plan_index total S c : In c (page_plan total S) -> 1 <= index c.
Proof.
  unfold page_plan. rewrite in_map_iff. intros (k & <- & Hk).
  apply In_range in Hk. cbn [page_range index]. lia.
Qed.

Lemma chapter_plan_index toc total c :
  In c (chapter_plan toc total) -> 1 <= index c.
Proof.
  rewrite chapter_plan_unrolled. intros Hc.
  destruct (In_plan_from 0 toc total c Hc) as (k & e & _ & -> & _). lia.
Qed.

Lemma NoDup_paths {A} (f : A -> option (path * PdfWriter)) (l : list A) :
  NoDup l ->
  (forall x y fx fy, In x l -> In y l -> f x = Some fx -> f y = Some fy ->
                     fst fx = fst fy -> x = y) ->
  NoDup (map fst (filter_map f l)).
Proof.
  induction 1 as [| x l Hx Hnd IH]; intros Hinj; [constructor |].
  cbn [filter_map].
  assert (IH' : NoDup (map fst (filter_map f l))).
  { apply IH. intros a b fa fb Ha Hb. apply Hinj; now right. }
  destruct (f x) as [fx |] eqn:E; [| exact IH'].
  cbn [map]. constructor; [| exact IH'].
  intros Hin. apply in_map_iff in Hin. destruct Hin as (fy & Hfst & Hfy).
  apply In_filter_map in Hfy. destruct Hfy as (y & Hy & Ey).
  apply Hx. rewrite (Hinj x y fx fy); auto; now left + right.
Qed.

Lemma page_files_distinct doc dir base S :
  no_slash base -> NoDup (map fst (page_files doc dir base S)).
Proof.
  intros Hb. unfold page_files. apply NoDup_paths.
  - apply sorted_index_NoDup, page_plan_increasing.
  - intros x y fx fy Hx Hy Ex Ey E.
    apply (sorted_index_inj _ x y (page_plan_increasing _ _) Hx Hy).
    pose proof (page_plan_index _ _ x Hx). pose proof (page_plan_index _ _ y Hy).
    unfold page_file in Ex, Ey.
    destruct (add_pages doc _); [| discriminate].
    destruct (add_pages doc _); [| discriminate].
    injection Ex as <-. injection Ey as <-. cbn [fst] in E.
    apply join_name_inj in E; try (now apply page_file_name).
    apply app_inv_head in E. repeat (injection E as E).
    apply app_inv_tail in E. apply fmt_03d_inj; [lia | lia | exact E].
Qed.

Lemma chapter_files_distinct doc dir base toc :
  NoDup (map fst (chapter_files doc dir base toc)).
Proof.
  unfold chapter_files.
  assert (Hs : StronglySorted (fun a b => index a < index b)
                 (chapter_plan toc (total_pages doc))).
  { rewrite chapter_plan_unrolled. apply plan_from_increasing. }
  apply NoDup_paths; [now apply sorted_index_NoDup |].
  intros x y fx fy Hx Hy Ex Ey E.
  apply (sorted_index_inj _ x y Hs Hx Hy).
  pose proof (chapter_plan_index _ _ x Hx).
  pose proof (chapter_plan_index _ _ y Hy).
  unfold chapter_file in Ex, Ey.
  destruct (add_pages doc _); [| discriminate].
  destruct (add_pages doc _); [| discriminate].
  injection Ex as <-. injection Ey as <-. cbn [fst] in E.
  apply join_name_inj in E; try apply chapter_file_name.
  apply digit_prefix_unique in E; try (apply fmt_03d_digits; lia).
  apply fmt_03d_inj; [lia | lia | exact E].
Qed.

(** X16. In one run no two documents are given the same path, in either
    mode and in the fallback: no chunk overwrites another. *)
Theorem output_paths_distinct :
  forall doc args, NoDup (map fst (planned_files doc args)).
Proof.
  intros doc args. unfold planned_files.
  pose proof (stem_no_slash (input_pdf args)) as Hb.
  destruct (mode args).
  - destruct (detected_toc doc).
    + now apply page_files_distinct.
    + apply chapter_files_distinct.
  - now apply page_files_distinct.
Qed.

(** ** Odd sizes and missing options *)

(** X17. A negative chunk size is not refused: the run does not raise,
    and every document it plans holds no page at all. *)
Theorem negative_size_gives_empty_documents :
  forall w input out doc S fs,
    exists_ w (parse input) = true ->
    PdfReader w (parse input) = Some doc ->
    S < 0 ->
    exists new ds,
      split_by_pages w (S_ input) (option_map S_ out) S fs
      = (Ret (map fst new), after fs ds new)
      /\ Forall (fun f => w_pages (snd f) = []) new.
Proof.
  intros w input out doc S fs He Hr HS.
  rewrite (split_by_pages_runs w input doc He Hr (S_ input)
             (option_map S_ out) S fs eq_refl ltac:(lia)).
  eexists. eexists. split; [reflexivity |].
  apply Forall_forall. intros f Hf. apply In_kept in Hf.
  unfold page_files in Hf. apply In_filter_map in Hf.
  destruct Hf as (c & Hc & Hfile).
  unfold page_plan in Hc. apply in_map_iff in Hc.
  destruct Hc as (k & <- & Hk).
  unfold page_file in Hfile. cbn [page_range startPage endPage] in Hfile.
  rewrite range_empty in Hfile by lia.
  cbn [add_pages] in Hfile. now injection Hfile as <-.
Qed.

Lemma negative_size_gives_empty_documents_witness :
  let w := Examples.holding [] in
  exists_ w (parse Examples.book_pdf) = true
  /\ PdfReader w (parse Examples.book_pdf) = Some []
  /\ -1 < 0
  /\ map (fun f => (name (fst f), w_pages (snd f)))
         (files (snd (split_by_pages w (S_ Examples.book_pdf)
                        (option_map S_ (Some (lit "out"))) (-1) empty_fs)))
     = [(lit "book_chunk_001.pdf", []); (lit "book_chunk_002.pdf", [])].
Proof.
  intros w.
  destruct (negative_size_gives_empty_documents w Examples.book_pdf
              (Some (lit "out")) [] (-1) empty_fs eq_refl eq_refl
              ltac:(lia)) as (new & ds & E & _).
  split; [reflexivity |]. split; [reflexivity |]. split; [lia |].
  reflexivity.
Defined.

(** X18. Without [--output] each mode puts its documents into a folder
    next to the input file: [<base>_chapters] in chapter mode, fallback
    included, and [<base>_pages] in page mode. *)
Theorem default_directory_beside_input :
  forall w args doc fs,
    output args = None ->
    exists_ w (parse (input_pdf args)) = true ->
    PdfReader w (parse (input_pdf args)) = Some doc ->
    ~ (mode args = pages_ /\ size args = 0) ->
    let input := parse (input_pdf args) in
    let d := parent input
             // S_ (stem input ++ match mode args with
                                  | chapters => lit "_chapters"
                                  | pages_ => lit "_pages"
                                  end) in
    exists ds new,
      snd (main w args fs) = after fs ds new
      /\ ds <> [] /\ Forall (eq d) ds
      /\ Forall (fun f => parent (fst f) = d) new
      /\ parent d = parent input.
Proof.
  intros w args doc fs Ho He Hr Hz input d.
  rewrite (main_completes w args fs doc He Hr Hz). cbn [snd].
  exists (made_dirs doc args), (kept w (planned_files doc args)).
  split; [reflexivity |].
  assert (Hd : made_dirs doc args = [d] \/ made_dirs doc args = [d; d]).
  { unfold made_dirs, d, input, chapters_dir, pages_dir. rewrite Ho.
    destruct (mode args); [| now left].
    destruct (detected_toc doc); [now right | now left]. }
  split; [destruct Hd as [-> | ->]; discriminate |].
  split; [destruct Hd as [-> | ->]; repeat constructor |].
  split.
  - apply Forall_forall. intros f Hf. apply In_kept in Hf.
    pose proof (planned_files_located doc args f Hf) as Hall.
    destruct Hd as [E | E]; rewrite E in Hall; now apply Forall_inv in Hall.
  - unfold d. apply parent_join.
    pose proof (stem_no_slash (input_pdf args)) as Hb. fold input in Hb.
    destruct (mode args); apply suffixed_component;
      try exact Hb; try (cbn; lia); repeat constructor; discriminate.
Qed.

Lemma default_directory_beside_input_witness :
  let w := Examples.holding Examples.no_contents in
  let args := {| input_pdf := lit "docs/book.pdf"; mode := pages_;
                 output := None; size := 99; quiet := true |} in
  output args = None
  /\ exists_ w (parse (input_pdf args)) = true
  /\ PdfReader w (parse (input_pdf args)) = Some Examples.no_contents
  /\ ~ (mode args = pages_ /\ size args = 0)
  /\ exists ds new,
       snd (main w args empty_fs) = after empty_fs ds new
       /\ Forall (eq (parse (lit "docs/book_pages"))) ds
       /\ Forall (fun f => parent (fst f) = parse (lit "docs/book_pages")) new.
Proof.
  intros w args.
  assert (Hz : ~ (mode args = pages_ /\ size args = 0))
    by (intros [_ H]; discriminate).
  split; [reflexivity |]. split; [reflexivity |]. split; [reflexivity |].
  split; [exact Hz |].
  destruct (default_directory_beside_input w args Examples.no_contents
              empty_fs eq_refl eq_refl eq_refl Hz)
    as (ds & new & E & _ & Hds & Hnew & _).
  exists ds, new. split; [exact E |]. split; [exact Hds | exact Hnew].
Defined.
